(** * Real-time audio output manager

    A shallow embedding of
    [bots/bot_controller/realtime_audio_output_manager.py]: the chunk
    accumulator ([add_chunk]), the sample-rate conversion
    ([upsample_chunk_to_output_sample_rate], [_upsample]), the lazily
    spawned playback worker ([_process_audio_queue]), the pause gate
    ([pause_for]) and [cleanup]; and of the chunk builder
    [make_pcm_chunk] of [bots/tests/test_realtime_audio_features.py].

    Conventions of the model.
    - PCM data is a [list byte]; a 16-bit sample is the pair of bytes it
      occupies in memory.
    - Wall-clock values ([time.time()]) and durations are exact integers
      counted in microseconds; rounding of Python floats is outside the
      model, except for the frame size, which is compared with its
      binary64 computation.
    - The clock is part of the state: it advances when a thread sleeps or
      waits, and a call of a public method takes no time.
    - A Python exception is an explicit [Raise] result.
    - The playback thread is a control point inside
      [_process_audio_queue]; it moves from one control point to the next
      in one step, and the steps interleave with the calls of the public
      methods. A thread that has left its loop is still alive: the end
      of the thread function is a step of its own.
    - The spawn protocol of [add_chunk_inner] is also modelled on its
      own, statement by statement, for any number of concurrent
      callers. *)

From Stdlib Require Import ZArith List Bool Lia PeanoNat Floats Uint63.
From Stdlib.Strings Require Import Byte.
Import ListNotations.
Open Scope Z_scope.

(** ** Python values and exceptions *)

Definition bytes := list byte.

Inductive exn : Type :=
| ZeroDivisionError   (* [//] or [%] by zero *)
| ValueError          (* [np.frombuffer] on a buffer of odd size *)
| AudioopError        (* [audioop.error] *)
| QueueEmpty          (* [queue.Empty] *)
| SinkError.          (* anything else, raised by the playback callback *)

Inductive result (A : Type) : Type :=
| Ok (a : A)
| Raise (e : exn).
Arguments Ok {A} a.
Arguments Raise {A} e.

Definition bind {A B : Type} (r : result A) (k : A -> result B) : result B :=
  match r with
  | Ok a => k a
  | Raise e => Raise e
  end.

Notation "x <- r ;; k" := (bind r (fun x => k))
  (at level 61, r at next level, right associativity).

(** [a // b] on Python integers: floor division, an error on a zero divisor. *)
Definition py_floordiv (a b : Z) : result Z :=
  if b =? 0 then Raise ZeroDivisionError else Ok (a / b).

(** [a % b] on Python integers: the sign follows the divisor. *)
Definition py_mod (a b : Z) : result Z :=
  if b =? 0 then Raise ZeroDivisionError else Ok (a mod b).

(** Position designated by a slice bound [k] in a sequence of [len] items:
    a negative bound counts from the end, and everything is clamped. *)
Definition py_bound (k : Z) (len : nat) : nat :=
  if k <? 0 then Z.to_nat (Z.max (Z.of_nat len + k) 0) else Z.to_nat k.

(** [l[:k]] *)
Definition slice_to {A : Type} (l : list A) (k : Z) : list A :=
  firstn (py_bound k (length l)) l.

(** [l[k:]] *)
Definition slice_from {A : Type} (l : list A) (k : Z) : list A :=
  skipn (py_bound k (length l)) l.

Definition len {A : Type} (l : list A) : Z := Z.of_nat (length l).

(** ** numpy on 16-bit samples *)

Definition int16 : Type := (byte * byte)%type.

(** [np.frombuffer(chunk, dtype=np.int16)]: the buffer size must be a
    multiple of the element size. *)
Fixpoint np_frombuffer_int16 (chunk : bytes) : result (list int16) :=
  match chunk with
  | [] => Ok []
  | [_] => Raise ValueError
  | lo :: hi :: rest =>
      samples <- np_frombuffer_int16 rest ;; Ok ((lo, hi) :: samples)
  end.

(** [np.repeat(samples, n)]: every element [n] times, in order. *)
Definition np_repeat (samples : list int16) (n : Z) : list int16 :=
  flat_map (fun s => repeat s (Z.to_nat n)) samples.

(** [samples.tobytes()] *)
Definition np_tobytes (samples : list int16) : bytes :=
  flat_map (fun s => [fst s; snd s]) samples.

(** ** The chunks of the tests *)

Definition byte_of_Z (z : Z) : byte :=
  match Byte.of_N (Z.to_N z) with
  | Some b => b
  | None => x00
  end.

(** [struct.pack("<h", v)]: the two bytes of [v] in two's complement,
    low byte first. [None] stands for [struct.error], raised when [v] is
    not in the range of a 16-bit integer. *)
Definition struct_pack_h (v : Z) : option int16 :=
  if (-32768 <=? v) && (v <=? 32767)
  then Some (byte_of_Z (v mod 256), byte_of_Z ((v / 256) mod 256))
  else None.

(** [make_pcm_chunk(sample_value, repeat)] of
    [bots/tests/test_realtime_audio_features.py], that is
    [struct.pack("<" + "h" * repeat, *([sample_value] * repeat))]: the
    format and the list of values are both empty when [repeat <= 0]. *)
Definition make_pcm_chunk (sample_value : Z) (repeat_count : Z) : option bytes :=
  match Z.to_nat repeat_count with
  | O => Some []
  | S _ =>
      match struct_pack_h sample_value with
      | Some sample => Some (np_tobytes (repeat sample (Z.to_nat repeat_count)))
      | None => None
      end
  end.

(** ** Sample-rate conversion *)

Definition SAMPLE_WIDTH : Z := 2.
Definition CHANNELS : Z := 1.

(** A stand-in for the library routine, to run the model on concrete
    inputs: like [audioop.ratecv] it refuses rates that are not positive
    and fragments that are not whole samples; otherwise it hands the
    fragment back. *)
Definition ratecv_example (fragment : bytes) (width nchannels inrate outrate : Z)
    : result bytes :=
  if (inrate <=? 0) || (outrate <=? 0) || negb (len fragment mod width =? 0)
  then Raise AudioopError
  else Ok fragment.

Section Manager.

(** [audioop.ratecv(fragment, width, nchannels, inrate, outrate, None)],
    first component of the returned pair; the library routine is not
    part of the repository. *)
Variable audioop_ratecv : bytes -> Z -> Z -> Z -> Z -> result bytes.

Definition _upsample (chunk : bytes) (src_rate dst_rate : Z) : result bytes :=
  if src_rate =? dst_rate then Ok chunk
  else audioop_ratecv chunk SAMPLE_WIDTH CHANNELS src_rate dst_rate.

(** The method of the manager, with [self.output_sample_rate] as first
    argument. *)
Definition upsample_chunk_to_output_sample_rate
    (output_sample_rate : Z) (chunk : bytes) (sample_rate : Z) : result bytes :=
  if sample_rate =? output_sample_rate then Ok chunk
  else
    ratio <- py_floordiv output_sample_rate sample_rate ;;
    rem <- py_mod output_sample_rate sample_rate ;;
    if negb (rem =? 0) || (ratio <=? 1)
    then _upsample chunk sample_rate output_sample_rate
    else
      samples <- np_frombuffer_int16 chunk ;;
      Ok (np_tobytes (np_repeat samples ratio)).

(** ** The manager object *)

(** Durations, in microseconds. *)
Definition seconds (n : Z) : Z := n * 1000000.
Definition milliseconds (n : Z) : Z := n * 1000.

(** Control point of a playback thread inside [_process_audio_queue]. *)
Inductive worker_pc : Type :=
| AtLoopTest                              (* [while not self.stop_audio_thread] *)
| AtGet                                   (* [self.audio_queue.get(timeout=1.0)] *)
| AtWaitIfPaused (chunk_upsampled : bytes) (* loop test of [_wait_if_paused] *)
| AtStopTest (chunk_upsampled : bytes)     (* [if self.stop_audio_thread: break] *)
| AtPlay (chunk_upsampled : bytes)         (* [self.play_raw_audio_callback(...)] *)
| AtSleep (end_time : Z)                  (* loop test of [_sleep_with_interrupts] *)
| AtReturn (cause : option exn)           (* out of the loop, the function still to end *)
| Exited (cause : option exn).            (* the thread function has returned or raised *)

Record manager : Type := {
  play_raw_audio_callback : bytes -> Z -> result unit;
  sleep_time_between_chunks_seconds : Z;
  audio_queue : list (bytes * Z);
  audio_thread : option worker_pc;          (* [None] or a thread object *)
  stop_audio_thread : bool;
  last_chunk_time : Z;
  output_sample_rate : Z;
  inner_chunk_buffer : bytes;
  pause_until_timestamp : Z;
  (* the world around the object *)
  now : Z;                                  (* what [time.time()] returns *)
  played : list (bytes * Z)                 (* calls received by the callback *)
}.

Definition bytes_per_sample : Z := 2.

(** [int(self.bytes_per_sample * self.chunk_length_seconds * sample_rate)]
    with [chunk_length_seconds = 0.1]: [int] truncates towards zero, and
    so does [Z.quot]. *)
Definition chunk_size_bytes (sample_rate : Z) : Z :=
  Z.quot (bytes_per_sample * sample_rate) 10.

(** The same expression as Python evaluates it, in binary64 arithmetic:
    the integers are converted to floats, the products are rounded, and
    [int] drops the fractional part. It is here to compare
    [chunk_size_bytes] with, on sample rates (of magnitude below 2^62). *)
Definition float_of_int (z : Z) : float :=
  if z <? 0 then PrimFloat.opp (PrimFloat.of_uint63 (Uint63.of_Z (- z)))
  else PrimFloat.of_uint63 (Uint63.of_Z z).

Definition int_of_float (f : float) : Z :=
  match Prim2SF f with
  | S754_finite sign m e =>
      let magnitude := if 0 <=? e then Z.pos m * 2 ^ e else Z.pos m / 2 ^ (- e) in
      if sign then - magnitude else magnitude
  | _ => 0
  end.

Definition chunk_length_seconds : float := 0x1.999999999999ap-4%float. (* 0.1 *)

Definition chunk_size_bytes_float (sample_rate : Z) : Z :=
  int_of_float
    (float_of_int bytes_per_sample * chunk_length_seconds
     * float_of_int sample_rate)%float.

Definition set_audio_queue (q : list (bytes * Z)) (s : manager) : manager :=
  {| play_raw_audio_callback := play_raw_audio_callback s;
     sleep_time_between_chunks_seconds := sleep_time_between_chunks_seconds s;
     audio_queue := q;
     audio_thread := audio_thread s;
     stop_audio_thread := stop_audio_thread s;
     last_chunk_time := last_chunk_time s;
     output_sample_rate := output_sample_rate s;
     inner_chunk_buffer := inner_chunk_buffer s;
     pause_until_timestamp := pause_until_timestamp s;
     now := now s;
     played := played s |}.

Definition set_audio_thread (t : option worker_pc) (s : manager) : manager :=
  {| play_raw_audio_callback := play_raw_audio_callback s;
     sleep_time_between_chunks_seconds := sleep_time_between_chunks_seconds s;
     audio_queue := audio_queue s;
     audio_thread := t;
     stop_audio_thread := stop_audio_thread s;
     last_chunk_time := last_chunk_time s;
     output_sample_rate := output_sample_rate s;
     inner_chunk_buffer := inner_chunk_buffer s;
     pause_until_timestamp := pause_until_timestamp s;
     now := now s;
     played := played s |}.

Definition set_stop_audio_thread (b : bool) (s : manager) : manager :=
  {| play_raw_audio_callback := play_raw_audio_callback s;
     sleep_time_between_chunks_seconds := sleep_time_between_chunks_seconds s;
     audio_queue := audio_queue s;
     audio_thread := audio_thread s;
     stop_audio_thread := b;
     last_chunk_time := last_chunk_time s;
     output_sample_rate := output_sample_rate s;
     inner_chunk_buffer := inner_chunk_buffer s;
     pause_until_timestamp := pause_until_timestamp s;
     now := now s;
     played := played s |}.

Definition set_last_chunk_time (t : Z) (s : manager) : manager :=
  {| play_raw_audio_callback := play_raw_audio_callback s;
     sleep_time_between_chunks_seconds := sleep_time_between_chunks_seconds s;
     audio_queue := audio_queue s;
     audio_thread := audio_thread s;
     stop_audio_thread := stop_audio_thread s;
     last_chunk_time := t;
     output_sample_rate := output_sample_rate s;
     inner_chunk_buffer := inner_chunk_buffer s;
     pause_until_timestamp := pause_until_timestamp s;
     now := now s;
     played := played s |}.

Definition set_inner_chunk_buffer (b : bytes) (s : manager) : manager :=
  {| play_raw_audio_callback := play_raw_audio_callback s;
     sleep_time_between_chunks_seconds := sleep_time_between_chunks_seconds s;
     audio_queue := audio_queue s;
     audio_thread := audio_thread s;
     stop_audio_thread := stop_audio_thread s;
     last_chunk_time := last_chunk_time s;
     output_sample_rate := output_sample_rate s;
     inner_chunk_buffer := b;
     pause_until_timestamp := pause_until_timestamp s;
     now := now s;
     played := played s |}.

Definition set_pause_until_timestamp (t : Z) (s : manager) : manager :=
  {| play_raw_audio_callback := play_raw_audio_callback s;
     sleep_time_between_chunks_seconds := sleep_time_between_chunks_seconds s;
     audio_queue := audio_queue s;
     audio_thread := audio_thread s;
     stop_audio_thread := stop_audio_thread s;
     last_chunk_time := last_chunk_time s;
     output_sample_rate := output_sample_rate s;
     inner_chunk_buffer := inner_chunk_buffer s;
     pause_until_timestamp := t;
     now := now s;
     played := played s |}.

Definition set_now (t : Z) (s : manager) : manager :=
  {| play_raw_audio_callback := play_raw_audio_callback s;
     sleep_time_between_chunks_seconds := sleep_time_between_chunks_seconds s;
     audio_queue := audio_queue s;
     audio_thread := audio_thread s;
     stop_audio_thread := stop_audio_thread s;
     last_chunk_time := last_chunk_time s;
     output_sample_rate := output_sample_rate s;
     inner_chunk_buffer := inner_chunk_buffer s;
     pause_until_timestamp := pause_until_timestamp s;
     now := t;
     played := played s |}.

Definition set_played (l : list (bytes * Z)) (s : manager) : manager :=
  {| play_raw_audio_callback := play_raw_audio_callback s;
     sleep_time_between_chunks_seconds := sleep_time_between_chunks_seconds s;
     audio_queue := audio_queue s;
     audio_thread := audio_thread s;
     stop_audio_thread := stop_audio_thread s;
     last_chunk_time := last_chunk_time s;
     output_sample_rate := output_sample_rate s;
     inner_chunk_buffer := inner_chunk_buffer s;
     pause_until_timestamp := pause_until_timestamp s;
     now := now s;
     played := l |}.

(** [time.sleep(d)], and any other passage of [d] microseconds. *)
Definition time_sleep (d : Z) (s : manager) : manager :=
  set_now (now s + d) s.

(** [__init__], run when the clock shows [t0]. *)
Definition init (callback : bytes -> Z -> result unit)
    (sleep_time_between_chunks : Z) (output_rate : Z) (t0 : Z) : manager :=
  {| play_raw_audio_callback := callback;
     sleep_time_between_chunks_seconds := sleep_time_between_chunks;
     audio_queue := [];
     audio_thread := None;
     stop_audio_thread := false;
     last_chunk_time := t0;
     output_sample_rate := output_rate;
     inner_chunk_buffer := [];
     pause_until_timestamp := 0;
     now := t0;
     played := [] |}.

(** [self.audio_thread is None or not self.audio_thread.is_alive()],
    negated. *)
Definition is_alive (s : manager) : bool :=
  match audio_thread s with
  | None => false
  | Some (Exited _) => false
  | Some _ => true
  end.

(** ** Pause gate *)

Definition pause_for (duration_seconds : Z) (s : manager) : manager :=
  if duration_seconds <=? 0 then s
  else
    let pause_until := now s + duration_seconds in
    if pause_until >? pause_until_timestamp s
    then set_pause_until_timestamp pause_until s
    else s.

Definition _remaining_pause_time (s : manager) : Z :=
  let remaining := pause_until_timestamp s - now s in
  Z.max remaining 0.

(** ** Accumulator and enqueue *)

Definition _start_audio_thread (s : manager) : manager :=
  set_audio_thread (Some AtLoopTest) (set_stop_audio_thread false s).

Definition add_chunk_inner (chunk : bytes) (sample_rate : Z) (s : manager) : manager :=
  let s := set_audio_queue (audio_queue s ++ [(chunk, sample_rate)]) s in
  let s := set_last_chunk_time (now s) s in
  if is_alive s then s else _start_audio_thread s.

(** What is known of a call after a bounded number of loop iterations. *)
Inductive outcome : Type :=
| Returned (s : manager)       (* the call has returned, leaving [s] *)
| StillRunning (s : manager).  (* the loop is still running, in state [s] *)

(** The [while] loop of [add_chunk], followed for at most [fuel]
    iterations. *)
Fixpoint add_chunk_loop (fuel : nat) (size : Z) (sample_rate : Z)
    (s : manager) : outcome :=
  if len (inner_chunk_buffer s) >=? size then
    match fuel with
    | O => StillRunning s
    | S fuel' =>
        let s1 := add_chunk_inner (slice_to (inner_chunk_buffer s) size) sample_rate s in
        let s2 := set_inner_chunk_buffer (slice_from (inner_chunk_buffer s1) size) s1 in
        add_chunk_loop fuel' size sample_rate s2
    end
  else Returned s.

Definition add_chunk (fuel : nat) (chunk : bytes) (sample_rate : Z)
    (s : manager) : outcome :=
  let s := if now s - last_chunk_time s >? milliseconds 150
           then set_inner_chunk_buffer [] s else s in
  let s := set_last_chunk_time (now s) s in
  let s := set_inner_chunk_buffer (inner_chunk_buffer s ++ chunk) s in
  add_chunk_loop fuel (chunk_size_bytes sample_rate) sample_rate s.

(** Successive calls of [add_chunk_inner] on a list of frames. *)
Definition enqueue_all (frames : list bytes) (sample_rate : Z) (s : manager) : manager :=
  fold_left (fun s frame => add_chunk_inner frame sample_rate s) frames s.

(** The state carried by an outcome. *)
Definition state_of (o : outcome) : manager :=
  match o with Returned s => s | StillRunning s => s end.

(** ** Playback worker *)

Definition goto (pc : worker_pc) (s : manager) : manager :=
  set_audio_thread (Some pc) s.

(** The loop is left, by [break], by its test, or by an exception that
    nothing catches. The thread function has still to end (the log line
    after the loop, the return or the propagation of the exception), and
    until it has [is_alive()] holds. *)
Definition leave_loop (cause : option exn) (s : manager) : manager :=
  goto (AtReturn cause) s.

(** The thread function ends: from now on [is_alive()] is false. *)
Definition exit_thread (cause : option exn) (s : manager) : manager :=
  set_audio_thread (Some (Exited cause)) s.

(** The handler [except queue.Empty]: the idle test, then [break] or
    [continue]. *)
Definition on_queue_empty (s : manager) : manager :=
  if negb (last_chunk_time s =? 0)
     && (now s - last_chunk_time s >? seconds 10)
  then leave_loop None s
  else goto AtLoopTest s.

(** An exception raised inside the [try] block: [queue.Empty] is handled,
    anything else leaves the thread function. *)
Definition on_exception (e : exn) (s : manager) : manager :=
  match e with
  | QueueEmpty => on_queue_empty s
  | _ => leave_loop (Some e) s
  end.

(** One step of the thread running [_process_audio_queue], from one
    control point to the next. A thread that does not exist or has exited
    does nothing. *)
Definition worker_step (s : manager) : manager :=
  match audio_thread s with
  | None | Some (Exited _) => s
  | Some (AtReturn cause) => exit_thread cause s
  | Some AtLoopTest =>
      if stop_audio_thread s then leave_loop None s else goto AtGet s
  | Some AtGet =>
      match audio_queue s with
      | (chunk, sample_rate) :: rest =>
          let s := set_audio_queue rest s in
          match upsample_chunk_to_output_sample_rate
                  (output_sample_rate s) chunk sample_rate with
          | Ok chunk_upsampled => goto (AtWaitIfPaused chunk_upsampled) s
          | Raise e => on_exception e s
          end
      | [] =>
          (* [queue.Empty] after the one second of the timeout *)
          on_exception QueueEmpty (time_sleep (seconds 1) s)
      end
  | Some (AtWaitIfPaused c) =>
      if stop_audio_thread s then goto (AtStopTest c) s
      else
        let remaining := _remaining_pause_time s in
        if remaining <=? 0 then goto (AtStopTest c) s
        else time_sleep (Z.min remaining (milliseconds 50)) s
  | Some (AtStopTest c) =>
      if stop_audio_thread s then leave_loop None s else goto (AtPlay c) s
  | Some (AtPlay c) =>
      let s := set_played (played s ++ [(c, output_sample_rate s)]) s in
      match play_raw_audio_callback s c (output_sample_rate s) with
      | Raise e => on_exception e s
      | Ok _ =>
          (* [_sleep_with_interrupts(sleep_time * chunk_length_seconds)],
             a tenth of the configured time *)
          let total_seconds := Z.quot (sleep_time_between_chunks_seconds s) 10 in
          if total_seconds <=? 0 then goto AtLoopTest s
          else goto (AtSleep (now s + total_seconds)) s
      end
  | Some (AtSleep end_time) =>
      if stop_audio_thread s then goto AtLoopTest s
      else if _remaining_pause_time s >? 0 then goto AtLoopTest s
      else
        let remaining := end_time - now s in
        if remaining <=? 0 then goto AtLoopTest s
        else time_sleep (Z.min remaining (milliseconds 50)) s
  end.

Fixpoint worker_steps (n : nat) (s : manager) : manager :=
  match n with
  | O => s
  | S n' => worker_steps n' (worker_step s)
  end.

(** ** Cleanup *)

(** [self.audio_thread.join()]: the caller waits while the thread runs;
    [None] when the thread is still alive after [fuel] steps. *)
Fixpoint join (fuel : nat) (s : manager) : option manager :=
  if is_alive s then
    match fuel with
    | O => None
    | S fuel' => join fuel' (worker_step s)
    end
  else Some s.

(** [cleanup]; the worker takes [k] steps between the assignment of the
    stop flag and the emptying of the queue. *)
Definition cleanup (k fuel : nat) (s : manager) : option manager :=
  let s := set_stop_audio_thread true s in
  let s := worker_steps k s in
  let s := set_audio_queue [] s in
  match join fuel s with
  | None => None
  | Some s => Some (set_pause_until_timestamp 0 s)
  end.

(** ** Schedules

    The manager used by its callers while the worker runs: a schedule is
    a sequence of calls, pauses, passages of time and worker steps. *)

Inductive action : Type :=
| Call (chunk : bytes) (sample_rate : Z)  (* [add_chunk(chunk, sample_rate)] *)
| Pause (duration_seconds : Z)            (* [pause_for(duration_seconds)] *)
| Wait (d : Z)                            (* [d] microseconds pass *)
| Work.                                   (* the worker takes one step *)

(** A call is followed for as many iterations as there are bytes to cut. *)
Definition act (a : action) (s : manager) : outcome :=
  match a with
  | Call chunk sample_rate =>
      add_chunk (length (inner_chunk_buffer s) + length chunk) chunk sample_rate s
  | Pause d => Returned (pause_for d s)
  | Wait d => Returned (time_sleep d s)
  | Work => Returned (worker_step s)
  end.

Fixpoint run (acts : list action) (s : manager) : outcome :=
  match acts with
  | [] => Returned s
  | a :: acts' =>
      match act a s with
      | Returned s' => run acts' s'
      | StillRunning s' => StillRunning s'
      end
  end.

(** The items that a step from [s] to [s'] has appended to the queue. *)
Definition appended (s s' : manager) : list (bytes * Z) :=
  skipn (length (audio_queue s)) (audio_queue s').

(** The frames forwarded by the calls of a schedule, in order. *)
Fixpoint forwarded (acts : list action) (s : manager) : list (bytes * Z) :=
  match acts with
  | [] => []
  | a :: acts' =>
      match act a s with
      | Returned s' =>
          match a with Call _ _ => appended s s' | _ => [] end
          ++ forwarded acts' s'
      | StillRunning _ => []
      end
  end.

(** What the callback receives for a queued item: the converted bytes
    (nothing when the conversion raises) and the output rate. *)
Definition converted (s : manager) (item : bytes * Z) : bytes * Z :=
  (match upsample_chunk_to_output_sample_rate
           (output_sample_rate s) (fst item) (snd item) with
   | Ok c => c
   | Raise _ => []
   end,
   output_sample_rate s).

(** The chunk the worker has dequeued and not yet handed over. *)
Definition in_flight (s : manager) : list (bytes * Z) :=
  match audio_thread s with
  | Some (AtWaitIfPaused c) | Some (AtStopTest c) | Some (AtPlay c) =>
      [(c, output_sample_rate s)]
  | _ => []
  end.

(** Everything played, being played or waiting to be played, in order. *)
Definition timeline (s : manager) : list (bytes * Z) :=
  played s ++ in_flight s ++ map (converted s) (audio_queue s).

(** ** The spawn protocol of [add_chunk_inner], statement by statement

    Any number of caller threads run [add_chunk_inner] concurrently; the
    interleaving is a sequence of events, each the next statement of one
    caller or the end of one playback thread. *)

Inductive thread_status : Type :=
| Unstarted    (* created, [start()] not yet called *)
| Running      (* [is_alive()] holds *)
| Finished.    (* the thread function has returned *)

(** Where a caller stands in [add_chunk_inner]. *)
Inductive caller_pc : Type :=
| Outside          (* not in the method *)
| AtFirstCheck     (* the liveness test made without the lock *)
| AtAcquire        (* [with self.thread_lock:], waiting for the lock *)
| AtSecondCheck    (* the liveness test made under the lock *)
| AtThreadStart    (* thread object stored, [self.audio_thread.start()] next *)
| AtRelease.       (* end of the [with] block *)

Record spawn_state : Type := {
  status : nat -> thread_status;  (* the thread objects, by creation index *)
  created : nat;                  (* how many have been created *)
  current : option nat;           (* [self.audio_thread] *)
  thread_lock : option nat;       (* the caller holding [self.thread_lock] *)
  callers : nat -> caller_pc
}.

Definition upd {A : Type} (f : nat -> A) (i : nat) (x : A) : nat -> A :=
  fun j => if Nat.eqb j i then x else f j.

Definition spawn_init : spawn_state :=
  {| status := fun _ => Unstarted;
     created := 0;
     current := None;
     thread_lock := None;
     callers := fun _ => Outside |}.

(** [not (self.audio_thread is None or not self.audio_thread.is_alive())] *)
Definition current_alive (s : spawn_state) : bool :=
  match current s with
  | None => false
  | Some w => match status s w with Running => true | _ => false end
  end.

Definition move (i : nat) (pc : caller_pc) (s : spawn_state) : spawn_state :=
  {| status := status s; created := created s; current := current s;
     thread_lock := thread_lock s; callers := upd (callers s) i pc |}.

(** The next statement of caller [i]; a caller waiting for a lock that is
    held stays where it is. *)
Definition caller_step (i : nat) (s : spawn_state) : spawn_state :=
  match callers s i with
  | Outside => move i AtFirstCheck s
  | AtFirstCheck =>
      if current_alive s then move i Outside s else move i AtAcquire s
  | AtAcquire =>
      match thread_lock s with
      | Some _ => s
      | None =>
          {| status := status s; created := created s; current := current s;
             thread_lock := Some i; callers := upd (callers s) i AtSecondCheck |}
      end
  | AtSecondCheck =>
      if current_alive s then move i AtRelease s
      else
        (* [self.audio_thread = threading.Thread(...)] *)
        {| status := upd (status s) (created s) Unstarted;
           created := S (created s);
           current := Some (created s);
           thread_lock := thread_lock s;
           callers := upd (callers s) i AtThreadStart |}
  | AtThreadStart =>
      (* [self.audio_thread.start()]; a thread can be started only once *)
      match current s with
      | Some w =>
          match status s w with
          | Unstarted =>
              {| status := upd (status s) w Running; created := created s;
                 current := current s; thread_lock := thread_lock s;
                 callers := upd (callers s) i AtRelease |}
          | _ => move i AtRelease s
          end
      | None => move i AtRelease s
      end
  | AtRelease =>
      {| status := status s; created := created s; current := current s;
         thread_lock := None; callers := upd (callers s) i Outside |}
  end.

(** The thread function of thread [w] returns. *)
Definition thread_exit (w : nat) (s : spawn_state) : spawn_state :=
  match status s w with
  | Running =>
      {| status := upd (status s) w Finished; created := created s;
         current := current s; thread_lock := thread_lock s;
         callers := callers s |}
  | _ => s
  end.

Inductive spawn_event : Type :=
| CallerStep (i : nat)
| ThreadExit (w : nat).

Definition spawn_step (s : spawn_state) (ev : spawn_event) : spawn_state :=
  match ev with
  | CallerStep i => caller_step i s
  | ThreadExit w => thread_exit w s
  end.

Definition spawn_run (evs : list spawn_event) : spawn_state :=
  fold_left spawn_step evs spawn_init.

(** Number of live threads among those created. *)
Definition live_threads (s : spawn_state) : nat :=
  length (filter (fun w => match status s w with Running => true | _ => false end)
                 (seq 0 (created s))).

(** ** Vocabulary of the statements *)

(** The state in which the loop of [add_chunk] starts. *)
Definition add_chunk_data (chunk : bytes) (s : manager) : bytes :=
  (if now s - last_chunk_time s >? milliseconds 150
   then [] else inner_chunk_buffer s) ++ chunk.

(** An item can be played when its conversion succeeds and the callback
    returns normally on the converted bytes. *)
Definition playable (s : manager) (item : bytes * Z) (c : bytes) : Prop :=
  upsample_chunk_to_output_sample_rate (output_sample_rate s) (fst item) (snd item)
  = Ok c /\
  play_raw_audio_callback s c (output_sample_rate s) = Ok tt.

(** An item that can be converted and that the callback accepts. *)
Definition playable_item (s : manager) (item : bytes * Z) : Prop :=
  playable s item (fst (converted s item)).

(** What the accumulator keeps true of the worker: either no thread is
    alive and nothing is queued, or a thread is at its loop test with the
    stop flag down. *)
Definition idle_or_ready (s : manager) : Prop :=
  (is_alive s = false /\ audio_queue s = []) \/
  (audio_thread s = Some AtLoopTest /\ stop_audio_thread s = false).

(** Every queued item is a whole frame at its own rate. *)
Definition whole_frames (q : list (bytes * Z)) : Prop :=
  Forall (fun item => len (fst item) = chunk_size_bytes (snd item)) q.

(** Two states of the same manager object as far as its construction
    parameters go. *)
Definition same_config (s s' : manager) : Prop :=
  output_sample_rate s' = output_sample_rate s /\
  play_raw_audio_callback s' = play_raw_audio_callback s /\
  sleep_time_between_chunks_seconds s' = sleep_time_between_chunks_seconds s.

(** The worker is inside its loop: there is a thread, and it has not
    left the [while] loop. *)
Definition in_loop (s : manager) : Prop :=
  match audio_thread s with
  | None | Some (AtReturn _) | Some (Exited _) => False
  | Some _ => True
  end.

(** Nothing is stranded: a worker is in its loop, or there is nothing in
    the queue. *)
Definition serviced (s : manager) : Prop :=
  in_loop s \/ audio_queue s = [].

(** The manager in normal operation: the stop flag is down, and nothing
    dequeued or queued is going to fail. *)
Definition healthy (s : manager) : Prop :=
  stop_audio_thread s = false /\
  Forall (fun x => play_raw_audio_callback s (fst x) (snd x) = Ok tt) (in_flight s) /\
  Forall (playable_item s) (audio_queue s).

(** What an action of a schedule adds to the queue. *)
Definition added (a : action) (s s' : manager) : list (bytes * Z) :=
  match a with Call _ _ => appended s s' | _ => [] end.

(** The worker is at the loop test, or out of its loop, or waiting on an
    empty queue. *)
Definition at_rest (s : manager) : Prop :=
  audio_thread s = Some AtLoopTest \/
  ~ in_loop s \/
  (audio_thread s = Some AtGet /\ audio_queue s = []).

Definition comes_to_rest (s : manager) : Prop :=
  exists n : nat, at_rest (worker_steps n s).

(** Steps a thread needs at most to notice a raised stop flag and exit. *)
Definition steps_to_exit (s : manager) : nat :=
  match audio_thread s with
  | None | Some (Exited _) => 0
  | Some (AtReturn _) => 1
  | Some AtLoopTest | Some (AtStopTest _) => 2
  | Some (AtWaitIfPaused _) | Some (AtSleep _) => 3
  | Some AtGet | Some (AtPlay _) => 4
  end.

(** What the callback will have received once a stopping thread is gone:
    only a chunk already past the stop test is still to come. *)
Definition played_after_stop (s : manager) : list (bytes * Z) :=
  played s ++
  match audio_thread s with
  | Some (AtPlay c) => [(c, output_sample_rate s)]
  | _ => []
  end.

Definition in_critical (pc : caller_pc) : bool :=
  match pc with
  | AtSecondCheck | AtThreadStart | AtRelease => true
  | _ => false
  end.

(** The invariant of the protocol: only the holder of the lock is past
    the acquisition; a running thread is the one [self.audio_thread]
    designates; a thread created and not yet started is that one too, and
    its creator is about to start it. *)
Record spawn_inv (s : spawn_state) : Prop := {
  inv_lock :
    forall i, in_critical (callers s i) = true -> thread_lock s = Some i;
  inv_running :
    forall w, status s w = Running -> current s = Some w;
  inv_unstarted :
    forall w, (w < created s)%nat -> status s w = Unstarted ->
              current s = Some w /\ exists i, callers s i = AtThreadStart
}.

(** The worker has no chunk past the pause gate: it is not between the
    end of [_wait_if_paused] and the callback. *)
Definition before_gate (s : manager) : Prop :=
  match audio_thread s with
  | Some (AtStopTest _) | Some (AtPlay _) => False
  | _ => True
  end.

(** Thread objects are created one after the other: [self.audio_thread]
    is the last one created, and every other one has finished. *)
Definition threads_in_sequence (s : spawn_state) : Prop :=
  (forall w, current s = Some w -> S w = created s) /\
  (forall w, (w < created s)%nat -> current s <> Some w -> status s w = Finished).

(** As long as no playback thread has ended: a caller that is about to
    start a thread has stored it, and a caller about to release the lock
    leaves a running thread. *)
Definition worker_kept (s : spawn_state) : Prop :=
  (forall w, status s w <> Finished) /\
  (forall i, callers s i = AtRelease -> current_alive s = true) /\
  (forall i, callers s i = AtThreadStart -> exists w, current s = Some w).

(** * Properties *)

(** ** Sample-rate conversion *)

Lemma np_frombuffer_tobytes (samples : list int16) :
  np_frombuffer_int16 (np_tobytes samples) = Ok samples.
Proof.
  induction samples as [|[lo hi] samples IH]; [reflexivity|].
  change (np_tobytes ((lo, hi) :: samples)) with (lo :: hi :: np_tobytes samples).
  cbn [np_frombuffer_int16]. rewrite IH. reflexivity.
Qed.

Lemma np_frombuffer_inv (chunk : bytes) :
  forall samples, np_frombuffer_int16 chunk = Ok samples ->
                  chunk = np_tobytes samples.
Proof.
  induction chunk as [chunk IH] using (well_founded_induction
    (Wf_nat.well_founded_ltof _ (@length byte))).
  destruct chunk as [|lo [|hi rest]]; simpl; intros samples H.
  - inversion H. reflexivity.
  - discriminate.
  - destruct (np_frombuffer_int16 rest) as [rs|] eqn:E; simpl in H; [|discriminate].
    inversion H; subst. simpl. f_equal. f_equal.
    apply IH; [unfold ltof; simpl; lia | exact E].
Qed.

Lemma np_frombuffer_even (chunk : bytes) :
  Nat.Even (length chunk) -> exists samples, np_frombuffer_int16 chunk = Ok samples.
Proof.
  induction chunk as [chunk IH] using (well_founded_induction
    (Wf_nat.well_founded_ltof _ (@length byte))).
  destruct chunk as [|lo [|hi rest]]; simpl; intros [k Hk].
  - eexists; reflexivity.
  - lia.
  - destruct (IH rest) as [rs Hrs]; [unfold ltof; simpl; lia | exists (k - 1)%nat; lia |].
    rewrite Hrs. eexists; reflexivity.
Qed.

Lemma np_frombuffer_odd (chunk : bytes) :
  Nat.Odd (length chunk) -> np_frombuffer_int16 chunk = Raise ValueError.
Proof.
  induction chunk as [chunk IH] using (well_founded_induction
    (Wf_nat.well_founded_ltof _ (@length byte))).
  destruct chunk as [|lo [|hi rest]]; simpl; intros [k Hk].
  - lia.
  - reflexivity.
  - rewrite IH; [reflexivity | unfold ltof; simpl; lia | exists (k - 1)%nat; lia].
Qed.

Lemma np_tobytes_length (samples : list int16) :
  length (np_tobytes samples) = (2 * length samples)%nat.
Proof.
  induction samples as [|s samples IH]; [reflexivity|].
  change (np_tobytes (s :: samples)) with (fst s :: snd s :: np_tobytes samples).
  cbn [length]. rewrite IH. lia.
Qed.

Lemma np_repeat_length (samples : list int16) (n : Z) :
  length (np_repeat samples n) = (Z.to_nat n * length samples)%nat.
Proof.
  unfold np_repeat.
  induction samples as [|s samples IH]; simpl; [lia|].
  rewrite length_app, repeat_length, IH. lia.
Qed.

(** Output sample [i] is input sample [i / n]. *)
Lemma np_repeat_nth (samples : list int16) (n : Z) (i : nat) :
  0 < n ->
  nth_error (np_repeat samples n) i = nth_error samples (i / Z.to_nat n).
Proof.
  intros Hn. unfold np_repeat.
  assert (Hk : (0 < Z.to_nat n)%nat) by lia.
  generalize dependent (Z.to_nat n). intros k Hk. clear Hn n.
  revert i.
  induction samples as [|s samples IH]; intros i; simpl.
  - destruct i, (_ / k)%nat; reflexivity.
  - destruct (Nat.lt_ge_cases i k) as [Hlt|Hge].
    + rewrite nth_error_app1 by (rewrite repeat_length; exact Hlt).
      rewrite (Nat.div_small i k Hlt). simpl.
      apply nth_error_repeat. exact Hlt.
    + rewrite nth_error_app2 by (rewrite repeat_length; exact Hge).
      rewrite repeat_length, IH.
      replace i with ((i - k) + 1 * k)%nat at 2 by lia.
      rewrite Nat.div_add by lia.
      replace ((i - k) / k + 1)%nat with (S ((i - k) / k)) by lia.
      reflexivity.
Qed.

Lemma upsample_same_rate (out : Z) (chunk : bytes) :
  upsample_chunk_to_output_sample_rate out chunk out = Ok chunk.
Proof.
  unfold upsample_chunk_to_output_sample_rate. rewrite Z.eqb_refl. reflexivity.
Qed.

Lemma upsample_integer_ratio (out : Z) (chunk : bytes) (rate : Z) (samples : list int16) :
  rate <> out -> rate <> 0 -> out mod rate = 0 -> 1 < out / rate ->
  np_frombuffer_int16 chunk = Ok samples ->
  upsample_chunk_to_output_sample_rate out chunk rate
  = Ok (np_tobytes (np_repeat samples (out / rate))).
Proof.
  intros Hne H0 Hmod Hratio Hs.
  unfold upsample_chunk_to_output_sample_rate, py_floordiv, py_mod.
  destruct (Z.eqb_spec rate out); [contradiction|].
  destruct (Z.eqb_spec rate 0); [contradiction|].
  cbn [bind]. rewrite Hmod. cbn [Z.eqb negb orb].
  destruct (Z.leb_spec (out / rate) 1); [lia|].
  rewrite Hs. reflexivity.
Qed.

Lemma upsample_fallback (out : Z) (chunk : bytes) (rate : Z) :
  rate <> out -> rate <> 0 -> out mod rate <> 0 \/ out / rate <= 1 ->
  upsample_chunk_to_output_sample_rate out chunk rate = _upsample chunk rate out.
Proof.
  intros Hne H0 Hcase.
  unfold upsample_chunk_to_output_sample_rate, py_floordiv, py_mod.
  destruct (Z.eqb_spec rate out); [contradiction|].
  destruct (Z.eqb_spec rate 0); [contradiction|].
  cbn [bind].
  destruct Hcase as [Hmod|Hratio].
  - destruct (Z.eqb_spec (out mod rate) 0); [contradiction|]. reflexivity.
  - destruct (Z.leb_spec (out / rate) 1); [|lia].
    rewrite orb_true_r. reflexivity.
Qed.

Lemma upsample_integer_ratio_raise (out : Z) (chunk : bytes) (rate : Z) (e : exn) :
  rate <> out -> rate <> 0 -> out mod rate = 0 -> 1 < out / rate ->
  np_frombuffer_int16 chunk = Raise e ->
  upsample_chunk_to_output_sample_rate out chunk rate = Raise e.
Proof.
  intros Hne H0 Hmod Hratio Hs.
  unfold upsample_chunk_to_output_sample_rate, py_floordiv, py_mod.
  destruct (Z.eqb_spec rate out); [contradiction|].
  destruct (Z.eqb_spec rate 0); [contradiction|].
  cbn [bind]. rewrite Hmod. cbn [Z.eqb negb orb].
  destruct (Z.leb_spec (out / rate) 1); [lia|].
  rewrite Hs. reflexivity.
Qed.

(** C2 (amended): the conversion is the identity when the rates are
    equal. Otherwise a source rate of zero is a division by zero. When
    the output rate is an integer multiple (ratio > 1) of a non-zero
    source rate, a frame made of whole 16-bit samples comes back with
    output sample [i] equal to input sample [i / ratio], so that every
    sample appears [ratio] times in order and the sample count is
    multiplied by [ratio], and a frame of odd length is refused by
    [np.frombuffer] with a [ValueError]. For every other non-zero source
    rate, a lower output rate included, the result is that of the
    fallback [_upsample]. *)
Theorem upsample_chunk_cases (out : Z) (chunk : bytes) (rate : Z) :
  (rate = out ->
   upsample_chunk_to_output_sample_rate out chunk rate = Ok chunk) /\
  (rate <> out -> rate = 0 ->
   upsample_chunk_to_output_sample_rate out chunk rate = Raise ZeroDivisionError) /\
  (rate <> out -> rate <> 0 -> out mod rate = 0 -> 1 < out / rate ->
   Nat.Even (length chunk) ->
   exists samples upsampled_samples,
     np_frombuffer_int16 chunk = Ok samples /\
     upsample_chunk_to_output_sample_rate out chunk rate
     = Ok (np_tobytes upsampled_samples) /\
     length upsampled_samples = (Z.to_nat (out / rate) * length samples)%nat /\
     forall i : nat,
       nth_error upsampled_samples i
       = nth_error samples (i / Z.to_nat (out / rate))) /\
  (rate <> out -> rate <> 0 -> out mod rate = 0 -> 1 < out / rate ->
   Nat.Odd (length chunk) ->
   upsample_chunk_to_output_sample_rate out chunk rate = Raise ValueError) /\
  (rate <> out -> rate <> 0 -> out mod rate <> 0 \/ out / rate <= 1 ->
   upsample_chunk_to_output_sample_rate out chunk rate = _upsample chunk rate out).
Proof.
  split; [|split; [|split; [|split]]].
  - intros ->. apply upsample_same_rate.
  - intros Hne ->. unfold upsample_chunk_to_output_sample_rate, py_floordiv.
    destruct (Z.eqb_spec 0 out); [contradiction | reflexivity].
  - intros Hne H0 Hmod Hratio Heven.
    destruct (np_frombuffer_even chunk Heven) as [samples Hs].
    exists samples, (np_repeat samples (out / rate)).
    split; [exact Hs|]. split; [|split].
    + apply upsample_integer_ratio; assumption.
    + apply np_repeat_length.
    + intros i. apply np_repeat_nth. lia.
  - intros Hne H0 Hmod Hratio Hodd.
    apply upsample_integer_ratio_raise; try assumption.
    apply np_frombuffer_odd. exact Hodd.
  - apply upsample_fallback.
Qed.

(** ** Pause gate *)

Lemma set_pause_until_timestamp_same (s : manager) :
  set_pause_until_timestamp (pause_until_timestamp s) s = s.
Proof. destruct s; reflexivity. Qed.

Lemma pause_for_nonpositive (d : Z) (s : manager) :
  d <= 0 -> pause_for d s = s.
Proof.
  intros Hd. unfold pause_for.
  destruct (Z.leb_spec d 0); [reflexivity | lia].
Qed.

Lemma pause_for_positive (d : Z) (s : manager) :
  0 < d ->
  pause_for d s
  = set_pause_until_timestamp (Z.max (pause_until_timestamp s) (now s + d)) s.
Proof.
  intros Hd. unfold pause_for.
  destruct (Z.leb_spec d 0); [lia|].
  destruct (Z.gtb_spec (now s + d) (pause_until_timestamp s)).
  - rewrite Z.max_r by lia. reflexivity.
  - rewrite Z.max_l by lia. symmetry. apply set_pause_until_timestamp_same.
Qed.

Lemma pause_for_deadline (d : Z) (s : manager) :
  pause_until_timestamp (pause_for d s)
  = if d <=? 0 then pause_until_timestamp s
    else Z.max (pause_until_timestamp s) (now s + d).
Proof.
  destruct (Z.leb_spec d 0).
  - rewrite pause_for_nonpositive by assumption. reflexivity.
  - rewrite pause_for_positive by assumption. reflexivity.
Qed.

Lemma pause_for_now (d : Z) (s : manager) : now (pause_for d s) = now s.
Proof.
  unfold pause_for.
  destruct (d <=? 0); [reflexivity|].
  destruct (_ >? _); reflexivity.
Qed.

(** C1 (amended): [pause_for d] with [d <= 0] changes nothing; with
    [d > 0] it sets the deadline to the maximum of the current deadline
    and [now + d] and touches nothing else; no call decreases the
    deadline. For a call [pause_for d1] at a moment when no pause is
    pending, followed [e] microseconds later by [pause_for d2], the
    deadline is the later of the two requested ones: counted from the
    first call the pause lasts [max d1 (e + d2)], which is [max d1 d2]
    when the two calls are made at the same instant, is never shorter
    than [max d1 d2], and is shorter than [d1 + d2] whenever the second
    call is made before the first deadline has elapsed. *)
Theorem pause_for_combines_by_max (s : manager) (d1 d2 e : Z) :
  (d1 <= 0 -> pause_for d1 s = s) /\
  (0 < d1 ->
   pause_for d1 s
   = set_pause_until_timestamp (Z.max (pause_until_timestamp s) (now s + d1)) s) /\
  pause_until_timestamp s <= pause_until_timestamp (pause_for d1 s) /\
  (0 < d1 -> 0 < d2 -> 0 <= e -> pause_until_timestamp s <= now s ->
   let s2 := pause_for d2 (time_sleep e (pause_for d1 s)) in
   pause_until_timestamp s2 - now s = Z.max d1 (e + d2) /\
   (e = 0 -> pause_until_timestamp s2 - now s = Z.max d1 d2) /\
   Z.max d1 d2 <= pause_until_timestamp s2 - now s /\
   (e < d1 -> pause_until_timestamp s2 - now s < d1 + d2)).
Proof.
  split; [apply pause_for_nonpositive|].
  split; [apply pause_for_positive|].
  split.
  - rewrite pause_for_deadline. destruct (d1 <=? 0); lia.
  - intros H1 H2 He Hidle s2.
    assert (Hs2 : pause_until_timestamp s2 = Z.max (now s + d1) (now s + e + d2)).
    { unfold s2. rewrite pause_for_deadline.
      destruct (Z.leb_spec d2 0); [lia|].
      unfold time_sleep. cbn [pause_until_timestamp now set_now].
      rewrite pause_for_deadline, pause_for_now.
      destruct (Z.leb_spec d1 0); lia. }
    rewrite Hs2. repeat split; intros; lia.
Qed.

(** ** Accumulator *)

Lemma slice_to_nonneg (A : Type) (l : list A) (k : Z) :
  0 <= k -> slice_to l k = firstn (Z.to_nat k) l.
Proof.
  intros Hk. unfold slice_to, py_bound.
  destruct (Z.ltb_spec k 0); [lia | reflexivity].
Qed.

Lemma slice_from_nonneg (A : Type) (l : list A) (k : Z) :
  0 <= k -> slice_from l k = skipn (Z.to_nat k) l.
Proof.
  intros Hk. unfold slice_from, py_bound.
  destruct (Z.ltb_spec k 0); [lia | reflexivity].
Qed.

Lemma add_chunk_inner_buffer (f : bytes) (r : Z) (s : manager) :
  inner_chunk_buffer (add_chunk_inner f r s) = inner_chunk_buffer s.
Proof. unfold add_chunk_inner. destruct (is_alive _); reflexivity. Qed.

Lemma add_chunk_inner_set_buffer (f b : bytes) (r : Z) (s : manager) :
  add_chunk_inner f r (set_inner_chunk_buffer b s)
  = set_inner_chunk_buffer b (add_chunk_inner f r s).
Proof.
  unfold add_chunk_inner, is_alive. cbn.
  destruct (audio_thread s) as [[]|]; reflexivity.
Qed.

Lemma enqueue_all_set_buffer (frames : list bytes) (b : bytes) (r : Z) (s : manager) :
  enqueue_all frames r (set_inner_chunk_buffer b s)
  = set_inner_chunk_buffer b (enqueue_all frames r s).
Proof.
  revert s. induction frames as [|f frames IH]; intros s; [reflexivity|].
  cbn [enqueue_all fold_left]. rewrite add_chunk_inner_set_buffer. apply IH.
Qed.

Lemma add_chunk_inner_queue (f : bytes) (r : Z) (s : manager) :
  audio_queue (add_chunk_inner f r s) = audio_queue s ++ [(f, r)].
Proof. unfold add_chunk_inner. destruct (is_alive _); reflexivity. Qed.

Lemma add_chunk_inner_now (f : bytes) (r : Z) (s : manager) :
  now (add_chunk_inner f r s) = now s.
Proof. unfold add_chunk_inner. destruct (is_alive _); reflexivity. Qed.

Lemma add_chunk_inner_last_chunk_time (f : bytes) (r : Z) (s : manager) :
  last_chunk_time (add_chunk_inner f r s) = now s.
Proof. unfold add_chunk_inner. destruct (is_alive _); reflexivity. Qed.

Lemma add_chunk_inner_alive (f : bytes) (r : Z) (s : manager) :
  is_alive (add_chunk_inner f r s) = true.
Proof.
  unfold add_chunk_inner.
  destruct (is_alive (set_last_chunk_time _ _)) eqn:E; [exact E | reflexivity].
Qed.

Lemma enqueue_all_queue (frames : list bytes) (r : Z) (s : manager) :
  audio_queue (enqueue_all frames r s)
  = audio_queue s ++ map (fun f => (f, r)) frames.
Proof.
  revert s. induction frames as [|f frames IH]; intros s; cbn [enqueue_all fold_left map].
  - rewrite app_nil_r. reflexivity.
  - unfold enqueue_all in IH. rewrite IH, add_chunk_inner_queue, <- app_assoc.
    reflexivity.
Qed.

Lemma enqueue_all_now (frames : list bytes) (r : Z) (s : manager) :
  now (enqueue_all frames r s) = now s.
Proof.
  revert s. induction frames as [|f frames IH]; intros s; cbn [enqueue_all fold_left].
  - reflexivity.
  - unfold enqueue_all in IH. rewrite IH. apply add_chunk_inner_now.
Qed.

Lemma enqueue_all_last_chunk_time (frames : list bytes) (r : Z) (s : manager) :
  last_chunk_time s = now s ->
  last_chunk_time (enqueue_all frames r s) = now s.
Proof.
  revert s. induction frames as [|f frames IH]; intros s Hs; cbn [enqueue_all fold_left].
  - exact Hs.
  - unfold enqueue_all in IH. rewrite IH.
    + apply add_chunk_inner_now.
    + rewrite add_chunk_inner_last_chunk_time, add_chunk_inner_now. reflexivity.
Qed.

(** With a positive frame size the loop returns after at most one
    iteration per buffered byte, having cut the buffer into whole frames
    and a shorter remainder. *)
Lemma add_chunk_loop_positive (size rate : Z) (fuel : nat) :
  0 < size ->
  forall s : manager,
    (length (inner_chunk_buffer s) <= fuel)%nat ->
    exists frames rest,
      inner_chunk_buffer s = concat frames ++ rest /\
      Forall (fun f => len f = size) frames /\
      len rest < size /\
      add_chunk_loop fuel size rate s
      = Returned (set_inner_chunk_buffer rest (enqueue_all frames rate s)).
Proof.
  intros Hsize. induction fuel as [|fuel IH]; intros s Hfuel.
  - exists [], (inner_chunk_buffer s). cbn [concat app add_chunk_loop].
    assert (Hlen : len (inner_chunk_buffer s) = 0) by (unfold len; lia).
    rewrite Hlen.
    destruct (Z.geb_spec 0 size); [lia|].
    repeat split; [constructor | lia |].
    destruct s; reflexivity.
  - cbn [add_chunk_loop].
    destruct (Z.geb_spec (len (inner_chunk_buffer s)) size) as [Hge|Hlt].
    + rewrite add_chunk_inner_buffer.
      rewrite slice_to_nonneg, slice_from_nonneg by lia.
      set (n := Z.to_nat size).
      set (f := firstn n (inner_chunk_buffer s)).
      set (b := skipn n (inner_chunk_buffer s)).
      assert (Hn : (0 < n <= length (inner_chunk_buffer s))%nat)
        by (unfold len in Hge; lia).
      destruct (IH (set_inner_chunk_buffer b (add_chunk_inner f rate s)))
        as (frames & rest & Hcut & Hall & Hrest & Hrun).
      { cbn. unfold b. rewrite length_skipn. lia. }
      exists (f :: frames), rest.
      cbn [inner_chunk_buffer set_inner_chunk_buffer] in Hcut.
      split; [|split; [|split]].
      * cbn [concat]. rewrite <- app_assoc, <- Hcut.
        unfold f, b. symmetry. apply firstn_skipn.
      * constructor; [|exact Hall].
        unfold f, len. rewrite length_firstn. lia.
      * exact Hrest.
      * rewrite Hrun, enqueue_all_set_buffer.
        reflexivity.
    + exists [], (inner_chunk_buffer s). cbn [concat app].
      repeat split; [constructor | lia |].
      destruct s; reflexivity.
Qed.

Lemma add_chunk_positive (chunk : bytes) (rate : Z) (s : manager) (fuel : nat) :
  0 < chunk_size_bytes rate ->
  (length (inner_chunk_buffer s) + length chunk <= fuel)%nat ->
  exists frames rest,
    add_chunk_data chunk s = concat frames ++ rest /\
    Forall (fun f => len f = chunk_size_bytes rate) frames /\
    len rest < chunk_size_bytes rate /\
    add_chunk fuel chunk rate s
    = Returned (set_inner_chunk_buffer rest
                  (enqueue_all frames rate (set_last_chunk_time (now s) s))).
Proof.
  intros Hsize Hfuel. unfold add_chunk, add_chunk_data.
  set (start := set_inner_chunk_buffer _ _).
  destruct (add_chunk_loop_positive _ rate fuel Hsize start)
    as (frames & rest & Hcut & Hall & Hrest & Hrun).
  { unfold start. destruct (_ >? _); cbn; rewrite ?length_app; cbn; lia. }
  exists frames, rest. rewrite Hrun.
  split; [|split; [|split]]; try assumption.
  - rewrite <- Hcut. unfold start. destruct (_ >? _); reflexivity.
  - f_equal.
    replace start with (set_inner_chunk_buffer (inner_chunk_buffer start)
                          (set_last_chunk_time (now s) s))
      by (unfold start; destruct (_ >? _); reflexivity).
    rewrite enqueue_all_set_buffer. reflexivity.
Qed.

Lemma add_chunk_loop_clock (size rate : Z) (fuel : nat) :
  forall s s' : manager,
    last_chunk_time s = now s ->
    add_chunk_loop fuel size rate s = Returned s' ->
    last_chunk_time s' = now s' /\ now s' = now s.
Proof.
  induction fuel as [|fuel IH]; intros s s' Hs; cbn [add_chunk_loop];
    destruct (_ >=? _); try discriminate.
  - intros [= <-]. split; [exact Hs | reflexivity].
  - intros Hrun. apply IH in Hrun.
    + cbn [now set_inner_chunk_buffer] in Hrun.
      rewrite add_chunk_inner_now in Hrun. exact Hrun.
    + cbn. rewrite add_chunk_inner_last_chunk_time, add_chunk_inner_now.
      reflexivity.
  - intros [= <-]. split; [exact Hs | reflexivity].
Qed.

Lemma add_chunk_returned_clock (fuel : nat) (chunk : bytes) (rate : Z) (s s' : manager) :
  add_chunk fuel chunk rate s = Returned s' ->
  last_chunk_time s' = now s' /\ now s' = now s.
Proof.
  unfold add_chunk. intros Hrun.
  apply add_chunk_loop_clock in Hrun.
  - destruct Hrun as [H1 H2]. split; [exact H1|].
    rewrite H2. destruct (_ >? _); reflexivity.
  - destruct (_ >? _); reflexivity.
Qed.

(** Without a positive frame size the test of the loop never fails:
    every iteration enqueues one more item. *)
Lemma add_chunk_loop_nonpositive (size rate : Z) (fuel : nat) :
  size <= 0 ->
  forall s : manager,
    exists s' : manager,
      add_chunk_loop fuel size rate s = StillRunning s' /\
      length (audio_queue s') = (length (audio_queue s) + fuel)%nat.
Proof.
  intros Hsize. induction fuel as [|fuel IH]; intros s; cbn [add_chunk_loop].
  - destruct (Z.geb_spec (len (inner_chunk_buffer s)) size) as [_|Hlt];
      [|unfold len in Hlt; lia].
    exists s. split; [reflexivity | lia].
  - destruct (Z.geb_spec (len (inner_chunk_buffer s)) size) as [_|Hlt];
      [|unfold len in Hlt; lia].
    match goal with |- context [add_chunk_loop fuel size rate ?x] =>
      destruct (IH x) as (s' & Hrun & Hq) end.
    exists s'. split; [exact Hrun|].
    rewrite Hq. cbn [audio_queue set_inner_chunk_buffer].
    rewrite add_chunk_inner_queue, length_app. cbn. lia.
Qed.

(** C4: for a sample rate whose frame size is zero or negative the call
    is not rejected. However many iterations of its loop are followed,
    [add_chunk] has not returned, and it has enqueued one item per
    iteration. *)
Theorem add_chunk_degenerate_rate_never_returns
    (chunk : bytes) (rate : Z) (s : manager) (fuel : nat) :
  chunk_size_bytes rate <= 0 ->
  exists s' : manager,
    add_chunk fuel chunk rate s = StillRunning s' /\
    length (audio_queue s') = (length (audio_queue s) + fuel)%nat.
Proof.
  intros Hsize. unfold add_chunk.
  match goal with |- context [add_chunk_loop fuel _ rate ?x] =>
    destruct (add_chunk_loop_nonpositive _ rate fuel Hsize x) as (s' & Hrun & Hq) end.
  exists s'. split; [exact Hrun|].
  rewrite Hq. destruct (_ >? _); reflexivity.
Qed.

(** C5: with a positive frame size [add_chunk] returns. The bytes it
    works on are the chunk, preceded by the buffered residue unless more
    than 150 ms have passed since the last activity; they are cut, from
    the front, into frames of exactly [chunk_size_bytes sample_rate]
    bytes, each appended to the queue with the sample rate, and what
    remains in the buffer is shorter than one frame. The last-activity
    time is the time of the call. The frame size is two bytes per sample
    times a tenth of the rate, without its fractional part; it is
    positive from rate 5 on. *)
Theorem add_chunk_cuts_frames
    (chunk : bytes) (sample_rate : Z) (s : manager) (fuel : nat) :
  0 < chunk_size_bytes sample_rate ->
  (length (inner_chunk_buffer s) + length chunk <= fuel)%nat ->
  exists (frames : list bytes) (s' : manager),
    add_chunk fuel chunk sample_rate s = Returned s' /\
    (if now s - last_chunk_time s >? milliseconds 150
     then [] else inner_chunk_buffer s) ++ chunk
    = concat frames ++ inner_chunk_buffer s' /\
    Forall (fun f => len f = chunk_size_bytes sample_rate) frames /\
    len (inner_chunk_buffer s') < chunk_size_bytes sample_rate /\
    audio_queue s' = audio_queue s ++ map (fun f => (f, sample_rate)) frames /\
    last_chunk_time s' = now s /\
    chunk_size_bytes sample_rate = Z.quot (2 * sample_rate) 10 /\
    10 * chunk_size_bytes sample_rate <= 2 * sample_rate
    < 10 * chunk_size_bytes sample_rate + 10 /\
    5 <= sample_rate.
Proof.
  intros Hsize Hfuel.
  destruct (add_chunk_positive chunk sample_rate s fuel Hsize Hfuel)
    as (frames & rest & Hcut & Hall & Hrest & Hrun).
  assert (Hquot : chunk_size_bytes sample_rate = Z.quot (2 * sample_rate) 10)
    by reflexivity.
  assert (Hrate : 0 <= 2 * sample_rate).
  { destruct (Z.le_gt_cases 0 (2 * sample_rate)) as [H|H]; [exact H|].
    pose proof (Z.quot_opp_l (- (2 * sample_rate)) 10 ltac:(lia)) as Hopp.
    rewrite Z.opp_involutive in Hopp.
    pose proof (Z.quot_pos (- (2 * sample_rate)) 10 ltac:(lia) ltac:(lia)).
    lia. }
  assert (Hbounds : 10 * chunk_size_bytes sample_rate <= 2 * sample_rate
                    < 10 * chunk_size_bytes sample_rate + 10).
  { rewrite Hquot, Z.quot_div_nonneg by lia.
    pose proof (Z_div_mod_eq_full (2 * sample_rate) 10).
    pose proof (Z.mod_pos_bound (2 * sample_rate) 10 ltac:(lia)). lia. }
  exists frames. eexists. split; [exact Hrun|].
  cbn [inner_chunk_buffer set_inner_chunk_buffer audio_queue last_chunk_time].
  split; [exact Hcut|]. split; [exact Hall|]. split; [exact Hrest|].
  split; [rewrite enqueue_all_queue; reflexivity|].
  split; [rewrite enqueue_all_last_chunk_time; reflexivity|].
  split; [exact Hquot|]. split; [exact Hbounds|]. lia.
Qed.

(** C10: the buffer is not keyed by sample rate. When a call for rate
    [r1] has returned leaving a residue and the next call, for rate [r2],
    comes at most 150 ms later, the residue is put in front of the new
    chunk, the whole is cut with the frame size of [r2], and the frames
    are enqueued with rate [r2]. *)
Theorem add_chunk_residue_crosses_rates
    (c1 c2 : bytes) (r1 r2 : Z) (s s1 : manager) (e : Z) (fuel1 fuel2 : nat) :
  add_chunk fuel1 c1 r1 s = Returned s1 ->
  0 <= e <= milliseconds 150 ->
  0 < chunk_size_bytes r2 ->
  (length (inner_chunk_buffer s1) + length c2 <= fuel2)%nat ->
  exists (frames : list bytes) (s2 : manager),
    add_chunk fuel2 c2 r2 (time_sleep e s1) = Returned s2 /\
    inner_chunk_buffer s1 ++ c2 = concat frames ++ inner_chunk_buffer s2 /\
    Forall (fun f => len f = chunk_size_bytes r2) frames /\
    len (inner_chunk_buffer s2) < chunk_size_bytes r2 /\
    audio_queue s2 = audio_queue s1 ++ map (fun f => (f, r2)) frames.
Proof.
  intros Hfirst He Hsize Hfuel.
  destruct (add_chunk_returned_clock _ _ _ _ _ Hfirst) as [Hlast _].
  destruct (add_chunk_positive c2 r2 (time_sleep e s1) fuel2 Hsize Hfuel)
    as (frames & rest & Hcut & Hall & Hrest & Hrun).
  exists frames. eexists. split; [exact Hrun|].
  cbn [inner_chunk_buffer set_inner_chunk_buffer audio_queue].
  repeat split; try assumption.
  - rewrite <- Hcut. unfold add_chunk_data, time_sleep.
    cbn [now last_chunk_time inner_chunk_buffer set_now].
    destruct (Z.gtb_spec (now s1 + e - last_chunk_time s1) (milliseconds 150));
      [lia | reflexivity].
  - rewrite enqueue_all_queue. reflexivity.
Qed.

(** ** Playback worker *)

Lemma worker_steps_add (n m : nat) (s : manager) :
  worker_steps (n + m) s = worker_steps m (worker_steps n s).
Proof.
  revert s. induction n as [|n IH]; intros s; [reflexivity|].
  cbn [Nat.add worker_steps]. apply IH.
Qed.

Lemma goto_set_now_same (pc : worker_pc) (s : manager) :
  goto pc s = goto pc (set_now (now s) s).
Proof. destruct s; reflexivity. Qed.

(** *** The steps of the worker, one control point at a time *)

Lemma worker_step_loop_test (s : manager) :
  audio_thread s = Some AtLoopTest ->
  worker_step s
  = if stop_audio_thread s then leave_loop None s else goto AtGet s.
Proof. intros Hpc. unfold worker_step. rewrite Hpc. reflexivity. Qed.

Lemma worker_step_get_item (s : manager) (chunk : bytes) (rate : Z)
    (rest : list (bytes * Z)) :
  audio_thread s = Some AtGet ->
  audio_queue s = (chunk, rate) :: rest ->
  worker_step s
  = match upsample_chunk_to_output_sample_rate (output_sample_rate s) chunk rate with
    | Ok c => goto (AtWaitIfPaused c) (set_audio_queue rest s)
    | Raise e => on_exception e (set_audio_queue rest s)
    end.
Proof. intros Hpc Hq. unfold worker_step. rewrite Hpc, Hq. reflexivity. Qed.

Lemma worker_step_get_empty (s : manager) :
  audio_thread s = Some AtGet ->
  audio_queue s = [] ->
  worker_step s
  = if negb (last_chunk_time s =? 0)
       && (now s + seconds 1 - last_chunk_time s >? seconds 10)
    then leave_loop None (time_sleep (seconds 1) s)
    else goto AtLoopTest (time_sleep (seconds 1) s).
Proof. intros Hpc Hq. unfold worker_step. rewrite Hpc, Hq. reflexivity. Qed.

Lemma worker_step_stop_test (s : manager) (c : bytes) :
  audio_thread s = Some (AtStopTest c) ->
  worker_step s
  = if stop_audio_thread s then leave_loop None s else goto (AtPlay c) s.
Proof. intros Hpc. unfold worker_step. rewrite Hpc. reflexivity. Qed.

Lemma worker_step_play (s : manager) (c : bytes) :
  audio_thread s = Some (AtPlay c) ->
  worker_step s
  = let s1 := set_played (played s ++ [(c, output_sample_rate s)]) s in
    match play_raw_audio_callback s c (output_sample_rate s) with
    | Raise e => on_exception e s1
    | Ok _ =>
        if Z.quot (sleep_time_between_chunks_seconds s) 10 <=? 0
        then goto AtLoopTest s1
        else goto (AtSleep (now s + Z.quot (sleep_time_between_chunks_seconds s) 10)) s1
    end.
Proof. intros Hpc. unfold worker_step. rewrite Hpc. reflexivity. Qed.

Lemma worker_step_not_alive (s : manager) :
  is_alive s = false -> worker_step s = s.
Proof.
  unfold is_alive, worker_step.
  destruct (audio_thread s) as [[]|]; try discriminate; reflexivity.
Qed.

Lemma worker_steps_not_alive (n : nat) (s : manager) :
  is_alive s = false -> worker_steps n s = s.
Proof.
  intros H. induction n as [|n IH]; [reflexivity|].
  cbn [worker_steps]. rewrite worker_step_not_alive by exact H. exact IH.
Qed.

(** The wait of [_wait_if_paused] ends: every round sleeps for at least
    one clock unit of what remains of the pause. *)
Lemma wait_if_paused_ends (c : bytes) (m : nat) :
  forall s : manager,
    audio_thread s = Some (AtWaitIfPaused c) ->
    stop_audio_thread s = false ->
    (Z.to_nat (pause_until_timestamp s - now s) <= m)%nat ->
    exists (n : nat) (t : Z),
      now s <= t /\
      worker_steps n s = goto (AtStopTest c) (set_now t s).
Proof.
  induction m as [|m IH]; intros s Hpc Hstop Hm.
  - exists 1%nat, (now s). split; [lia|].
    cbn [worker_steps]. unfold worker_step, _remaining_pause_time.
    rewrite Hpc, Hstop.
    destruct (Z.leb_spec (Z.max (pause_until_timestamp s - now s) 0) 0); [|lia].
    apply goto_set_now_same.
  - destruct (Z.leb_spec (pause_until_timestamp s - now s) 0) as [Hle|Hgt].
    + exists 1%nat, (now s). split; [lia|].
      cbn [worker_steps]. unfold worker_step, _remaining_pause_time.
      rewrite Hpc, Hstop.
      destruct (Z.leb_spec (Z.max (pause_until_timestamp s - now s) 0) 0); [|lia].
      apply goto_set_now_same.
    + set (d := Z.min (Z.max (pause_until_timestamp s - now s) 0) (milliseconds 50)).
      assert (Hd : 1 <= d) by (unfold d, milliseconds; lia).
      assert (Hstep : worker_step s = time_sleep d s).
      { unfold worker_step, _remaining_pause_time. rewrite Hpc, Hstop.
        destruct (Z.leb_spec (Z.max (pause_until_timestamp s - now s) 0) 0); [lia|].
        reflexivity. }
      destruct (IH (time_sleep d s)) as (n & t & Ht & Hrun).
      * exact Hpc.
      * exact Hstop.
      * cbn [time_sleep pause_until_timestamp now set_now]. lia.
      * exists (S n), t. cbn [time_sleep now set_now] in Ht.
        split; [lia|].
        cbn [worker_steps]. rewrite Hstep, Hrun. reflexivity.
Qed.

(** So does the pacing sleep of [_sleep_with_interrupts]. *)
Lemma sleep_with_interrupts_ends (end_time : Z) (m : nat) :
  forall s : manager,
    audio_thread s = Some (AtSleep end_time) ->
    (Z.to_nat (end_time - now s) <= m)%nat ->
    exists (n : nat) (t : Z),
      now s <= t /\
      worker_steps n s = goto AtLoopTest (set_now t s).
Proof.
  induction m as [|m IH]; intros s Hpc Hm.
  - exists 1%nat, (now s). split; [lia|].
    cbn [worker_steps]. unfold worker_step. rewrite Hpc.
    destruct (stop_audio_thread s); [apply goto_set_now_same|].
    destruct (_ >? 0); [apply goto_set_now_same|].
    destruct (Z.leb_spec (end_time - now s) 0); [|lia].
    apply goto_set_now_same.
  - destruct (stop_audio_thread s) eqn:Hstop;
      [|destruct (_remaining_pause_time s >? 0) eqn:Hpause;
        [|destruct (Z.leb_spec (end_time - now s) 0) as [Hle|Hgt]]].
    1-3: exists 1%nat, (now s); (split; [lia|]);
         cbn [worker_steps]; unfold worker_step; rewrite Hpc, Hstop, ?Hpause;
         try (destruct (Z.leb_spec (end_time - now s) 0); [|lia]);
         apply goto_set_now_same.
    set (d := Z.min (end_time - now s) (milliseconds 50)).
    assert (Hd : 1 <= d) by (unfold d, milliseconds; lia).
    assert (Hstep : worker_step s = time_sleep d s).
    { unfold worker_step. rewrite Hpc, Hstop, Hpause.
      destruct (Z.leb_spec (end_time - now s) 0); [lia | reflexivity]. }
    destruct (IH (time_sleep d s)) as (n & t & Ht & Hrun).
    + exact Hpc.
    + cbn [time_sleep now set_now]. lia.
    + exists (S n), t. cbn [time_sleep now set_now] in Ht.
      split; [lia|].
      cbn [worker_steps]. rewrite Hstep, Hrun. reflexivity.
Qed.

(** From the loop test to the callback: the item at the head of the queue
    is dequeued, converted, held while a pause is pending, and handed to
    the callback. *)
Lemma worker_reaches_play (s : manager) (chunk : bytes) (rate : Z)
    (rest : list (bytes * Z)) (c : bytes) :
  audio_thread s = Some AtLoopTest ->
  stop_audio_thread s = false ->
  audio_queue s = (chunk, rate) :: rest ->
  upsample_chunk_to_output_sample_rate (output_sample_rate s) chunk rate = Ok c ->
  exists (n : nat) (t : Z),
    now s <= t /\
    worker_steps n s = goto (AtPlay c) (set_now t (set_audio_queue rest s)).
Proof.
  intros Hpc Hstop Hq Hconv.
  set (s2 := goto (AtWaitIfPaused c) (set_audio_queue rest s)).
  assert (H2 : worker_steps 2 s = s2).
  { cbn [worker_steps]. rewrite (worker_step_loop_test s Hpc), Hstop.
    rewrite (worker_step_get_item (goto AtGet s) chunk rate rest eq_refl Hq).
    cbn [output_sample_rate goto set_audio_thread]. rewrite Hconv.
    reflexivity. }
  destruct (wait_if_paused_ends c
              (Z.to_nat (pause_until_timestamp s2 - now s2)) s2)
    as (n & t & Ht & Hrun); [reflexivity | exact Hstop | lia |].
  exists (2 + n + 1)%nat, t. split; [exact Ht|].
  rewrite !worker_steps_add, H2, Hrun.
  cbn [worker_steps]. rewrite (worker_step_stop_test (goto (AtStopTest c) (set_now t s2)) c eq_refl).
  cbn [stop_audio_thread goto set_audio_thread set_now set_audio_queue s2].
  rewrite Hstop. reflexivity.
Qed.

(** One full round of the loop on a playable item. *)
Lemma worker_plays_head (s : manager) (item : bytes * Z)
    (rest : list (bytes * Z)) (c : bytes) :
  audio_thread s = Some AtLoopTest ->
  stop_audio_thread s = false ->
  audio_queue s = item :: rest ->
  playable s item c ->
  exists (n : nat) (t : Z),
    now s <= t /\
    worker_steps n s
    = goto AtLoopTest
        (set_now t
           (set_played (played s ++ [(c, output_sample_rate s)])
              (set_audio_queue rest s))).
Proof.
  intros Hpc Hstop Hq [Hconv Hsink]. destruct item as [chunk rate].
  destruct (worker_reaches_play s chunk rate rest c Hpc Hstop Hq Hconv)
    as (n1 & t1 & Ht1 & Hrun1).
  set (s1 := goto (AtPlay c) (set_now t1 (set_audio_queue rest s))) in *.
  set (total := Z.quot (sleep_time_between_chunks_seconds s) 10).
  destruct (Z.leb_spec total 0) as [Hle|Hgt].
  - exists (n1 + 1)%nat, t1. split; [exact Ht1|].
    rewrite worker_steps_add, Hrun1. cbn [worker_steps].
    rewrite (worker_step_play s1 c eq_refl).
    cbn [play_raw_audio_callback output_sample_rate sleep_time_between_chunks_seconds
         played now s1 goto set_audio_thread set_now set_audio_queue].
    rewrite Hsink. fold total.
    destruct (Z.leb_spec total 0); [reflexivity | lia].
  - set (s2 := goto (AtSleep (t1 + total))
                 (set_played (played s ++ [(c, output_sample_rate s)])
                    (set_now t1 (set_audio_queue rest s)))).
    assert (H2 : worker_step s1 = s2).
    { rewrite (worker_step_play s1 c eq_refl).
      cbn [play_raw_audio_callback output_sample_rate sleep_time_between_chunks_seconds
           played now s1 goto set_audio_thread set_now set_audio_queue].
      rewrite Hsink. fold total.
      destruct (Z.leb_spec total 0); [lia | reflexivity]. }
    destruct (sleep_with_interrupts_ends (t1 + total)
                (Z.to_nat (t1 + total - now s2)) s2)
      as (n2 & t2 & Ht2 & Hrun2); [reflexivity | lia |].
    exists (n1 + 1 + n2)%nat, t2.
    cbn [now s2 goto set_audio_thread set_played set_now] in Ht2.
    split; [lia|].
    rewrite !worker_steps_add, Hrun1. cbn [worker_steps]. rewrite H2, Hrun2.
    reflexivity.
Qed.

(** The worker empties a queue of playable items, calling the callback
    once per item, in queue order. *)
Lemma worker_drains_queue (cs : list bytes) :
  forall (s : manager),
    audio_thread s = Some AtLoopTest ->
    stop_audio_thread s = false ->
    Forall2 (playable s) (audio_queue s) cs ->
    exists (n : nat) (t : Z),
      now s <= t /\
      worker_steps n s
      = goto AtLoopTest
          (set_now t
             (set_played (played s ++ map (fun c => (c, output_sample_rate s)) cs)
                (set_audio_queue [] s))).
Proof.
  induction cs as [|c cs IH]; intros s Hpc Hstop Hall.
  - inversion Hall as [Hq|]. exists 0%nat, (now s). split; [lia|].
    cbn [worker_steps map]. rewrite app_nil_r.
    destruct s; cbn in *. subst. reflexivity.
  - inversion Hall as [|item c' rest cs' Hitem Hrest Hq Hcs]; subst c' cs'.
    symmetry in Hq.
    destruct (worker_plays_head s item rest c Hpc Hstop Hq Hitem)
      as (n1 & t1 & Ht1 & Hrun1).
    match type of Hrun1 with _ = ?x => set (s1 := x) in * end.
    destruct (IH s1) as (n2 & t2 & Ht2 & Hrun2);
      [reflexivity | exact Hstop | exact Hrest |].
    exists (n1 + n2)%nat, t2.
    cbn [now s1 goto set_audio_thread set_played set_now] in Ht2.
    split; [lia|].
    rewrite worker_steps_add, Hrun1, Hrun2. unfold s1.
    cbn [played output_sample_rate goto set_audio_thread set_now set_played
         set_audio_queue map].
    rewrite <- app_assoc. reflexivity.
Qed.

(** *** Spawning *)

Lemma add_chunk_inner_spawns (chunk : bytes) (rate : Z) (s : manager) :
  is_alive s = false ->
  add_chunk_inner chunk rate s
  = _start_audio_thread
      (set_last_chunk_time (now s)
         (set_audio_queue (audio_queue s ++ [(chunk, rate)]) s)).
Proof.
  intros H. unfold add_chunk_inner.
  replace (is_alive (set_last_chunk_time _ _)) with (is_alive s) by reflexivity.
  rewrite H. reflexivity.
Qed.

Lemma add_chunk_inner_ready (chunk : bytes) (rate : Z) (s : manager) :
  idle_or_ready s ->
  audio_thread (add_chunk_inner chunk rate s) = Some AtLoopTest /\
  stop_audio_thread (add_chunk_inner chunk rate s) = false.
Proof.
  intros [[Hdead _]|[Hpc Hstop]].
  - rewrite add_chunk_inner_spawns by exact Hdead. split; reflexivity.
  - unfold add_chunk_inner.
    replace (is_alive (set_last_chunk_time _ _)) with (is_alive s) by reflexivity.
    unfold is_alive. rewrite Hpc. split; assumption.
Qed.

Lemma add_chunk_inner_played (chunk : bytes) (rate : Z) (s : manager) :
  played (add_chunk_inner chunk rate s) = played s.
Proof. unfold add_chunk_inner. destruct (is_alive _); reflexivity. Qed.

Lemma add_chunk_inner_config (chunk : bytes) (rate : Z) (s : manager) :
  play_raw_audio_callback (add_chunk_inner chunk rate s) = play_raw_audio_callback s /\
  output_sample_rate (add_chunk_inner chunk rate s) = output_sample_rate s.
Proof. unfold add_chunk_inner. destruct (is_alive _); split; reflexivity. Qed.

Lemma add_chunk_loop_ready (size rate : Z) (fuel : nat) :
  forall s s' : manager,
    idle_or_ready s ->
    add_chunk_loop fuel size rate s = Returned s' ->
    idle_or_ready s' /\ played s' = played s /\
    play_raw_audio_callback s' = play_raw_audio_callback s /\
    output_sample_rate s' = output_sample_rate s.
Proof.
  induction fuel as [|fuel IH]; intros s s' Hs; cbn [add_chunk_loop];
    destruct (_ >=? _); try discriminate.
  - intros [= <-]. repeat split. exact Hs.
  - intros Hrun. apply IH in Hrun.
    + cbn [played play_raw_audio_callback output_sample_rate
           set_inner_chunk_buffer] in Hrun.
      rewrite add_chunk_inner_played in Hrun.
      destruct (add_chunk_inner_config
                  (slice_to (inner_chunk_buffer s) size) rate s) as [-> ->] in Hrun.
      exact Hrun.
    + right. apply (add_chunk_inner_ready _ _ s Hs).
  - intros [= <-]. repeat split. exact Hs.
Qed.

Lemma add_chunk_ready (fuel : nat) (chunk : bytes) (rate : Z) (s s' : manager) :
  idle_or_ready s ->
  add_chunk fuel chunk rate s = Returned s' ->
  idle_or_ready s' /\ played s' = played s /\
  play_raw_audio_callback s' = play_raw_audio_callback s /\
  output_sample_rate s' = output_sample_rate s.
Proof.
  intros Hs. unfold add_chunk. intros Hrun.
  apply add_chunk_loop_ready in Hrun.
  - destruct (_ >? _); exact Hrun.
  - destruct (_ >? _); exact Hs.
Qed.

(** A worker that is ready, or has nothing to do, gets every playable
    item of the queue to the callback. *)
Lemma ready_worker_plays_queue (s : manager) (cs : list bytes) :
  idle_or_ready s ->
  Forall2 (playable s) (audio_queue s) cs ->
  exists n : nat,
    played (worker_steps n s)
    = played s ++ map (fun c => (c, output_sample_rate s)) cs /\
    audio_queue (worker_steps n s) = [].
Proof.
  intros [[_ Hq]|[Hpc Hstop]] Hall.
  - rewrite Hq in Hall. inversion Hall. exists 0%nat.
    cbn [worker_steps map]. rewrite app_nil_r. split; [reflexivity | exact Hq].
  - destruct (worker_drains_queue cs s Hpc Hstop Hall) as (n & t & _ & Hrun).
    exists n. rewrite Hrun. split; reflexivity.
Qed.

(** C8 (amended): a worker waiting on an empty queue gives up the wait
    after the one second of the timeout. It then leaves its loop exactly
    when the last-activity time is a real clock value (not zero) and
    more than ten seconds have passed since the last activity, and
    otherwise goes back to the loop test and, the stop flag being down,
    to the queue. The last activity is the last call of [add_chunk] or
    [add_chunk_inner], whether or not that call enqueued anything. The
    thread that has left its loop is still alive, and ends at its next
    step. Once it has ended, an [add_chunk] at a rate of positive frame
    size returns: the stale residue is dropped, the chunk is cut into
    frames, a new thread is started if there is a frame, and the worker,
    left to run, hands every playable frame to the callback. An enqueue
    that comes while the thread is ending starts nothing: the thread
    ends and the item stays in the queue. *)
Theorem worker_idle_exit_and_respawn (s : manager) :
  audio_thread s = Some AtGet ->
  audio_queue s = [] ->
  let s' := worker_step s in
  now s' = now s + seconds 1 /\
  (last_chunk_time s <> 0 /\ seconds 10 < now s' - last_chunk_time s
   <-> audio_thread s' = Some (AtReturn None)) /\
  (last_chunk_time s = 0 \/ now s' - last_chunk_time s <= seconds 10 ->
   audio_thread s' = Some AtLoopTest /\
   (stop_audio_thread s = false -> audio_thread (worker_step s') = Some AtGet)) /\
  (forall (fuel : nat) (chunk : bytes) (rate : Z) (s0 s1 : manager),
     add_chunk fuel chunk rate s0 = Returned s1 -> last_chunk_time s1 = now s0) /\
  (forall (chunk : bytes) (rate : Z) (s0 : manager),
     last_chunk_time (add_chunk_inner chunk rate s0) = now s0) /\
  (last_chunk_time s <> 0 -> seconds 10 < now s' - last_chunk_time s ->
   is_alive s' = true /\
   is_alive (worker_step s') = false /\
   (forall (e : Z) (fuel : nat) (chunk : bytes) (rate : Z),
      0 <= e ->
      0 < chunk_size_bytes rate ->
      (length (inner_chunk_buffer s) + length chunk <= fuel)%nat ->
      exists (frames : list bytes) (s2 : manager),
        add_chunk fuel chunk rate (time_sleep e (worker_step s')) = Returned s2 /\
        chunk = concat frames ++ inner_chunk_buffer s2 /\
        Forall (fun f => len f = chunk_size_bytes rate) frames /\
        len (inner_chunk_buffer s2) < chunk_size_bytes rate /\
        audio_queue s2 = map (fun f => (f, rate)) frames /\
        (frames <> [] ->
         audio_thread s2 = Some AtLoopTest /\ stop_audio_thread s2 = false) /\
        forall cs : list bytes,
          Forall2 (playable s2) (audio_queue s2) cs ->
          exists n : nat,
            played (worker_steps n s2)
            = played s ++ map (fun c => (c, output_sample_rate s)) cs /\
            audio_queue (worker_steps n s2) = []) /\
   (forall (chunk : bytes) (rate : Z) (n : nat),
      audio_thread (add_chunk_inner chunk rate s') = Some (AtReturn None) /\
      is_alive (worker_steps (S n) (add_chunk_inner chunk rate s')) = false /\
      played (worker_steps n (add_chunk_inner chunk rate s')) = played s /\
      audio_queue (worker_steps n (add_chunk_inner chunk rate s')) = [(chunk, rate)])).
Proof.
  intros Hpc Hq s'.
  assert (Hstep := worker_step_get_empty s Hpc Hq). fold s' in Hstep.
  assert (Hrefresh : forall (fuel : nat) (chunk : bytes) (rate : Z) (s0 s1 : manager),
            add_chunk fuel chunk rate s0 = Returned s1 -> last_chunk_time s1 = now s0).
  { intros fuel chunk rate s0 s1 Hrun.
    destruct (add_chunk_returned_clock _ _ _ _ _ Hrun) as [H1 H2]. congruence. }
  assert (Hstay : audio_thread (goto AtLoopTest (time_sleep (seconds 1) s))
                  = Some AtLoopTest /\
                  (stop_audio_thread s = false ->
                   audio_thread (worker_step (goto AtLoopTest (time_sleep (seconds 1) s)))
                   = Some AtGet)).
  { split; [reflexivity|]. intros Hstop.
    rewrite (worker_step_loop_test (goto AtLoopTest (time_sleep (seconds 1) s)) eq_refl).
    cbn [stop_audio_thread goto time_sleep set_audio_thread set_now].
    rewrite Hstop. reflexivity. }
  destruct (Z.eqb_spec (last_chunk_time s) 0) as [Hzero|Hlast];
    cbn [negb andb] in Hstep;
    [|destruct (Z.gtb_spec (now s + seconds 1 - last_chunk_time s) (seconds 10))
        as [Hidle|Hbusy]];
    rewrite Hstep; cbn [now leave_loop goto time_sleep set_audio_thread set_now].
  - split; [reflexivity|]. split; [split; [intros [Hnz _]; contradiction | discriminate]|].
    split; [intros _; exact Hstay|].
    split; [exact Hrefresh|]. split; [apply add_chunk_inner_last_chunk_time|].
    intros Hnz. contradiction.
  - split; [reflexivity|].
    split; [split; [reflexivity | intros _; split; [exact Hlast | lia]]|].
    split; [intros [Hz|Hle]; [contradiction | lia]|].
    split; [exact Hrefresh|]. split; [apply add_chunk_inner_last_chunk_time|].
    intros _ _.
    set (s1 := leave_loop None (time_sleep (seconds 1) s)).
    assert (Hs1 : worker_step s1 = exit_thread None s1) by reflexivity.
    split; [reflexivity|]. split; [reflexivity|]. split.
    + intros e fuel chunk rate He Hsize Hfuel.
      set (s3 := time_sleep e (worker_step s1)).
      destruct (add_chunk_positive chunk rate s3 fuel Hsize Hfuel)
        as (frames & rest & Hcut & Hall & Hrest & Hrun).
      assert (Hdata : add_chunk_data chunk s3 = chunk).
      { unfold add_chunk_data, s3, time_sleep.
        cbn [now last_chunk_time s1 leave_loop exit_thread goto worker_step
             time_sleep set_audio_thread set_now].
        rewrite Hs1.
        cbn [now last_chunk_time s1 leave_loop exit_thread goto
             time_sleep set_audio_thread set_now].
        destruct (Z.gtb_spec (now s + seconds 1 + e - last_chunk_time s)
                             (milliseconds 150)) as [_|Hfresh];
          [reflexivity | unfold seconds, milliseconds in *; lia]. }
      rewrite Hdata in Hcut.
      exists frames. eexists. split; [exact Hrun|].
      assert (Hready0 : idle_or_ready s3)
        by (left; split; [reflexivity | exact Hq]).
      destruct (add_chunk_ready _ _ _ _ _ Hready0 Hrun)
        as (Hready & Hplayed & Hcb & Hout).
      assert (Hqueue : audio_queue (set_inner_chunk_buffer rest
                                      (enqueue_all frames rate
                                         (set_last_chunk_time (now s3) s3)))
                       = map (fun f => (f, rate)) frames).
      { cbn [audio_queue set_inner_chunk_buffer]. rewrite enqueue_all_queue.
        cbn [audio_queue set_last_chunk_time]. unfold s3.
        cbn [audio_queue time_sleep set_now]. rewrite Hs1.
        cbn [audio_queue exit_thread set_audio_thread s1 leave_loop goto
             time_sleep set_now].
        rewrite Hq. reflexivity. }
      split; [exact Hcut|]. split; [exact Hall|]. split; [exact Hrest|].
      split; [exact Hqueue|]. split.
      * intros Hne. destruct Hready as [[_ Hempty]|Hready]; [|exact Hready].
        rewrite Hqueue in Hempty. destruct frames; [contradiction | discriminate].
      * intros cs Hcs.
        destruct (ready_worker_plays_queue _ cs Hready Hcs) as (n & Hp & Hqn).
        exists n. rewrite Hp, Hplayed, Hout. split; [reflexivity | exact Hqn].
    + intros chunk rate n.
      assert (Hadd : add_chunk_inner chunk rate s1
                     = set_last_chunk_time (now s1)
                         (set_audio_queue (audio_queue s1 ++ [(chunk, rate)]) s1))
        by reflexivity.
      set (s4 := add_chunk_inner chunk rate s1) in *.
      assert (Hdead : is_alive (worker_step s4) = false)
        by (rewrite Hadd; reflexivity).
      assert (Hsame : played (worker_step s4) = played s /\
                      audio_queue (worker_step s4) = [(chunk, rate)]).
      { rewrite Hadd.
        cbn [played audio_queue worker_step audio_thread exit_thread s1 leave_loop goto
             time_sleep set_audio_thread set_now set_last_chunk_time set_audio_queue].
        rewrite Hq. split; reflexivity. }
      split; [rewrite Hadd; reflexivity|]. split.
      * cbn [worker_steps]. rewrite worker_steps_not_alive by exact Hdead.
        exact Hdead.
      * destruct n as [|n].
        -- cbn [worker_steps]. rewrite Hadd.
           cbn [played audio_queue s1 leave_loop goto time_sleep set_audio_thread
                set_now set_last_chunk_time set_audio_queue].
           rewrite Hq. split; reflexivity.
        -- cbn [worker_steps]. rewrite worker_steps_not_alive by exact Hdead.
           exact Hsame.
  - split; [reflexivity|]. split; [split; [intros [_ Hidle]; lia | discriminate]|].
    split; [intros _; exact Hstay|].
    split; [exact Hrefresh|]. split; [apply add_chunk_inner_last_chunk_time|].
    intros _ Hidle. lia.
Qed.



(** ** Cleanup *)

Lemma steps_to_exit_alive (s : manager) :
  is_alive s = false <-> steps_to_exit s = 0%nat.
Proof.
  unfold is_alive, steps_to_exit.
  destruct (audio_thread s) as [[]|]; split; (reflexivity || discriminate).
Qed.

Ltac close_stopping :=
  repeat split; first [assumption | lia | discriminate | intros; assumption].

Lemma worker_step_stopping (s : manager) :
  stop_audio_thread s = true ->
  stop_audio_thread (worker_step s) = true /\
  (steps_to_exit (worker_step s) <= steps_to_exit s - 1)%nat /\
  played_after_stop (worker_step s) = played_after_stop s /\
  (audio_queue s = [] -> audio_queue (worker_step s) = []) /\
  pause_until_timestamp (worker_step s) = pause_until_timestamp s.
Proof.
  intros Hstop. unfold worker_step, steps_to_exit, played_after_stop.
  destruct (audio_thread s) as [[| |c|c|c|end_time|cause|cause]|] eqn:Hpc;
    rewrite ?Hstop.
  - cbn. rewrite ?Hpc, ?app_nil_r. close_stopping.
  - destruct (audio_queue s) as [|[chunk rate] rest] eqn:Hq.
    + unfold on_exception, on_queue_empty.
      destruct (_ && _); cbn; rewrite ?Hpc, ?app_nil_r;
        close_stopping.
    + destruct (upsample_chunk_to_output_sample_rate _ _ _) as [c|e];
        [|unfold on_exception, on_queue_empty; destruct e;
          try destruct (_ && _)];
        cbn; rewrite ?Hpc, ?app_nil_r; close_stopping.
  - cbn. rewrite ?Hpc, ?app_nil_r. close_stopping.
  - cbn. rewrite ?Hpc, ?app_nil_r. close_stopping.
  - cbn [played output_sample_rate set_played].
    destruct (play_raw_audio_callback _ _ _) as [u|e];
      [destruct (_ <=? 0)
      |unfold on_exception, on_queue_empty; destruct e;
       try destruct (_ && _)];
      cbn; rewrite ?Hpc, ?app_nil_r; close_stopping.
  - cbn. rewrite ?Hpc, ?app_nil_r. close_stopping.
  - cbn. rewrite ?Hpc, ?app_nil_r. close_stopping.
  - rewrite ?Hpc. close_stopping.
  - rewrite ?Hpc. close_stopping.
Qed.

Lemma worker_steps_stopping (n : nat) :
  forall s : manager,
    stop_audio_thread s = true ->
    stop_audio_thread (worker_steps n s) = true /\
    (steps_to_exit (worker_steps n s) <= steps_to_exit s - n)%nat /\
    played_after_stop (worker_steps n s) = played_after_stop s /\
    pause_until_timestamp (worker_steps n s) = pause_until_timestamp s.
Proof.
  induction n as [|n IH]; intros s Hstop; cbn [worker_steps].
  - repeat split; (assumption || lia).
  - destruct (worker_step_stopping s Hstop) as (H1 & H2 & H3 & _ & H5).
    destruct (IH _ H1) as (I1 & I2 & I3 & I4).
    repeat split; (assumption || lia || congruence).
Qed.

Lemma join_stopping (fuel : nat) :
  forall s : manager,
    stop_audio_thread s = true ->
    audio_queue s = [] ->
    (steps_to_exit s <= fuel)%nat ->
    exists s' : manager,
      join fuel s = Some s' /\
      is_alive s' = false /\
      stop_audio_thread s' = true /\
      audio_queue s' = [] /\
      played s' = played_after_stop s /\
      pause_until_timestamp s' = pause_until_timestamp s.
Proof.
  induction fuel as [|fuel IH]; intros s Hstop Hq Hfuel.
  - assert (Hdead : is_alive s = false) by (apply steps_to_exit_alive; lia).
    exists s. cbn [join]. rewrite Hdead. repeat split; try assumption.
    unfold played_after_stop. unfold is_alive in Hdead.
    destruct (audio_thread s) as [[]|]; try discriminate; symmetry; apply app_nil_r.
  - cbn [join]. destruct (is_alive s) eqn:Halive.
    + destruct (worker_step_stopping s Hstop) as (H1 & H2 & H3 & H4 & H5).
      destruct (IH (worker_step s) H1 (H4 Hq)) as (s' & J1 & J2 & J3 & J4 & J5 & J6);
        [lia|].
      exists s'. repeat split; (assumption || congruence).
    + exists s. repeat split; try assumption.
      unfold played_after_stop. unfold is_alive in Halive.
      destruct (audio_thread s) as [[]|]; try discriminate; symmetry; apply app_nil_r.
Qed.

Lemma steps_to_exit_bound (s : manager) : (steps_to_exit s <= 4)%nat.
Proof. unfold steps_to_exit. destruct (audio_thread s) as [[]|]; lia. Qed.

Lemma join_not_alive (fuel : nat) (s : manager) :
  is_alive s = false -> join fuel s = Some s.
Proof. intros H. destruct fuel; cbn [join]; rewrite H; reflexivity. Qed.

Lemma cleaned_up_fixed (s : manager) :
  stop_audio_thread s = true ->
  audio_queue s = [] ->
  pause_until_timestamp s = 0 ->
  set_pause_until_timestamp 0 (set_audio_queue [] (set_stop_audio_thread true s)) = s.
Proof. destruct s; cbn; intros -> -> ->; reflexivity. Qed.

(** C7 (amended): [cleanup] returns (the thread needs at most four
    steps to end once the flag is up) and leaves the stop flag raised,
    the queue empty, the thread not alive and the pause deadline at zero.
    Whatever the worker does in between, the callback receives nothing
    that was still in the queue, and nothing at all unless the worker had
    a chunk already past its stop test when [cleanup] began; that chunk is
    played, once, before [cleanup] returns. Afterwards the worker takes
    no step, and a further [cleanup] changes nothing. *)
Theorem cleanup_stops_playback (s : manager) (k fuel : nat) :
  (4 <= fuel)%nat ->
  exists s' : manager,
    cleanup k fuel s = Some s' /\
    stop_audio_thread s' = true /\
    audio_queue s' = [] /\
    is_alive s' = false /\
    pause_until_timestamp s' = 0 /\
    played s'
    = played s ++
      match audio_thread s with
      | Some (AtPlay c) => [(c, output_sample_rate s)]
      | _ => []
      end /\
    (forall n : nat, worker_steps n s' = s') /\
    (forall k' fuel' : nat, cleanup k' fuel' s' = Some s').
Proof.
  intros Hfuel. unfold cleanup.
  set (s1 := set_stop_audio_thread true s).
  destruct (worker_steps_stopping k s1 eq_refl) as (H1 & _ & H3 & _).
  set (s2 := worker_steps k s1) in *.
  destruct (join_stopping fuel (set_audio_queue [] s2))
    as (s3 & J1 & J2 & J3 & J4 & J5 & _);
    [exact H1 | reflexivity
     | pose proof (steps_to_exit_bound (set_audio_queue [] s2)); lia |].
  rewrite J1. eexists. split; [reflexivity|].
  assert (Hdead : is_alive (set_pause_until_timestamp 0 s3) = false) by exact J2.
  repeat split; try assumption.
  - cbn [played set_pause_until_timestamp]. rewrite J5.
    change (played_after_stop (set_audio_queue [] s2)) with (played_after_stop s2).
    rewrite H3. reflexivity.
  - intros n. apply worker_steps_not_alive. exact Hdead.
  - intros k' fuel'.
    assert (Hdead' : is_alive (set_stop_audio_thread true
                                 (set_pause_until_timestamp 0 s3)) = false)
      by exact J2.
    rewrite (worker_steps_not_alive k' _ Hdead').
    rewrite join_not_alive by exact J2.
    f_equal. apply cleaned_up_fixed; [exact J3 | exact J4 | reflexivity].
Qed.

(** ** From the producer to the callback *)

Lemma add_chunk_returned_positive (fuel : nat) (chunk : bytes) (rate : Z)
    (s s' : manager) :
  add_chunk fuel chunk rate s = Returned s' -> 0 < chunk_size_bytes rate.
Proof.
  intros Hrun.
  destruct (Z.lt_ge_cases 0 (chunk_size_bytes rate)) as [Hpos|Hneg]; [exact Hpos|].
  unfold add_chunk in Hrun.
  match type of Hrun with add_chunk_loop fuel _ rate ?x = _ =>
    destruct (add_chunk_loop_nonpositive _ rate fuel Hneg x) as (s'' & Hrun' & _) end.
  congruence.
Qed.

Lemma same_config_refl (s : manager) : same_config s s.
Proof. repeat split. Qed.

Lemma same_config_trans (s1 s2 s3 : manager) :
  same_config s1 s2 -> same_config s2 s3 -> same_config s1 s3.
Proof. unfold same_config. intros (A & B & C) (D & E & F). repeat split; congruence. Qed.

Lemma same_config_converted (s s' : manager) (item : bytes * Z) :
  same_config s s' -> converted s' item = converted s item.
Proof. intros (Hout & _). unfold converted. rewrite Hout. reflexivity. Qed.

Lemma same_config_playable_item (s s' : manager) (item : bytes * Z) :
  same_config s s' -> playable_item s item -> playable_item s' item.
Proof.
  intros Hcfg. pose proof (same_config_converted s s' item Hcfg) as Hconv.
  destruct Hcfg as (Hout & Hcb & _).
  unfold playable_item, playable. rewrite Hconv, Hout, Hcb. tauto.
Qed.

Lemma in_flight_not_alive (s : manager) : is_alive s = false -> in_flight s = [].
Proof.
  unfold is_alive, in_flight.
  destruct (audio_thread s) as [[]|]; (reflexivity || discriminate).
Qed.

(** What an enqueue leaves alone. *)
Lemma add_chunk_inner_keeps (chunk : bytes) (rate : Z) (s : manager) :
  played (add_chunk_inner chunk rate s) = played s /\
  in_flight (add_chunk_inner chunk rate s) = in_flight s /\
  same_config s (add_chunk_inner chunk rate s) /\
  (stop_audio_thread s = false ->
   stop_audio_thread (add_chunk_inner chunk rate s) = false).
Proof.
  destruct (is_alive s) eqn:Halive.
  - unfold add_chunk_inner.
    replace (is_alive (set_last_chunk_time _ _)) with (is_alive s) by reflexivity.
    rewrite Halive. repeat split. tauto.
  - rewrite add_chunk_inner_spawns by exact Halive.
    repeat split. cbn. unfold in_flight at 1. cbn.
    symmetry. apply in_flight_not_alive. exact Halive.
Qed.

Lemma enqueue_all_keeps (frames : list bytes) (rate : Z) :
  forall s : manager,
    played (enqueue_all frames rate s) = played s /\
    in_flight (enqueue_all frames rate s) = in_flight s /\
    same_config s (enqueue_all frames rate s) /\
    (stop_audio_thread s = false ->
     stop_audio_thread (enqueue_all frames rate s) = false) /\
    ((is_alive s = false -> audio_queue s = []) ->
     is_alive (enqueue_all frames rate s) = false ->
     audio_queue (enqueue_all frames rate s) = []).
Proof.
  induction frames as [|f frames IH]; intros s; cbn [enqueue_all fold_left].
  - repeat split; tauto.
  - destruct (add_chunk_inner_keeps f rate s) as (A1 & A2 & A3 & A4).
    destruct (IH (add_chunk_inner f rate s)) as (B1 & B2 & B3 & B4 & B5).
    unfold enqueue_all in *.
    repeat split; try congruence.
    + apply (same_config_trans _ _ _ A3 B3).
    + apply (same_config_trans _ _ _ A3 B3).
    + apply (same_config_trans _ _ _ A3 B3).
    + intros Hstop. apply B4, A4, Hstop.
    + intros _. apply B5. intros Hdead.
      rewrite add_chunk_inner_alive in Hdead. discriminate.
Qed.

Lemma appended_app (q new : list (bytes * Z)) :
  skipn (length q) (q ++ new) = new.
Proof.
  rewrite skipn_app, skipn_all, Nat.sub_diag. reflexivity.
Qed.

(** A call that returns: what it appends are whole frames, and nothing
    played, dequeued or configured changes. *)
Lemma call_returned (chunk : bytes) (rate : Z) (s s' : manager) :
  act (Call chunk rate) s = Returned s' ->
  audio_queue s' = audio_queue s ++ appended s s' /\
  whole_frames (appended s s') /\
  played s' = played s /\
  in_flight s' = in_flight s /\
  same_config s s' /\
  (stop_audio_thread s = false -> stop_audio_thread s' = false) /\
  ((is_alive s = false -> audio_queue s = []) ->
   is_alive s' = false -> audio_queue s' = []).
Proof.
  cbn [act]. intros Hrun.
  pose proof (add_chunk_returned_positive _ _ _ _ _ Hrun) as Hsize.
  destruct (add_chunk_positive chunk rate s _ Hsize (Nat.le_refl _))
    as (frames & rest & _ & Hall & _ & Hrun').
  rewrite Hrun in Hrun'. injection Hrun' as ->.
  set (s0 := set_last_chunk_time (now s) s).
  destruct (enqueue_all_keeps frames rate s0) as (K1 & K2 & K3 & K4 & K5).
  assert (Hq : audio_queue (set_inner_chunk_buffer rest (enqueue_all frames rate s0))
               = audio_queue s ++ map (fun f => (f, rate)) frames)
    by (cbn [audio_queue set_inner_chunk_buffer]; rewrite enqueue_all_queue;
        reflexivity).
  assert (Happ : appended s (set_inner_chunk_buffer rest (enqueue_all frames rate s0))
                 = map (fun f => (f, rate)) frames)
    by (unfold appended; rewrite Hq; apply appended_app).
  rewrite Happ. repeat split; try assumption.
  - unfold whole_frames. apply Forall_map. cbn [fst snd]. exact Hall.
  - apply K3.
  - apply K3.
  - apply K3.
Qed.

Lemma upsample_integer_ratio_len (out : Z) (chunk c : bytes) (rate : Z) :
  rate <> 0 -> out mod rate = 0 -> 1 < out / rate ->
  upsample_chunk_to_output_sample_rate out chunk rate = Ok c ->
  len c = out / rate * len chunk.
Proof.
  intros H0 Hmod Hratio Hconv.
  assert (Hne : rate <> out).
  { intros ->. rewrite Z.div_same in Hratio by exact H0. lia. }
  destruct (np_frombuffer_int16 chunk) as [samples|e] eqn:Hs.
  - rewrite (upsample_integer_ratio out chunk rate samples Hne H0 Hmod Hratio Hs)
      in Hconv.
    injection Hconv as <-.
    rewrite (np_frombuffer_inv chunk samples Hs).
    unfold len. rewrite !np_tobytes_length, np_repeat_length. lia.
  - unfold upsample_chunk_to_output_sample_rate, py_floordiv, py_mod in Hconv.
    destruct (Z.eqb_spec rate out); [contradiction|].
    destruct (Z.eqb_spec rate 0); [contradiction|].
    cbn [bind] in Hconv. rewrite Hmod in Hconv. cbn [Z.eqb negb orb] in Hconv.
    destruct (Z.leb_spec (out / rate) 1); [lia|].
    rewrite Hs in Hconv. discriminate.
Qed.

Lemma chunk_size_bytes_multiple (out rate : Z) :
  rate mod 5 = 0 -> rate <> 0 -> out mod rate = 0 ->
  out / rate * chunk_size_bytes rate = chunk_size_bytes out.
Proof.
  intros H5 H0 Hmod. unfold chunk_size_bytes, bytes_per_sample.
  apply Z.div_exact in H5; [|lia].
  apply Z.div_exact in Hmod; [|exact H0].
  set (m := rate / 5) in *. set (k := out / rate) in *.
  rewrite Hmod, H5.
  replace (2 * (5 * m)) with (m * 10) by lia.
  replace (2 * (5 * m * k)) with (m * k * 10) by lia.
  rewrite !Z.quot_mul by lia. lia.
Qed.

Lemma converted_frame_sizes (s : manager) (q : list (bytes * Z)) :
  whole_frames q ->
  Forall (playable_item s) q ->
  Forall (fun item =>
            snd item = output_sample_rate s \/
            (snd item mod 5 = 0 /\ snd item <> 0 /\
             output_sample_rate s mod snd item = 0 /\
             1 < output_sample_rate s / snd item) ->
            len (fst (converted s item)) = chunk_size_bytes (output_sample_rate s))
         q.
Proof.
  intros Hq Hall. induction Hq as [|[frame rate] q Hlen Hq IH]; [constructor|].
  inversion Hall as [|item q' [Hconv _] Hall']. subst item q'.
  constructor; [|exact (IH Hall')].
  remember (fst (converted s (frame, rate))) as c eqn:Hc. clear Hc.
  cbn [fst snd] in *.
  intros [Hsame|(H5 & H0 & Hmod & Hratio)].
  - rewrite Hsame, upsample_same_rate in Hconv. injection Hconv as <-.
    rewrite <- Hsame. exact Hlen.
  - rewrite (upsample_integer_ratio_len _ frame c rate H0 Hmod Hratio Hconv).
    rewrite Hlen. apply chunk_size_bytes_multiple; assumption.
Qed.

Lemma playable_item_converted (s : manager) (item : bytes * Z) :
  playable_item s item ->
  upsample_chunk_to_output_sample_rate (output_sample_rate s) (fst item) (snd item)
  = Ok (fst (converted s item)) /\
  converted s item = (fst (converted s item), output_sample_rate s) /\
  play_raw_audio_callback s (fst (converted s item)) (output_sample_rate s) = Ok tt.
Proof. intros [Hconv Hsink]. repeat split; assumption. Qed.

Lemma timeline_eq (s s' : manager) (P F Q : list (bytes * Z)) :
  same_config s s' ->
  played s' = P -> in_flight s' = F -> audio_queue s' = Q ->
  timeline s' = P ++ F ++ map (converted s) Q.
Proof.
  intros Hcfg <- <- <-. unfold timeline. do 2 f_equal.
  apply map_ext. intros item. apply same_config_converted. exact Hcfg.
Qed.

Lemma healthy_eq (s s' : manager) :
  same_config s s' ->
  stop_audio_thread s' = false ->
  Forall (fun x => play_raw_audio_callback s (fst x) (snd x) = Ok tt) (in_flight s') ->
  Forall (playable_item s) (audio_queue s') ->
  healthy s'.
Proof.
  intros Hcfg Hstop Hfly Hq. repeat split; try assumption.
  - destruct Hcfg as (_ & -> & _). exact Hfly.
  - eapply Forall_impl; [|exact Hq].
    intros item. apply same_config_playable_item. exact Hcfg.
Qed.

Lemma in_flight_at (s : manager) (pc : worker_pc) :
  audio_thread s = Some pc ->
  in_flight s
  = match pc with
    | AtWaitIfPaused c | AtStopTest c | AtPlay c => [(c, output_sample_rate s)]
    | _ => []
    end.
Proof. intros Hpc. unfold in_flight. rewrite Hpc. reflexivity. Qed.

(** Side conditions on a state written out as a record: its thread, its
    queue and its dequeued chunk can be read off. *)
Ltac read_off Hpc :=
  unfold is_alive, in_flight; cbn; rewrite ?Hpc;
  first [discriminate | assumption | constructor | reflexivity].

(** A step of the worker of a healthy manager loses nothing and
    reorders nothing. *)
Lemma work_step_healthy (s : manager) :
  healthy s ->
  healthy (worker_step s) /\
  timeline (worker_step s) = timeline s /\
  same_config s (worker_step s).
Proof.
  intros (Hstop & Hfly & Hq).
  assert (Hsame : forall s', s' = s -> healthy s' /\ timeline s' = timeline s /\
                                       same_config s s').
  { intros s' ->. repeat split; assumption. }
  destruct (audio_thread s) as [[| |c|c|c|end_time|cause|cause]|] eqn:Hpc.
  - rewrite (worker_step_loop_test s Hpc), Hstop.
    split; [|split]; [| |repeat split].
    + apply (healthy_eq s);
        [repeat split | exact Hstop | read_off Hpc | exact Hq].
    + rewrite (timeline_eq s (goto AtGet s) (played s) [] (audio_queue s));
        [|repeat split | reflexivity | reflexivity | reflexivity].
      unfold timeline. rewrite (in_flight_at s _ Hpc). reflexivity.
  - destruct (audio_queue s) as [|[chunk rate] rest] eqn:Hqs.
    + rewrite (worker_step_get_empty s Hpc Hqs).
      assert (Htl : timeline s = played s ++ [] ++ map (converted s) [])
        by (unfold timeline; rewrite (in_flight_at s _ Hpc), Hqs; reflexivity).
      destruct (_ && _); (split; [|split]; [| |repeat split]).
      * apply (healthy_eq s);
          [repeat split | exact Hstop | read_off Hpc
          | cbn; rewrite Hqs; constructor].
      * rewrite Htl.
        apply timeline_eq; [repeat split | reflexivity | reflexivity | exact Hqs].
      * apply (healthy_eq s);
          [repeat split | exact Hstop | read_off Hpc
          | cbn; rewrite Hqs; constructor].
      * rewrite Htl.
        apply timeline_eq; [repeat split | reflexivity | reflexivity | exact Hqs].
    + rewrite (worker_step_get_item s chunk rate rest Hpc Hqs).
      inversion Hq as [|item q' Hitem Hrest]. subst item q'.
      destruct (playable_item_converted s (chunk, rate) Hitem) as (Hc & Htag & Hsink).
      cbn [fst snd] in Hc. rewrite Hc.
      set (c := fst (converted s (chunk, rate))) in *.
      split; [|split]; [| |repeat split].
      * apply (healthy_eq s);
          [repeat split | exact Hstop
          | constructor; [exact Hsink | constructor] | exact Hrest].
      * rewrite (timeline_eq s _ (played s) [(c, output_sample_rate s)] rest);
          [|repeat split | reflexivity | reflexivity | reflexivity].
        unfold timeline. rewrite (in_flight_at s _ Hpc), Hqs.
        cbn [map app]. rewrite Htag. reflexivity.
  - assert (Hfl : in_flight s = [(c, output_sample_rate s)])
      by apply (in_flight_at s _ Hpc).
    assert (Htl : timeline s
                  = played s ++ [(c, output_sample_rate s)]
                    ++ map (converted s) (audio_queue s))
      by (unfold timeline; rewrite Hfl; reflexivity).
    rewrite Hfl in Hfly.
    unfold worker_step. rewrite Hpc, Hstop.
    destruct (_ <=? 0); (split; [|split]; [| |repeat split]).
    + apply (healthy_eq s);
        [repeat split | exact Hstop | exact Hfly | exact Hq].
    + rewrite Htl.
      apply timeline_eq; [repeat split | reflexivity | reflexivity | reflexivity].
    + apply (healthy_eq s);
        [repeat split | exact Hstop | read_off Hpc | exact Hq].
    + rewrite Htl.
      apply timeline_eq; [repeat split | reflexivity | read_off Hpc | reflexivity].
  - assert (Hfl : in_flight s = [(c, output_sample_rate s)])
      by apply (in_flight_at s _ Hpc).
    assert (Htl : timeline s
                  = played s ++ [(c, output_sample_rate s)]
                    ++ map (converted s) (audio_queue s))
      by (unfold timeline; rewrite Hfl; reflexivity).
    rewrite Hfl in Hfly.
    rewrite (worker_step_stop_test s c Hpc), Hstop.
    split; [|split]; [| |repeat split].
    + apply (healthy_eq s);
        [repeat split | exact Hstop | exact Hfly | exact Hq].
    + rewrite Htl.
      apply timeline_eq; [repeat split | reflexivity | reflexivity | reflexivity].
  - assert (Hfl : in_flight s = [(c, output_sample_rate s)])
      by apply (in_flight_at s _ Hpc).
    rewrite Hfl in Hfly. inversion Hfly as [|x l Hsink _]. subst x l.
    cbn [fst snd] in Hsink.
    rewrite (worker_step_play s c Hpc). cbn zeta. rewrite Hsink.
    assert (Htl : timeline s
                  = (played s ++ [(c, output_sample_rate s)]) ++ []
                    ++ map (converted s) (audio_queue s))
      by (unfold timeline; rewrite Hfl, <- app_assoc; reflexivity).
    destruct (_ <=? 0); (split; [|split]; [| |repeat split]).
    + apply (healthy_eq s);
        [repeat split | exact Hstop | read_off Hpc | exact Hq].
    + rewrite Htl.
      apply timeline_eq; [repeat split | reflexivity | reflexivity | reflexivity].
    + apply (healthy_eq s);
        [repeat split | exact Hstop | read_off Hpc | exact Hq].
    + rewrite Htl.
      apply timeline_eq; [repeat split | reflexivity | reflexivity | reflexivity].
  - assert (Htl : timeline s = played s ++ [] ++ map (converted s) (audio_queue s))
      by (unfold timeline; rewrite (in_flight_at s _ Hpc); reflexivity).
    unfold worker_step. rewrite Hpc, Hstop.
    destruct (_ >? 0); [|destruct (_ <=? 0)];
      (split; [|split]; [| |repeat split]).
    + apply (healthy_eq s);
        [repeat split | exact Hstop | read_off Hpc | exact Hq].
    + rewrite Htl.
      apply timeline_eq; [repeat split | reflexivity | reflexivity | reflexivity].
    + apply (healthy_eq s);
        [repeat split | exact Hstop | read_off Hpc | exact Hq].
    + rewrite Htl.
      apply timeline_eq; [repeat split | reflexivity | reflexivity | reflexivity].
    + apply (healthy_eq s);
        [repeat split | exact Hstop | read_off Hpc | exact Hq].
    + rewrite Htl.
      apply timeline_eq; [repeat split | reflexivity | read_off Hpc | reflexivity].
  - assert (Htl : timeline s = played s ++ [] ++ map (converted s) (audio_queue s))
      by (unfold timeline; rewrite (in_flight_at s _ Hpc); reflexivity).
    unfold worker_step. rewrite Hpc.
    split; [|split]; [| |repeat split].
    + apply (healthy_eq s);
        [repeat split | exact Hstop | read_off Hpc | exact Hq].
    + rewrite Htl.
      apply timeline_eq; [repeat split | reflexivity | reflexivity | reflexivity].
  - rewrite worker_step_not_alive by (unfold is_alive; rewrite Hpc; reflexivity).
    apply Hsame. reflexivity.
  - rewrite worker_step_not_alive by (unfold is_alive; rewrite Hpc; reflexivity).
    apply Hsame. reflexivity.
Qed.

Lemma pause_for_cases (d : Z) (s : manager) :
  pause_for d s = s \/
  pause_for d s = set_pause_until_timestamp (now s + d) s.
Proof.
  unfold pause_for. destruct (d <=? 0); [left; reflexivity|].
  destruct (_ >? _); [right | left]; reflexivity.
Qed.

Lemma act_healthy (a : action) (s s' : manager) :
  healthy s ->
  act a s = Returned s' ->
  Forall (playable_item s) (added a s s') ->
  healthy s' /\
  timeline s' = timeline s ++ map (converted s) (added a s s') /\
  same_config s s' /\
  whole_frames (added a s s').
Proof.
  intros Hs Hact Hnew.
  assert (Hkeep : forall x, x = s' ->
            same_config s x -> stop_audio_thread x = stop_audio_thread s ->
            audio_thread x = audio_thread s -> audio_queue x = audio_queue s ->
            played x = played s ->
            added a s s' = [] ->
            healthy s' /\
            timeline s' = timeline s ++ map (converted s) (added a s s') /\
            same_config s s' /\
            whole_frames (added a s s')).
  { intros x -> Hcfg Hstop Hthr Hq Hp Hadd.
    destruct Hs as (S1 & S3 & S4).
    assert (Hfl : in_flight s' = in_flight s)
      by (unfold in_flight; destruct Hcfg as (-> & _); rewrite Hthr; reflexivity).
    rewrite Hadd. cbn [map]. rewrite app_nil_r.
    split; [|split; [|split]].
    - apply (healthy_eq s); [exact Hcfg | congruence | | ].
      + rewrite Hfl. exact S3.
      + rewrite Hq. exact S4.
    - rewrite (timeline_eq s s' (played s) (in_flight s) (audio_queue s));
        [reflexivity | exact Hcfg | exact Hp | exact Hfl | exact Hq].
    - exact Hcfg.
    - constructor. }
  destruct a as [chunk rate|d|d|].
  - destruct Hs as (S1 & S3 & S4).
    destruct (call_returned chunk rate s s' Hact)
      as (Hq & Hwhole & Hp & Hfl & Hcfg & Hstop & _).
    cbn [added] in *.
    split; [|split; [|split]].
    + apply (healthy_eq s); [exact Hcfg | exact (Hstop S1) | |].
      * rewrite Hfl. exact S3.
      * rewrite Hq. apply Forall_app. split; assumption.
    + rewrite (timeline_eq s s' (played s) (in_flight s)
                 (audio_queue s ++ appended s s'));
        [|exact Hcfg | exact Hp | exact Hfl | exact Hq].
      unfold timeline. rewrite map_app, <- !app_assoc. reflexivity.
    + exact Hcfg.
    + exact Hwhole.
  - cbn [act] in Hact. injection Hact as <-.
    destruct (pause_for_cases d s) as [E|E];
      apply (Hkeep _ (eq_sym E)); repeat split.
  - cbn [act] in Hact. injection Hact as <-.
    apply (Hkeep _ eq_refl); repeat split.
  - cbn [act] in Hact. injection Hact as <-.
    destruct (work_step_healthy s Hs) as (H1 & H2 & H3).
    cbn [added map]. rewrite app_nil_r.
    repeat split; try assumption; try apply H1; try apply H3. constructor.
Qed.

Lemma run_healthy (acts : list action) :
  forall s s1 : manager,
    healthy s ->
    run acts s = Returned s1 ->
    Forall (playable_item s) (forwarded acts s) ->
    healthy s1 /\
    timeline s1 = timeline s ++ map (converted s) (forwarded acts s) /\
    same_config s s1 /\
    whole_frames (forwarded acts s).
Proof.
  induction acts as [|a acts IH]; intros s s1 Hs; cbn [run forwarded].
  - intros [= <-] _. cbn [map]. rewrite app_nil_r.
    repeat split; try apply Hs. constructor.
  - destruct (act a s) as [s'|s'] eqn:Hact; [|discriminate].
    fold (added a s s'). intros Hrun Hall.
    apply Forall_app in Hall. destruct Hall as [Hnew Hrest].
    destruct (act_healthy a s s' Hs Hact Hnew) as (A1 & A2 & A3 & A4).
    destruct (IH s' s1 A1 Hrun) as (B1 & B2 & B3 & B4).
    { eapply Forall_impl; [|exact Hrest].
      intros item. apply same_config_playable_item. exact A3. }
    split; [exact B1|]. split; [|split].
    + rewrite B2, A2, map_app, <- app_assoc. do 2 f_equal.
      apply map_ext. intros item. apply same_config_converted. exact A3.
    + apply (same_config_trans _ _ _ A3 B3).
    + apply Forall_app. split; assumption.
Qed.

(** *** The worker comes to rest *)

Lemma comes_to_rest_after (n : nat) (s : manager) :
  comes_to_rest (worker_steps n s) -> comes_to_rest s.
Proof.
  intros [m Hm]. exists (n + m)%nat. rewrite worker_steps_add. exact Hm.
Qed.

Lemma on_exception_at_rest (e : exn) (s : manager) :
  at_rest (on_exception e s).
Proof.
  unfold on_exception, on_queue_empty.
  destruct e; try (right; left; intros []).
  destruct (_ && _); [right; left; intros [] | left; reflexivity].
Qed.

Lemma rest_from_sleep (s : manager) (end_time : Z) :
  audio_thread s = Some (AtSleep end_time) -> comes_to_rest s.
Proof.
  intros Hpc.
  destruct (sleep_with_interrupts_ends end_time
              (Z.to_nat (end_time - now s)) s Hpc (Nat.le_refl _))
    as (n & t & _ & Hrun).
  exists n. rewrite Hrun. left. reflexivity.
Qed.

Lemma rest_from_play (s : manager) (c : bytes) :
  audio_thread s = Some (AtPlay c) -> comes_to_rest s.
Proof.
  intros Hpc. apply (comes_to_rest_after 1). cbn [worker_steps].
  rewrite (worker_step_play s c Hpc). cbn zeta.
  destruct (play_raw_audio_callback s c (output_sample_rate s)) as [u|e].
  - destruct (_ <=? 0).
    + exists 0%nat. left. reflexivity.
    + eapply rest_from_sleep. reflexivity.
  - exists 0%nat. apply on_exception_at_rest.
Qed.

Lemma rest_from_stop_test (s : manager) (c : bytes) :
  audio_thread s = Some (AtStopTest c) -> comes_to_rest s.
Proof.
  intros Hpc. apply (comes_to_rest_after 1). cbn [worker_steps].
  rewrite (worker_step_stop_test s c Hpc).
  destruct (stop_audio_thread s).
  - exists 0%nat. right. left. intros [].
  - apply (rest_from_play _ c). reflexivity.
Qed.

Lemma rest_from_wait (s : manager) (c : bytes) :
  audio_thread s = Some (AtWaitIfPaused c) -> comes_to_rest s.
Proof.
  intros Hpc. destruct (stop_audio_thread s) eqn:Hstop.
  - apply (comes_to_rest_after 1). cbn [worker_steps].
    unfold worker_step. rewrite Hpc, Hstop.
    apply (rest_from_stop_test _ c). reflexivity.
  - destruct (wait_if_paused_ends c
                (Z.to_nat (pause_until_timestamp s - now s)) s Hpc Hstop
                (Nat.le_refl _))
      as (n & t & _ & Hrun).
    apply (comes_to_rest_after n). rewrite Hrun.
    apply (rest_from_stop_test _ c). reflexivity.
Qed.

Lemma worker_comes_to_rest (s : manager) : comes_to_rest s.
Proof.
  destruct (audio_thread s) as [[| |c|c|c|end_time|cause|cause]|] eqn:Hpc.
  - exists 0%nat. left. exact Hpc.
  - destruct (audio_queue s) as [|[chunk rate] rest] eqn:Hq.
    + exists 0%nat. right. right. split; assumption.
    + apply (comes_to_rest_after 1). cbn [worker_steps].
      rewrite (worker_step_get_item s chunk rate rest Hpc Hq).
      destruct (upsample_chunk_to_output_sample_rate _ _ _) as [c|e].
      * apply (rest_from_wait _ c). reflexivity.
      * exists 0%nat. apply on_exception_at_rest.
  - apply (rest_from_wait s c Hpc).
  - apply (rest_from_stop_test s c Hpc).
  - apply (rest_from_play s c Hpc).
  - apply (rest_from_sleep s end_time Hpc).
  - exists 0%nat. right. left. cbn [worker_steps]. unfold in_loop.
    rewrite Hpc. intros [].
  - exists 0%nat. right. left. cbn [worker_steps]. unfold in_loop.
    rewrite Hpc. intros [].
  - exists 0%nat. right. left. cbn [worker_steps]. unfold in_loop.
    rewrite Hpc. intros [].
Qed.

Lemma worker_steps_healthy (n : nat) :
  forall s : manager,
    healthy s ->
    healthy (worker_steps n s) /\
    timeline (worker_steps n s) = timeline s /\
    same_config s (worker_steps n s).
Proof.
  induction n as [|n IH]; intros s Hs; cbn [worker_steps].
  - repeat split; apply Hs.
  - destruct (work_step_healthy s Hs) as (A1 & A2 & A3).
    destruct (IH _ A1) as (B1 & B2 & B3).
    split; [exact B1|]. split; [congruence|].
    apply (same_config_trans _ _ _ A3 B3).
Qed.

Lemma playable_items_converted (s : manager) (q : list (bytes * Z)) :
  Forall (playable_item s) q ->
  Forall2 (playable s) q (map (fun item => fst (converted s item)) q) /\
  map (fun c => (c, output_sample_rate s)) (map (fun item => fst (converted s item)) q)
  = map (converted s) q.
Proof.
  induction 1 as [|item q Hitem Hq [IH1 IH2]]; cbn [map]; [split; [constructor | reflexivity]|].
  split; [constructor; assumption|].
  rewrite IH2. reflexivity.
Qed.

(** The worker of a healthy manager leaves its loop on an empty queue
    only: no step of the worker strands an item. *)
Lemma work_step_serviced (s : manager) :
  healthy s -> serviced s -> serviced (worker_step s).
Proof.
  intros (Hstop & Hfly & Hq) Hserv. unfold serviced, in_loop in *.
  unfold worker_step, on_exception, on_queue_empty, leave_loop.
  destruct (audio_thread s) as [[| |c|c|c|end_time|cause|cause]|] eqn:Hpc;
    rewrite ?Hstop.
  - left. exact I.
  - destruct (audio_queue s) as [|[chunk rate] rest] eqn:Hqs.
    + destruct (_ && _); [right; exact Hqs | left; exact I].
    + inversion Hq as [|item q' Hitem Hrest]. subst item q'.
      destruct (playable_item_converted s (chunk, rate) Hitem) as (Hc & _).
      cbn [fst snd] in Hc.
      cbn [output_sample_rate set_audio_queue]. rewrite Hc. left. exact I.
  - destruct (_ <=? 0); left; cbn; rewrite ?Hpc; exact I.
  - left. exact I.
  - assert (Hfl : in_flight s = [(c, output_sample_rate s)])
      by apply (in_flight_at s _ Hpc).
    rewrite Hfl in Hfly. inversion Hfly as [|x l Hsink _]. subst x l.
    cbn [fst snd] in Hsink.
    cbn [played output_sample_rate set_played play_raw_audio_callback
         sleep_time_between_chunks_seconds now].
    rewrite Hsink. destruct (_ <=? 0); left; exact I.
  - destruct (_ >? 0); [|destruct (_ <=? 0)]; left; cbn; rewrite ?Hpc; exact I.
  - destruct Hserv as [[]|Hempty]. right. exact Hempty.
  - rewrite Hpc. exact Hserv.
  - rewrite Hpc. exact Hserv.
Qed.

Lemma worker_steps_serviced (n : nat) :
  forall s : manager,
    healthy s -> serviced s -> serviced (worker_steps n s).
Proof.
  induction n as [|n IH]; intros s Hs Hserv; cbn [worker_steps]; [exact Hserv|].
  apply IH; [apply (work_step_healthy s Hs) | apply work_step_serviced; assumption].
Qed.

Lemma in_flight_out_of_loop (s : manager) : ~ in_loop s -> in_flight s = [].
Proof.
  unfold in_loop, in_flight.
  destruct (audio_thread s) as [[]|]; intros H; (reflexivity || elim H; exact I).
Qed.

(** Left to run, the worker of a healthy manager in which nothing is
    stranded plays all that is pending and empties the queue. *)
Lemma worker_settles (s : manager) :
  healthy s ->
  serviced s ->
  exists n : nat,
    played (worker_steps n s) = timeline s /\
    audio_queue (worker_steps n s) = [].
Proof.
  intros Hs Hserv.
  destruct (worker_comes_to_rest s) as [n Hrest].
  destruct (worker_steps_healthy n s Hs) as (Hs' & Htl & _).
  pose proof (worker_steps_serviced n s Hs Hserv) as Hserv'.
  set (s' := worker_steps n s) in *.
  destruct Hs' as (Hstop & Hfly & Hq).
  destruct Hrest as [Hpc|[Hgone|[Hpc Hempty]]].
  - destruct (playable_items_converted s' (audio_queue s') Hq) as [Hall Hmap].
    destruct (worker_drains_queue _ s' Hpc Hstop Hall) as (m & t & _ & Hrun).
    exists (n + m)%nat. rewrite worker_steps_add. fold s'. rewrite Hrun.
    cbn [played audio_queue goto set_audio_thread set_now set_played set_audio_queue].
    split; [|reflexivity].
    rewrite Hmap, <- Htl. unfold timeline.
    rewrite (in_flight_at s' _ Hpc). reflexivity.
  - destruct Hserv' as [Hin|Hempty]; [contradiction|].
    exists n. fold s'. split; [|exact Hempty].
    rewrite <- Htl. unfold timeline.
    rewrite (in_flight_out_of_loop s' Hgone), Hempty. cbn [map].
    rewrite !app_nil_r. reflexivity.
  - exists n. fold s'. split; [|exact Hempty].
    rewrite <- Htl. unfold timeline.
    rewrite (in_flight_at s' _ Hpc), Hempty. cbn [map].
    rewrite !app_nil_r. reflexivity.
Qed.

(** A thread that has left its loop takes nothing from the queue and
    plays nothing; after one step it has ended. *)
Lemma worker_steps_out_of_loop (s : manager) :
  ~ in_loop s ->
  is_alive (worker_step s) = false /\
  forall n : nat,
    played (worker_steps n s) = played s /\
    audio_queue (worker_steps n s) = audio_queue s /\
    stop_audio_thread (worker_steps n s) = stop_audio_thread s /\
    same_config s (worker_steps n s).
Proof.
  intros Hout.
  assert (Hstep : is_alive (worker_step s) = false /\
                  played (worker_step s) = played s /\
                  audio_queue (worker_step s) = audio_queue s /\
                  stop_audio_thread (worker_step s) = stop_audio_thread s /\
                  same_config s (worker_step s)).
  { unfold in_loop in Hout. unfold worker_step, is_alive.
    destruct (audio_thread s) as [[| |c|c|c|end_time|cause|cause]|] eqn:Hpc;
      try (elim Hout; exact I); rewrite ?Hpc; repeat split. }
  destruct Hstep as (Hdead & Hp & Hq & Hstop & Hcfg).
  split; [exact Hdead|].
  intros [|n]; cbn [worker_steps]; [repeat split|].
  rewrite worker_steps_not_alive by exact Hdead.
  repeat split; (assumption || apply Hcfg).
Qed.

(** *** What a call forwards *)

Lemma run_app (a b : list action) :
  forall s : manager,
    run (a ++ b) s
    = match run a s with
      | Returned s' => run b s'
      | StillRunning s' => StillRunning s'
      end.
Proof.
  induction a as [|x a IH]; intros s; cbn [app run]; [reflexivity|].
  destruct (act x s) as [s'|s']; [apply IH | reflexivity].
Qed.

Lemma forwarded_app (a b : list action) :
  forall s : manager,
    forwarded (a ++ b) s
    = forwarded a s
      ++ match run a s with
         | Returned s' => forwarded b s'
         | StillRunning _ => []
         end.
Proof.
  induction a as [|x a IH]; intros s; cbn [app run forwarded]; [reflexivity|].
  destruct (act x s) as [s'|s']; [|reflexivity].
  rewrite IH, app_assoc. reflexivity.
Qed.

(** A call that returns has cut its data into frames, from the front,
    and appended exactly these to the queue. *)
Lemma call_frames (chunk : bytes) (rate : Z) (s s' : manager) :
  act (Call chunk rate) s = Returned s' ->
  exists frames : list bytes,
    add_chunk_data chunk s = concat frames ++ inner_chunk_buffer s' /\
    Forall (fun f => len f = chunk_size_bytes rate) frames /\
    len (inner_chunk_buffer s') < chunk_size_bytes rate /\
    appended s s' = map (fun f => (f, rate)) frames.
Proof.
  cbn [act]. intros Hrun.
  pose proof (add_chunk_returned_positive _ _ _ _ _ Hrun) as Hsize.
  destruct (add_chunk_positive chunk rate s _ Hsize (Nat.le_refl _))
    as (frames & rest & Hcut & Hall & Hrest & Hrun').
  rewrite Hrun in Hrun'. injection Hrun' as ->.
  exists frames.
  cbn [inner_chunk_buffer set_inner_chunk_buffer].
  split; [exact Hcut|]. split; [exact Hall|]. split; [exact Hrest|].
  unfold appended. cbn [audio_queue set_inner_chunk_buffer].
  rewrite enqueue_all_queue. apply appended_app.
Qed.

(** C6 (amended): take any schedule of [add_chunk] calls, pauses, delays
    and worker steps on a new manager, in which every frame forwarded can
    be converted and is accepted by the callback. Each call forwards the
    frames cut from the front of its data, whole frames of the frame size
    of its rate. At every moment the calls received by the callback, the
    chunk the worker holds and the queue make up, in this order, the
    converted frames in the order they were forwarded, each with
    [output_sample_rate]: nothing is lost, repeated or reordered. If a
    worker is in its loop (or the queue is empty), then left to run it
    empties the queue and brings the calls received to the whole list,
    one call per frame. If not (frames were enqueued while the thread,
    idle for more than ten seconds, was ending), the frames stay in the
    queue with no worker, and are played, before the new one, once the
    next enqueue has started a thread. The converted frame has exactly
    [chunk_size_bytes output_sample_rate] bytes when the source rate is
    the output rate, or is a multiple of 5 of which the output rate is an
    integer multiple (ratio > 1). *)
Theorem frames_reach_sink_in_order
    (acts : list action) (callback : bytes -> Z -> result unit)
    (sleep_time out t0 : Z) (s1 : manager) :
  run acts (init callback sleep_time out t0) = Returned s1 ->
  Forall (playable_item (init callback sleep_time out t0))
         (forwarded acts (init callback sleep_time out t0)) ->
  (forall (pre : list action) (chunk : bytes) (rate : Z) (post : list action),
     acts = pre ++ Call chunk rate :: post ->
     exists (s s' : manager) (frames : list bytes),
       run pre (init callback sleep_time out t0) = Returned s /\
       act (Call chunk rate) s = Returned s' /\
       add_chunk_data chunk s = concat frames ++ inner_chunk_buffer s' /\
       Forall (fun f => len f = chunk_size_bytes rate) frames /\
       len (inner_chunk_buffer s') < chunk_size_bytes rate /\
       forwarded (pre ++ [Call chunk rate]) (init callback sleep_time out t0)
       = forwarded pre (init callback sleep_time out t0)
         ++ map (fun f => (f, rate)) frames) /\
  whole_frames (forwarded acts (init callback sleep_time out t0)) /\
  played s1 ++ in_flight s1
  ++ map (converted (init callback sleep_time out t0)) (audio_queue s1)
  = map (converted (init callback sleep_time out t0))
        (forwarded acts (init callback sleep_time out t0)) /\
  (in_loop s1 \/ audio_queue s1 = [] ->
   exists n : nat,
     played (worker_steps n s1)
     = map (converted (init callback sleep_time out t0))
           (forwarded acts (init callback sleep_time out t0)) /\
     audio_queue (worker_steps n s1) = []) /\
  (~ in_loop s1 ->
   (forall n : nat,
      played (worker_steps n s1) = played s1 /\
      audio_queue (worker_steps n s1) = audio_queue s1) /\
   (forall (chunk : bytes) (rate : Z),
      playable_item (init callback sleep_time out t0) (chunk, rate) ->
      exists n : nat,
        played (worker_steps n (add_chunk_inner chunk rate (worker_step s1)))
        = map (converted (init callback sleep_time out t0))
              (forwarded acts (init callback sleep_time out t0) ++ [(chunk, rate)]) /\
        audio_queue (worker_steps n (add_chunk_inner chunk rate (worker_step s1)))
        = [])) /\
  Forall (fun item =>
            snd (converted (init callback sleep_time out t0) item) = out /\
            (snd item = out \/
             (snd item mod 5 = 0 /\ snd item <> 0 /\
              out mod snd item = 0 /\ 1 < out / snd item) ->
             len (fst (converted (init callback sleep_time out t0) item))
             = chunk_size_bytes out))
         (forwarded acts (init callback sleep_time out t0)).
Proof.
  set (s0 := init callback sleep_time out t0).
  intros Hrun Hall.
  assert (Hs0 : healthy s0).
  { repeat split; try constructor. }
  destruct (run_healthy acts s0 s1 Hs0 Hrun Hall) as (Hs1 & Htl & Hcfg & Hwhole).
  change (timeline s0) with (@nil (bytes * Z)) in Htl. cbn [app] in Htl.
  assert (Htl0 : played s1 ++ in_flight s1 ++ map (converted s0) (audio_queue s1)
                 = map (converted s0) (forwarded acts s0)).
  { rewrite <- Htl. unfold timeline. do 2 f_equal.
    apply map_ext. intros item. symmetry. apply same_config_converted. exact Hcfg. }
  split; [|split; [exact Hwhole|split; [exact Htl0|split; [|split]]]].
  - intros pre chunk rate post ->.
    rewrite run_app in Hrun.
    destruct (run pre s0) as [s|s] eqn:Hpre; [|discriminate].
    cbn [run] in Hrun.
    destruct (act (Call chunk rate) s) as [s'|s'] eqn:Hact; [|discriminate].
    destruct (call_frames chunk rate s s' Hact) as (frames & Hcut & Hlen & Hrest & Happ).
    exists s, s', frames.
    split; [reflexivity|]. split; [exact Hact|]. split; [exact Hcut|].
    split; [exact Hlen|]. split; [exact Hrest|].
    rewrite forwarded_app, Hpre. cbn [forwarded]. rewrite Hact, Happ, app_nil_r.
    reflexivity.
  - intros Hserv.
    destruct (worker_settles s1 Hs1 Hserv) as (n & Hp & Hq).
    exists n. rewrite Hp, Htl. split; [reflexivity | exact Hq].
  - intros Hout.
    destruct (worker_steps_out_of_loop s1 Hout) as (Hdead & Hstay).
    split; [intros n; split; apply (Hstay n)|].
    intros chunk rate Hitem.
    destruct (Hstay 1%nat) as (Hp1 & Hq1 & Hstop1 & Hcfg1). cbn [worker_steps] in *.
    set (s2 := worker_step s1) in *.
    rewrite (add_chunk_inner_spawns chunk rate s2 Hdead).
    set (s3 := _start_audio_thread _).
    assert (Hcfg3 : same_config s0 s3).
    { apply (same_config_trans _ _ _ Hcfg).
      apply (same_config_trans _ _ _ Hcfg1). repeat split. }
    assert (Hq3 : Forall (playable_item s3) (audio_queue s3)).
    { unfold s3. cbn [audio_queue _start_audio_thread set_audio_thread
                      set_stop_audio_thread set_last_chunk_time set_audio_queue].
      rewrite Hq1. apply Forall_app. split.
      - destruct Hs1 as (_ & _ & Hqs1).
        eapply Forall_impl; [|exact Hqs1].
        intros item. apply same_config_playable_item.
        apply (same_config_trans _ _ _ Hcfg1). repeat split.
      - constructor; [|constructor].
        apply (same_config_playable_item s0); assumption. }
    destruct (playable_items_converted s3 (audio_queue s3) Hq3) as [Hall3 Hmap3].
    destruct (worker_drains_queue _ s3 eq_refl eq_refl Hall3) as (n & t & _ & Hrun3).
    exists n. rewrite Hrun3.
    cbn [played audio_queue goto set_audio_thread set_now set_played set_audio_queue].
    split; [|reflexivity].
    rewrite Hmap3. unfold s3.
    cbn [played audio_queue _start_audio_thread set_audio_thread
         set_stop_audio_thread set_last_chunk_time set_audio_queue].
    rewrite Hp1, Hq1, !map_app, <- Htl0.
    rewrite (in_flight_out_of_loop s1 Hout). cbn [app].
    rewrite <- app_assoc. do 2 f_equal;
      apply map_ext; intros item; apply same_config_converted; exact Hcfg3.
  - pose proof (converted_frame_sizes s0 _ Hwhole Hall) as Hsizes.
    eapply Forall_impl; [|exact Hsizes].
    intros item Hsize. split; [reflexivity | exact Hsize].
Qed.

(** ** At most one live worker *)

Lemma upd_same {A : Type} (f : nat -> A) (i : nat) (x : A) : upd f i x i = x.
Proof. unfold upd. rewrite Nat.eqb_refl. reflexivity. Qed.

Lemma upd_other {A : Type} (f : nat -> A) (i j : nat) (x : A) :
  j <> i -> upd f i x j = f j.
Proof. intros H. unfold upd. apply Nat.eqb_neq in H. rewrite H. reflexivity. Qed.

Lemma upd_cases {A : Type} (f : nat -> A) (i j : nat) (x : A) :
  (j = i /\ upd f i x j = x) \/ (j <> i /\ upd f i x j = f j).
Proof.
  destruct (Nat.eq_dec j i) as [->|H].
  - left. split; [reflexivity | apply upd_same].
  - right. split; [exact H | apply upd_other; exact H].
Qed.

Lemma spawn_inv_init : spawn_inv spawn_init.
Proof.
  constructor; cbn; intros; try discriminate. lia.
Qed.

Lemma current_alive_running (s : spawn_state) (w : nat) :
  spawn_inv s -> current_alive s = false -> status s w <> Running.
Proof.
  intros Hinv Hdead Hrun.
  pose proof (inv_running s Hinv w Hrun) as Hcur.
  unfold current_alive in Hdead. rewrite Hcur, Hrun in Hdead. discriminate.
Qed.

(** A step that only moves caller [i] between two control points on the
    same side of the lock. *)
Lemma spawn_inv_move (s : spawn_state) (i : nat) (pc : caller_pc) :
  spawn_inv s ->
  in_critical pc = in_critical (callers s i) ->
  callers s i <> AtThreadStart ->
  spawn_inv (move i pc s).
Proof.
  intros Hinv Hside Hfrom. constructor; cbn.
  - intros j. destruct (upd_cases (callers s) i j pc) as [[-> ->]|[Hne ->]].
    + rewrite Hside. apply (inv_lock s Hinv).
    + apply (inv_lock s Hinv).
  - apply (inv_running s Hinv).
  - intros w Hw Hst. destruct (inv_unstarted s Hinv w Hw Hst) as [Hcur [j Hj]].
    split; [exact Hcur|]. exists j. rewrite upd_other; [exact Hj|].
    intros ->. contradiction.
Qed.

Lemma spawn_inv_leave_start (s : spawn_state) (i : nat) :
  spawn_inv s ->
  callers s i = AtThreadStart ->
  (forall w, (w < created s)%nat -> status s w = Unstarted -> False) ->
  spawn_inv (move i AtRelease s).
Proof.
  intros Hinv Hpc Hnone. constructor; cbn.
  - intros j. destruct (upd_cases (callers s) i j AtRelease) as [[-> ->]|[Hne ->]].
    + intros _. apply (inv_lock s Hinv). rewrite Hpc. reflexivity.
    + apply (inv_lock s Hinv).
  - apply (inv_running s Hinv).
  - intros w Hw Hst. exfalso. exact (Hnone w Hw Hst).
Qed.

Lemma caller_step_inv (i : nat) (s : spawn_state) :
  spawn_inv s -> spawn_inv (caller_step i s).
Proof.
  intros Hinv. unfold caller_step.
  destruct (callers s i) eqn:Hpc.
  - apply spawn_inv_move; [exact Hinv | rewrite Hpc; reflexivity | congruence].
  - destruct (current_alive s);
      (apply spawn_inv_move; [exact Hinv | rewrite Hpc; reflexivity | congruence]).
  - destruct (thread_lock s) as [holder|] eqn:Hlock; [exact Hinv|].
    assert (Hfree : forall j, in_critical (callers s j) = false).
    { intros j. destruct (in_critical (callers s j)) eqn:Hj; [|reflexivity].
      apply (inv_lock s Hinv) in Hj. congruence. }
    constructor; cbn.
    + intros j. destruct (upd_cases (callers s) i j AtSecondCheck) as [[-> ->]|[Hne ->]].
      * reflexivity.
      * rewrite Hfree. discriminate.
    + apply (inv_running s Hinv).
    + intros w Hw Hst. destruct (inv_unstarted s Hinv w Hw Hst) as [_ [j Hj]].
      specialize (Hfree j). rewrite Hj in Hfree. discriminate.
  - assert (Hmine : thread_lock s = Some i)
      by (apply (inv_lock s Hinv); rewrite Hpc; reflexivity).
    destruct (current_alive s) eqn:Halive.
    + apply spawn_inv_move; [exact Hinv | rewrite Hpc; reflexivity | congruence].
    + constructor; cbn.
      * intros j. destruct (upd_cases (callers s) i j AtThreadStart) as [[-> ->]|[Hne ->]].
        -- intros _. exact Hmine.
        -- apply (inv_lock s Hinv).
      * intros w. destruct (upd_cases (status s) (created s) w Unstarted)
          as [[-> ->]|[Hne ->]]; [discriminate|].
        intros Hrun. exfalso. exact (current_alive_running s w Hinv Halive Hrun).
      * intros w Hw. destruct (upd_cases (status s) (created s) w Unstarted)
          as [[-> ->]|[Hne ->]].
        -- intros _. split; [reflexivity|]. exists i. apply upd_same.
        -- intros Hst. exfalso.
           destruct (inv_unstarted s Hinv w) as [_ [j Hj]]; [lia | exact Hst |].
           assert (Hj' : thread_lock s = Some j)
             by (apply (inv_lock s Hinv); rewrite Hj; reflexivity).
           assert (j = i) by congruence. subst j. congruence.
  - assert (Hmine : thread_lock s = Some i)
      by (apply (inv_lock s Hinv); rewrite Hpc; reflexivity).
    destruct (current s) as [w|] eqn:Hcur.
    + destruct (status s w) eqn:Hw.
      * constructor; cbn.
        -- intros j. destruct (upd_cases (callers s) i j AtRelease) as [[-> ->]|[Hne ->]].
           ++ intros _. exact Hmine.
           ++ apply (inv_lock s Hinv).
        -- intros w'. destruct (upd_cases (status s) w w' Running)
             as [[-> ->]|[Hne ->]].
           ++ intros _. reflexivity.
           ++ intros Hrun. apply (inv_running s Hinv) in Hrun. congruence.
        -- intros w' Hw'. destruct (upd_cases (status s) w w' Running)
             as [[-> ->]|[Hne ->]]; [discriminate|].
           intros Hst. exfalso.
           destruct (inv_unstarted s Hinv w' Hw' Hst) as [Hcur' _]. congruence.
      * apply spawn_inv_leave_start; [exact Hinv | exact Hpc |].
        intros w' Hw' Hst.
        destruct (inv_unstarted s Hinv w' Hw' Hst) as [Hcur' _]. congruence.
      * apply spawn_inv_leave_start; [exact Hinv | exact Hpc |].
        intros w' Hw' Hst.
        destruct (inv_unstarted s Hinv w' Hw' Hst) as [Hcur' _]. congruence.
    + apply spawn_inv_leave_start; [exact Hinv | exact Hpc |].
      intros w' Hw' Hst.
      destruct (inv_unstarted s Hinv w' Hw' Hst) as [Hcur' _]. congruence.
  - assert (Hmine : thread_lock s = Some i)
      by (apply (inv_lock s Hinv); rewrite Hpc; reflexivity).
    constructor; cbn.
    + intros j. destruct (upd_cases (callers s) i j Outside) as [[-> ->]|[Hne ->]];
        [discriminate|].
      intros Hj. apply (inv_lock s Hinv) in Hj. congruence.
    + apply (inv_running s Hinv).
    + intros w Hw Hst. destruct (inv_unstarted s Hinv w Hw Hst) as [Hcur [j Hj]].
      split; [exact Hcur|]. exists j. rewrite upd_other; [exact Hj|].
      intros ->. congruence.
Qed.

Lemma thread_exit_inv (w : nat) (s : spawn_state) :
  spawn_inv s -> spawn_inv (thread_exit w s).
Proof.
  intros Hinv. unfold thread_exit.
  destruct (status s w) eqn:Hw; try exact Hinv.
  constructor; cbn.
  - apply (inv_lock s Hinv).
  - intros w'. destruct (upd_cases (status s) w w' Finished) as [[-> ->]|[Hne ->]];
      [discriminate | apply (inv_running s Hinv)].
  - intros w' Hw'. destruct (upd_cases (status s) w w' Finished) as [[-> ->]|[Hne ->]];
      [discriminate | apply (inv_unstarted s Hinv w' Hw')].
Qed.

Lemma spawn_run_inv (evs : list spawn_event) :
  forall s, spawn_inv s -> spawn_inv (fold_left spawn_step evs s).
Proof.
  induction evs as [|ev evs IH]; intros s Hinv; [exact Hinv|].
  cbn [fold_left]. apply IH.
  destruct ev; [apply caller_step_inv | apply thread_exit_inv]; exact Hinv.
Qed.

Lemma filter_at_most_one (f : nat -> bool) (l : list nat) :
  NoDup l ->
  (forall x y, f x = true -> f y = true -> x = y) ->
  (length (filter f l) <= 1)%nat.
Proof.
  intros Hnd Huniq. induction Hnd as [|x l Hx Hnd IH]; cbn; [lia|].
  destruct (f x) eqn:Hfx; [|exact IH].
  assert (Hnone : filter f l = []).
  { destruct (filter f l) as [|y l'] eqn:Hfl; [reflexivity|].
    assert (Hy : In y (filter f l)) by (rewrite Hfl; left; reflexivity).
    apply filter_In in Hy. destruct Hy as [Hy Hfy].
    rewrite (Huniq x y Hfx Hfy) in Hx. contradiction. }
  rewrite Hnone. cbn. lia.
Qed.

(** C9: whatever the interleaving of the callers of [add_chunk_inner]
    and of the ends of playback threads, at most one thread is alive at
    any moment. *)
Theorem spawn_at_most_one_worker (evs : list spawn_event) :
  (forall w1 w2 : nat,
     status (spawn_run evs) w1 = Running ->
     status (spawn_run evs) w2 = Running -> w1 = w2) /\
  (live_threads (spawn_run evs) <= 1)%nat.
Proof.
  pose proof (spawn_run_inv evs spawn_init spawn_inv_init) as Hinv.
  fold (spawn_run evs) in Hinv.
  assert (Huniq : forall w1 w2 : nat,
             status (spawn_run evs) w1 = Running ->
             status (spawn_run evs) w2 = Running -> w1 = w2).
  { intros w1 w2 H1 H2.
    apply (inv_running _ Hinv) in H1. apply (inv_running _ Hinv) in H2.
    congruence. }
  split; [exact Huniq|].
  unfold live_threads. apply filter_at_most_one; [apply seq_NoDup|].
  intros x y Hx Hy. apply Huniq.
  - destruct (status (spawn_run evs) x); (reflexivity || discriminate).
  - destruct (status (spawn_run evs) y); (reflexivity || discriminate).
Qed.

(** * Further properties of the manager *)

(** ** Pause gate: what remains of a pause *)

(** X1: [_remaining_pause_time] is never negative; after [pause_for d] it is
    the larger of what remained and [d], whatever the sign of [d]; and
    the passage of [e >= 0] microseconds takes [e] off it, down to
    zero. *)
Theorem remaining_pause_time_algebra (s : manager) (d e : Z) :
  0 <= e ->
  0 <= _remaining_pause_time s /\
  _remaining_pause_time (pause_for d s) = Z.max (_remaining_pause_time s) d /\
  _remaining_pause_time (time_sleep e s)
  = Z.max (_remaining_pause_time s - e) 0 /\
  (pause_until_timestamp s <= now s + e ->
   _remaining_pause_time (time_sleep e s) = 0).
Proof.
  intros He. unfold _remaining_pause_time.
  rewrite pause_for_deadline, pause_for_now.
  cbn [time_sleep pause_until_timestamp now set_now].
  destruct (Z.leb_spec d 0); repeat split; intros; lia.
Qed.

(** X2: requests made at the same instant can be made in any order, and a
    repeated request changes nothing. *)
Theorem pause_for_commutes (s : manager) (d1 d2 : Z) :
  pause_for d1 (pause_for d2 s) = pause_for d2 (pause_for d1 s) /\
  pause_for d1 (pause_for d1 s) = pause_for d1 s.
Proof.
  assert (Hset : forall a b, set_pause_until_timestamp a (set_pause_until_timestamp b s)
                             = set_pause_until_timestamp a s) by reflexivity.
  assert (Heq : forall d x, 0 < d ->
            pause_for d (set_pause_until_timestamp x s)
            = set_pause_until_timestamp (Z.max x (now s + d)) s).
  { intros d x Hd. rewrite pause_for_positive by exact Hd. reflexivity. }
  destruct (Z.leb_spec d1 0) as [H1|H1]; destruct (Z.leb_spec d2 0) as [H2|H2];
    rewrite ?(pause_for_nonpositive d1) by exact H1;
    rewrite ?(pause_for_nonpositive d2) by exact H2;
    try (split; reflexivity).
  - split; [reflexivity|].
    rewrite (pause_for_positive d1 s H1), Heq by exact H1.
    f_equal. lia.
  - rewrite (pause_for_positive d1 s H1), (pause_for_positive d2 s H2).
    rewrite !Heq by assumption.
    split; f_equal; lia.
Qed.

(** ** Worker timing *)

Lemma ceil_slices_zero (r : Z) :
  r <= 0 -> (Z.max r 0 + milliseconds 50 - 1) / milliseconds 50 + 1 = 1.
Proof.
  intros Hr. rewrite Z.max_r by lia. unfold milliseconds.
  rewrite Z.div_small; lia.
Qed.

Lemma ceil_slices_step (r : Z) :
  0 < r ->
  (Z.max r 0 + milliseconds 50 - 1) / milliseconds 50 + 1
  = Z.succ ((Z.max (r - Z.min r (milliseconds 50)) 0 + milliseconds 50 - 1)
            / milliseconds 50 + 1).
Proof.
  intros Hr. unfold milliseconds.
  destruct (Z.le_gt_cases r (50 * 1000)) as [Hle|Hgt].
  - rewrite Z.min_l by lia. rewrite (Z.max_l r 0) by lia.
    replace (r - r) with 0 by lia. rewrite (Z.max_r 0 0) by lia.
    rewrite (Z.div_small (0 + 50 * 1000 - 1)) by lia.
    replace (r + 50 * 1000 - 1) with ((r - 1) + 1 * (50 * 1000)) by lia.
    rewrite Z.div_add by lia. rewrite Z.div_small; lia.
  - rewrite Z.min_r by lia. rewrite !Z.max_l by lia.
    replace (r + 50 * 1000 - 1)
      with ((r - 50 * 1000 + 50 * 1000 - 1) + 1 * (50 * 1000)) by lia.
    rewrite Z.div_add by lia. lia.
Qed.

(** The wait of [_wait_if_paused], exactly: it ends when the clock shows
    the deadline (at once if the deadline is past), after one test per
    slice of 50 ms of the pause and a last one. *)
Lemma wait_if_paused_exact (c : bytes) (m : nat) :
  forall s : manager,
    audio_thread s = Some (AtWaitIfPaused c) ->
    stop_audio_thread s = false ->
    (Z.to_nat (pause_until_timestamp s - now s) <= m)%nat ->
    exists n : nat,
      worker_steps n s
      = goto (AtStopTest c)
          (set_now (Z.max (now s) (pause_until_timestamp s)) s) /\
      Z.of_nat n
      = (_remaining_pause_time s + milliseconds 50 - 1) / milliseconds 50 + 1.
Proof.
  assert (Hdone : forall s : manager,
             audio_thread s = Some (AtWaitIfPaused c) ->
             stop_audio_thread s = false ->
             pause_until_timestamp s - now s <= 0 ->
             exists n : nat,
               worker_steps n s
               = goto (AtStopTest c)
                   (set_now (Z.max (now s) (pause_until_timestamp s)) s) /\
               Z.of_nat n
               = (_remaining_pause_time s + milliseconds 50 - 1)
                 / milliseconds 50 + 1).
  { intros s Hpc Hstop Hle. exists 1%nat. split.
    - cbn [worker_steps]. unfold worker_step, _remaining_pause_time.
      rewrite Hpc, Hstop.
      destruct (Z.leb_spec (Z.max (pause_until_timestamp s - now s) 0) 0); [|lia].
      rewrite Z.max_l by lia. apply goto_set_now_same.
    - unfold _remaining_pause_time. rewrite ceil_slices_zero by exact Hle.
      reflexivity. }
  induction m as [|m IH]; intros s Hpc Hstop Hm.
  - apply Hdone; try assumption. lia.
  - destruct (Z.leb_spec (pause_until_timestamp s - now s) 0) as [Hle|Hgt].
    + apply Hdone; assumption.
    + set (r := pause_until_timestamp s - now s) in *.
      set (d := Z.min (Z.max r 0) (milliseconds 50)).
      assert (Hd : 1 <= d <= r) by (unfold d, milliseconds; lia).
      assert (Hstep : worker_step s = time_sleep d s).
      { unfold worker_step, _remaining_pause_time. rewrite Hpc, Hstop.
        fold r. destruct (Z.leb_spec (Z.max r 0) 0); [lia | reflexivity]. }
      destruct (IH (time_sleep d s)) as (n & Hrun & Hn).
      * exact Hpc.
      * exact Hstop.
      * cbn [time_sleep pause_until_timestamp now set_now]. fold r. lia.
      * exists (S n). split.
        -- cbn [worker_steps]. rewrite Hstep, Hrun.
           cbn [time_sleep pause_until_timestamp now set_now goto
                set_audio_thread].
           rewrite !Z.max_r by (unfold r in *; lia). reflexivity.
        -- rewrite Nat2Z.inj_succ, Hn. unfold _remaining_pause_time.
           cbn [time_sleep pause_until_timestamp now set_now]. fold r.
           rewrite (ceil_slices_step r Hgt).
           replace (pause_until_timestamp s - (now s + d)) with (r - d)
             by (unfold r; lia).
           unfold d. rewrite (Z.max_l r 0) by lia. reflexivity.
Qed.

(** X3: a pause holds the dequeued chunk until its deadline, and not longer:
    with the stop flag down, the worker leaves [_wait_if_paused] with the
    clock at the deadline (or where it was, if the deadline is past),
    having changed nothing else, after as many tests as the pause has
    slices of 50 ms, plus one. *)
Theorem wait_if_paused_resumes_at_deadline (s : manager) (c : bytes) :
  audio_thread s = Some (AtWaitIfPaused c) ->
  stop_audio_thread s = false ->
  exists n : nat,
    worker_steps n s
    = goto (AtStopTest c)
        (set_now (Z.max (now s) (pause_until_timestamp s)) s) /\
    Z.of_nat n
    = (_remaining_pause_time s + milliseconds 50 - 1) / milliseconds 50 + 1.
Proof.
  intros Hpc Hstop.
  apply (wait_if_paused_exact c (Z.to_nat (pause_until_timestamp s - now s)));
    [exact Hpc | exact Hstop | apply Nat.le_refl].
Qed.

(** The pacing sleep, left alone: it ends when the clock shows
    [end_time]. *)
Lemma sleep_with_interrupts_exact (end_time : Z) (m : nat) :
  forall s : manager,
    audio_thread s = Some (AtSleep end_time) ->
    stop_audio_thread s = false ->
    pause_until_timestamp s <= now s ->
    (Z.to_nat (end_time - now s) <= m)%nat ->
    exists n : nat,
      worker_steps n s = goto AtLoopTest (set_now (Z.max (now s) end_time) s).
Proof.
  assert (Hquiet : forall s : manager,
             pause_until_timestamp s <= now s ->
             (_remaining_pause_time s >? 0) = false).
  { intros s Hp. unfold _remaining_pause_time.
    destruct (Z.gtb_spec (Z.max (pause_until_timestamp s - now s) 0) 0);
      [lia | reflexivity]. }
  induction m as [|m IH]; intros s Hpc Hstop Hp Hm.
  - exists 1%nat. cbn [worker_steps]. unfold worker_step.
    rewrite Hpc, Hstop, (Hquiet s Hp).
    destruct (Z.leb_spec (end_time - now s) 0); [|lia].
    rewrite Z.max_l by lia. apply goto_set_now_same.
  - destruct (Z.leb_spec (end_time - now s) 0) as [Hle|Hgt].
    + exists 1%nat. cbn [worker_steps]. unfold worker_step.
      rewrite Hpc, Hstop, (Hquiet s Hp).
      destruct (Z.leb_spec (end_time - now s) 0); [|lia].
      rewrite Z.max_l by lia. apply goto_set_now_same.
    + set (d := Z.min (end_time - now s) (milliseconds 50)).
      assert (Hd : 1 <= d <= end_time - now s) by (unfold d, milliseconds; lia).
      assert (Hstep : worker_step s = time_sleep d s).
      { unfold worker_step. rewrite Hpc, Hstop, (Hquiet s Hp).
        destruct (Z.leb_spec (end_time - now s) 0); [lia | reflexivity]. }
      destruct (IH (time_sleep d s)) as (n & Hrun).
      * exact Hpc.
      * exact Hstop.
      * cbn [time_sleep pause_until_timestamp now set_now]. lia.
      * cbn [time_sleep now set_now]. lia.
      * exists (S n). cbn [worker_steps]. rewrite Hstep, Hrun.
        cbn [time_sleep now set_now goto set_audio_thread].
        rewrite !Z.max_r by lia. reflexivity.
Qed.

(** From the callback back to the loop test. *)
Lemma play_then_sleep_exact (s : manager) (c : bytes) :
  stop_audio_thread s = false ->
  audio_thread s = Some (AtPlay c) ->
  play_raw_audio_callback s c (output_sample_rate s) = Ok tt ->
  pause_until_timestamp s <= now s ->
  exists n : nat,
    worker_steps n s
    = goto AtLoopTest
        (set_now (now s + Z.max (Z.quot (sleep_time_between_chunks_seconds s) 10) 0)
           (set_played (played s ++ [(c, output_sample_rate s)]) s)).
Proof.
  intros Hstop Hpc Hsink Hquiet.
  set (total := Z.quot (sleep_time_between_chunks_seconds s) 10).
  assert (Hstep := worker_step_play s c Hpc). cbn zeta in Hstep.
  rewrite Hsink in Hstep. fold total in Hstep.
  destruct (Z.leb_spec total 0) as [Hle|Hgt].
  - exists 1%nat. cbn [worker_steps]. rewrite Hstep.
    rewrite Z.max_r by lia. rewrite Z.add_0_r.
    destruct s; reflexivity.
  - set (s1 := goto (AtSleep (now s + total))
                 (set_played (played s ++ [(c, output_sample_rate s)]) s)) in *.
    destruct (sleep_with_interrupts_exact (now s + total)
                (Z.to_nat (now s + total - now s1)) s1)
      as (n & Hrun); [reflexivity | exact Hstop | exact Hquiet | apply Nat.le_refl |].
    exists (S n). cbn [worker_steps]. rewrite Hstep, Hrun.
    unfold s1. cbn [now goto set_audio_thread set_played].
    rewrite Z.max_r by lia. rewrite (Z.max_l total 0) by lia. reflexivity.
Qed.

(** X4: pacing: after a callback that returns, with the stop flag down and no
    pause pending, the worker is back at the loop test exactly a tenth of
    [sleep_time_between_chunks_seconds] later (at once when that is not
    positive), with one more call on record and nothing else changed.
    If instead a pause is requested while it sleeps, its next test ends
    the sleep without waiting for the end time. *)
Theorem pacing_sleep_between_frames (s : manager) (c : bytes) (end_time d : Z) :
  stop_audio_thread s = false ->
  (audio_thread s = Some (AtPlay c) ->
   play_raw_audio_callback s c (output_sample_rate s) = Ok tt ->
   pause_until_timestamp s <= now s ->
   exists n : nat,
     worker_steps n s
     = goto AtLoopTest
         (set_now (now s + Z.max (Z.quot (sleep_time_between_chunks_seconds s) 10) 0)
            (set_played (played s ++ [(c, output_sample_rate s)]) s))) /\
  (audio_thread s = Some (AtSleep end_time) -> 0 < d ->
   worker_step (pause_for d s) = goto AtLoopTest (pause_for d s)).
Proof.
  intros Hstop. split.
  - intros Hpc Hsink Hquiet.
    apply play_then_sleep_exact; assumption.
  - intros Hpc Hd.
    assert (Hpc' : audio_thread (pause_for d s) = Some (AtSleep end_time)).
    { destruct (pause_for_cases d s) as [-> | ->]; exact Hpc. }
    assert (Hstop' : stop_audio_thread (pause_for d s) = false).
    { destruct (pause_for_cases d s) as [-> | ->]; exact Hstop. }
    unfold worker_step. rewrite Hpc', Hstop'.
    unfold _remaining_pause_time. rewrite pause_for_deadline, pause_for_now.
    destruct (Z.leb_spec d 0); [lia|].
    destruct (Z.gtb_spec (Z.max (Z.max (pause_until_timestamp s) (now s + d) - now s) 0) 0);
      [reflexivity | lia].
Qed.

(** ** What the worker touches *)

Ltac frame_of more gone :=
  refine (conj _ (conj _ (conj _ (conj _ (conj _ (conj _ (conj _ _)))))));
  [ reflexivity | reflexivity | reflexivity
  | first [reflexivity | cbn; congruence]
  | unfold same_config; refine (conj _ (conj _ _)); reflexivity
  | exists more; split; [cbn; rewrite ?app_nil_r; reflexivity | cbn; lia]
  | exists gone; split; [first [reflexivity | cbn; congruence] | cbn; lia]
  | cbn; unfold seconds, milliseconds in *; lia ].

Lemma worker_step_frame (s : manager) :
  inner_chunk_buffer (worker_step s) = inner_chunk_buffer s /\
  last_chunk_time (worker_step s) = last_chunk_time s /\
  pause_until_timestamp (worker_step s) = pause_until_timestamp s /\
  stop_audio_thread (worker_step s) = stop_audio_thread s /\
  same_config s (worker_step s) /\
  (exists more, played (worker_step s) = played s ++ more /\ (length more <= 1)%nat) /\
  (exists gone, audio_queue s = gone ++ audio_queue (worker_step s) /\
                (length gone <= 1)%nat) /\
  now s <= now (worker_step s).
Proof.
  unfold worker_step, on_exception, on_queue_empty, _remaining_pause_time.
  destruct (audio_thread s) as [[| |c|c|c|end_time|cause|cause]|] eqn:Hpc.
  - destruct (stop_audio_thread s) eqn:Hstop;
      frame_of (@nil (bytes * Z)) (@nil (bytes * Z)).
  - destruct (audio_queue s) as [|[chunk rate] rest] eqn:Hq.
    + destruct (_ && _); frame_of (@nil (bytes * Z)) (@nil (bytes * Z)).
    + destruct (upsample_chunk_to_output_sample_rate _ _ _) as [c|e];
        [|destruct e; try destruct (_ && _)];
        frame_of (@nil (bytes * Z)) [(chunk, rate)].
  - destruct (stop_audio_thread s) eqn:Hstop;
      [|destruct (Z.leb_spec (Z.max (pause_until_timestamp s - now s) 0) 0)];
      frame_of (@nil (bytes * Z)) (@nil (bytes * Z)).
  - destruct (stop_audio_thread s) eqn:Hstop;
      frame_of (@nil (bytes * Z)) (@nil (bytes * Z)).
  - cbn [played output_sample_rate set_played play_raw_audio_callback
         last_chunk_time now sleep_time_between_chunks_seconds].
    destruct (play_raw_audio_callback s c (output_sample_rate s)) as [u|e];
      [destruct (_ <=? 0)|destruct e; try destruct (_ && _)];
      frame_of [(c, output_sample_rate s)] (@nil (bytes * Z)).
  - destruct (stop_audio_thread s) eqn:Hstop;
      [|destruct (_ >? 0); [|destruct (Z.leb_spec (end_time - now s) 0)]];
      frame_of (@nil (bytes * Z)) (@nil (bytes * Z)).
  - frame_of (@nil (bytes * Z)) (@nil (bytes * Z)).
  - frame_of (@nil (bytes * Z)) (@nil (bytes * Z)).
  - frame_of (@nil (bytes * Z)) (@nil (bytes * Z)).
Qed.

Lemma worker_steps_played_prefix (n : nat) :
  forall s : manager, exists more, played (worker_steps n s) = played s ++ more.
Proof.
  induction n as [|n IH]; intros s; cbn [worker_steps].
  - exists []. symmetry. apply app_nil_r.
  - destruct (worker_step_frame s) as (_ & _ & _ & _ & _ & (m1 & A & _) & _).
    destruct (IH (worker_step s)) as (m2 & B).
    exists (m1 ++ m2). rewrite B, A, app_assoc. reflexivity.
Qed.

Lemma worker_touches_frame (n : nat) :
  forall s : manager,
    inner_chunk_buffer (worker_steps n s) = inner_chunk_buffer s /\
    last_chunk_time (worker_steps n s) = last_chunk_time s /\
    now s <= now (worker_steps n s).
Proof.
  induction n as [|n IH]; intros s; cbn [worker_steps].
  - repeat split; lia.
  - destruct (worker_step_frame s) as (A1 & A2 & _ & _ & _ & _ & _ & A3).
    destruct (IH (worker_step s)) as (B1 & B2 & B3).
    repeat split; (congruence || lia).
Qed.

Lemma worker_steps_same_config (n : nat) :
  forall s : manager, same_config s (worker_steps n s).
Proof.
  induction n as [|n IH]; intros s; cbn [worker_steps].
  - apply same_config_refl.
  - destruct (worker_step_frame s) as (_ & _ & _ & _ & A & _).
    apply (same_config_trans _ _ _ A (IH (worker_step s))).
Qed.

(** X5: the worker owns nothing of the accumulator or of the pause gate: any
    number of its steps leaves the buffer, the last-activity time, the
    pause deadline, the stop flag and the configuration as they were.
    What it does is take items off the front of the queue, add calls at
    the end of the record of the callback, at most one of each per step,
    and let time pass. *)
Theorem worker_touches_only_its_own (n : nat) (s : manager) :
  inner_chunk_buffer (worker_steps n s) = inner_chunk_buffer s /\
  last_chunk_time (worker_steps n s) = last_chunk_time s /\
  pause_until_timestamp (worker_steps n s) = pause_until_timestamp s /\
  stop_audio_thread (worker_steps n s) = stop_audio_thread s /\
  same_config s (worker_steps n s) /\
  (exists more, played (worker_steps n s) = played s ++ more /\ (length more <= n)%nat) /\
  (exists gone, audio_queue s = gone ++ audio_queue (worker_steps n s) /\
                (length gone <= n)%nat) /\
  now s <= now (worker_steps n s).
Proof.
  revert s. induction n as [|n IH]; intros s; cbn [worker_steps].
  - repeat split; try (exists []; cbn; rewrite ?app_nil_r; split; (reflexivity || lia)).
    lia.
  - destruct (worker_step_frame s)
      as (A1 & A2 & A3 & A4 & A5 & (m1 & A6 & L1) & (g1 & A7 & M1) & A8).
    destruct (IH (worker_step s))
      as (B1 & B2 & B3 & B4 & B5 & (m2 & B6 & L2) & (g2 & B7 & M2) & B8).
    split; [congruence|]. split; [congruence|]. split; [congruence|].
    split; [congruence|]. split; [apply (same_config_trans _ _ _ A5 B5)|].
    split; [|split].
    + exists (m1 ++ m2). rewrite B6, A6, <- app_assoc, length_app.
      split; [reflexivity | lia].
    + exists (g1 ++ g2). rewrite A7, B7, <- app_assoc, length_app.
      split; [reflexivity | lia].
    + lia.
Qed.

(** ** The pause gate *)

Lemma pause_gate_invariant (P : Z) (p0 : list (bytes * Z)) (s : manager) :
  P <= now s \/
  (played s = p0 /\ pause_until_timestamp s = P /\
   (before_gate s \/
    (stop_audio_thread s = true /\ exists c, audio_thread s = Some (AtStopTest c)))) ->
  P <= now (worker_step s) \/
  (played (worker_step s) = p0 /\ pause_until_timestamp (worker_step s) = P /\
   (before_gate (worker_step s) \/
    (stop_audio_thread (worker_step s) = true /\
     exists c, audio_thread (worker_step s) = Some (AtStopTest c)))).
Proof.
  intros [Hpast|(Hp & Hpause & Hpc)].
  - left. pose proof (worker_step_frame s) as (_ & _ & _ & _ & _ & _ & _ & Hnow). lia.
  - unfold worker_step, on_exception, on_queue_empty, _remaining_pause_time,
      before_gate in *.
    destruct (audio_thread s) as [[| |c|c|c|end_time|cause|cause]|] eqn:Hthr.
    + destruct (stop_audio_thread s); right; cbn; auto.
    + destruct (audio_queue s) as [|[chunk rate] rest].
      * destruct (_ && _); right; cbn; auto.
      * destruct (upsample_chunk_to_output_sample_rate _ _ _) as [c|e];
          [|destruct e; try destruct (_ && _)]; right; cbn; auto.
    + destruct (stop_audio_thread s) eqn:Hstop.
      * right. cbn. repeat split; try assumption.
        right. split; [exact Hstop | exists c; reflexivity].
      * destruct (Z.leb_spec (Z.max (pause_until_timestamp s - now s) 0) 0).
        -- left. cbn. lia.
        -- right. cbn. rewrite Hthr. auto.
    + destruct Hpc as [[]|[Hstop _]]. rewrite Hstop. right. cbn. auto.
    + destruct Hpc as [[]|[_ [c' Hc']]]. discriminate.
    + destruct (stop_audio_thread s); [|destruct (_ >? 0); [|destruct (_ <=? 0)]];
        right; cbn; rewrite ?Hthr; auto.
    + right. cbn. auto.
    + right. rewrite Hthr. auto.
    + right. rewrite Hthr. auto.
Qed.

Lemma pause_gate_invariant_steps (P : Z) (p0 : list (bytes * Z)) (n : nat) :
  forall s : manager,
    P <= now s \/
    (played s = p0 /\ pause_until_timestamp s = P /\
     (before_gate s \/
      (stop_audio_thread s = true /\ exists c, audio_thread s = Some (AtStopTest c)))) ->
    P <= now (worker_steps n s) \/
    (played (worker_steps n s) = p0 /\ pause_until_timestamp (worker_steps n s) = P /\
     (before_gate (worker_steps n s) \/
      (stop_audio_thread (worker_steps n s) = true /\
       exists c, audio_thread (worker_steps n s) = Some (AtStopTest c)))).
Proof.
  induction n as [|n IH]; intros s Hstart; cbn [worker_steps].
  - exact Hstart.
  - apply IH. apply pause_gate_invariant. exact Hstart.
Qed.

(** X6: while a pause is pending nothing is played: if the worker holds no
    chunk past the gate, then however many steps it takes, the callback
    receives nothing as long as the clock is short of the deadline. *)
Theorem pause_gate_holds_playback (s : manager) (n : nat) :
  before_gate s ->
  now (worker_steps n s) < pause_until_timestamp s ->
  played (worker_steps n s) = played s.
Proof.
  intros Hgate Hearly.
  destruct (pause_gate_invariant_steps (pause_until_timestamp s) (played s) n s)
    as [Hpast|(Hp & _)]; [right; auto | lia | exact Hp].
Qed.

(** A worker at its loop test with a convertible item at the head of the
    queue holds it at the gate until the pause deadline and has handed
    it to the callback at that very time. *)
Lemma worker_plays_head_at_deadline (s : manager) (chunk : bytes) (rate : Z)
    (rest : list (bytes * Z)) (c : bytes) :
  audio_thread s = Some AtLoopTest ->
  stop_audio_thread s = false ->
  audio_queue s = (chunk, rate) :: rest ->
  upsample_chunk_to_output_sample_rate (output_sample_rate s) chunk rate = Ok c ->
  exists n : nat,
    played (worker_steps n s) = played s ++ [(c, output_sample_rate s)] /\
    now (worker_steps n s) = Z.max (now s) (pause_until_timestamp s) /\
    audio_queue (worker_steps n s) = rest.
Proof.
  intros Hpc Hstop Hq Hconv.
  set (s2 := goto (AtWaitIfPaused c) (set_audio_queue rest s)).
  assert (H2 : worker_steps 2 s = s2).
  { cbn [worker_steps]. rewrite (worker_step_loop_test s Hpc), Hstop.
    rewrite (worker_step_get_item (goto AtGet s) chunk rate rest eq_refl Hq).
    cbn [output_sample_rate goto set_audio_thread]. rewrite Hconv.
    reflexivity. }
  destruct (wait_if_paused_exact c
              (Z.to_nat (pause_until_timestamp s2 - now s2)) s2)
    as (n & Hrun & _); [reflexivity | exact Hstop | lia |].
  exists (2 + n + 2)%nat.
  rewrite !worker_steps_add, H2, Hrun.
  set (s3 := goto (AtStopTest c) (set_now (Z.max (now s2) (pause_until_timestamp s2)) s2)).
  cbn [worker_steps].
  rewrite (worker_step_stop_test s3 c eq_refl).
  replace (stop_audio_thread s3) with false by (symmetry; exact Hstop).
  rewrite (worker_step_play (goto (AtPlay c) s3) c eq_refl).
  cbn [play_raw_audio_callback output_sample_rate sleep_time_between_chunks_seconds
       played now pause_until_timestamp goto set_audio_thread set_now
       set_audio_queue s2 s3].
  destruct (play_raw_audio_callback s c (output_sample_rate s)) as [u|e];
    [destruct (_ <=? 0) | destruct e; unfold on_exception, on_queue_empty;
                          try destruct (_ && _)];
    repeat split.
Qed.

(** X7: a chunk enqueued during a pause, when no thread is running and the
    queue is empty (a new manager, or one whose worker has exited): the
    callback receives nothing while the clock is short of the pause
    deadline, it never receives anything but that one converted chunk,
    once, and the worker has handed it over at exactly the deadline (at
    once if there is none pending).  With [d > 0] the deadline is at
    least [d] after the call of [pause_for]. *)
Theorem paused_chunk_played_once_at_deadline (s : manager) (d : Z)
    (chunk : bytes) (rate : Z) (c : bytes) :
  is_alive s = false ->
  audio_queue s = [] ->
  playable s (chunk, rate) c ->
  let s0 := add_chunk_inner chunk rate (pause_for d s) in
  let deadline := pause_until_timestamp (pause_for d s) in
  (0 < d -> now s + d <= deadline) /\
  (forall n, now (worker_steps n s0) < deadline ->
             played (worker_steps n s0) = played s) /\
  (forall n, played (worker_steps n s0) = played s \/
             played (worker_steps n s0) = played s ++ [(c, output_sample_rate s)]) /\
  (exists n, played (worker_steps n s0) = played s ++ [(c, output_sample_rate s)] /\
             now (worker_steps n s0) = Z.max (now s) deadline).
Proof.
  intros Hdead Hnil [Hconv Hsink] s0 deadline.
  cbn [fst snd] in Hconv.
  assert (Hs0 : s0 = _start_audio_thread
                       (set_last_chunk_time (now s)
                          (set_audio_queue [(chunk, rate)] (pause_for d s)))).
  { unfold s0. destruct (pause_for_cases d s) as [E|E]; rewrite E;
      (rewrite add_chunk_inner_spawns; [cbn; rewrite Hnil; reflexivity | exact Hdead]). }
  assert (Hcfg : same_config s (pause_for d s)).
  { destruct (pause_for_cases d s) as [E|E]; rewrite E; repeat split. }
  destruct Hcfg as (Hout & Hcb & Hsl).
  assert (Hplayed0 : played s0 = played s).
  { rewrite Hs0. destruct (pause_for_cases d s) as [E|E]; rewrite E; reflexivity. }
  assert (Hout0 : output_sample_rate s0 = output_sample_rate s)
    by (rewrite Hs0; exact Hout).
  assert (Hcb0 : play_raw_audio_callback s0 = play_raw_audio_callback s)
    by (rewrite Hs0; exact Hcb).
  assert (Hdl0 : pause_until_timestamp s0 = deadline) by (rewrite Hs0; reflexivity).
  assert (Hnow0 : now s0 = now s).
  { unfold s0. rewrite add_chunk_inner_now. apply pause_for_now. }
  assert (Hpc0 : audio_thread s0 = Some AtLoopTest) by (rewrite Hs0; reflexivity).
  assert (Hstop0 : stop_audio_thread s0 = false) by (rewrite Hs0; reflexivity).
  assert (Hq0 : audio_queue s0 = [(chunk, rate)]) by (rewrite Hs0; reflexivity).
  split; [|split; [|split]].
  - intros Hd. unfold deadline. rewrite pause_for_deadline.
    destruct (Z.leb_spec d 0); lia.
  - intros n Hearly. rewrite <- Hplayed0.
    destruct (pause_gate_invariant_steps deadline (played s0) n s0)
      as [Hpast|(Hp & _)]; [|lia | exact Hp].
    right. split; [reflexivity|]. split; [exact Hdl0|].
    left. unfold before_gate. rewrite Hpc0. exact I.
  - intros n.
    assert (Hhealthy : healthy s0).
    { unfold healthy. rewrite Hstop0, Hq0. unfold in_flight. rewrite Hpc0.
      split; [reflexivity|]. split.
      - constructor.
      - constructor; [|constructor].
        unfold playable_item, playable, converted. cbn [fst snd].
        rewrite Hout0, Hcb0, Hconv. split; [reflexivity | exact Hsink]. }
    destruct (worker_steps_healthy n s0 Hhealthy) as (_ & Htl & _).
    destruct (worker_steps_played_prefix n s0) as (more & Hmore).
    assert (Htl0 : timeline s0 = played s ++ [(c, output_sample_rate s)]).
    { unfold timeline, in_flight, converted. rewrite Hpc0, Hq0, Hplayed0, Hout0.
      cbn [map fst snd app]. rewrite Hconv. reflexivity. }
    rewrite Htl0 in Htl. unfold timeline in Htl.
    rewrite Hmore, Hplayed0, <- app_assoc in Htl.
    apply app_inv_head in Htl.
    rewrite Hmore, Hplayed0.
    destruct more as [|x more].
    + left. rewrite app_nil_r. reflexivity.
    + right. destruct more as [|y more].
      * cbn in Htl. injection Htl as -> _. reflexivity.
      * cbn in Htl. discriminate.
  - destruct (worker_plays_head_at_deadline s0 chunk rate [] c Hpc0 Hstop0 Hq0)
      as (n & Hp & Hn & _); [rewrite Hout0; exact Hconv|].
    exists n. rewrite Hp, Hn, Hplayed0, Hout0, Hnow0, Hdl0. split; reflexivity.
Qed.

(** ** How long [cleanup] takes *)

(** With the stop flag raised, time passes only in a [get] that was
    already waiting on an empty queue. *)
Lemma worker_step_stopping_clock (s : manager) :
  stop_audio_thread s = true ->
  now (worker_step s)
  + match audio_thread (worker_step s) with Some AtGet => seconds 1 | _ => 0 end
  <= now s + match audio_thread s with Some AtGet => seconds 1 | _ => 0 end.
Proof.
  intros Hstop. unfold worker_step, on_exception, on_queue_empty.
  destruct (audio_thread s) as [[| |c|c|c|end_time|cause|cause]|] eqn:Hpc;
    rewrite ?Hstop.
  - cbn. lia.
  - destruct (audio_queue s) as [|[chunk rate] rest].
    + destruct (_ && _); cbn; lia.
    + destruct (upsample_chunk_to_output_sample_rate _ _ _) as [c|e];
        [|destruct e; try destruct (_ && _)]; cbn; unfold seconds; lia.
  - cbn. lia.
  - cbn. lia.
  - cbn [played output_sample_rate set_played play_raw_audio_callback
         last_chunk_time now sleep_time_between_chunks_seconds].
    destruct (play_raw_audio_callback s c (output_sample_rate s)) as [u|e];
      [destruct (_ <=? 0)|destruct e; try destruct (_ && _)]; cbn; lia.
  - cbn. lia.
  - cbn. lia.
  - rewrite Hpc. lia.
  - rewrite Hpc. lia.
Qed.

Lemma worker_steps_stopping_clock (n : nat) :
  forall s : manager,
    stop_audio_thread s = true ->
    now (worker_steps n s)
    + match audio_thread (worker_steps n s) with Some AtGet => seconds 1 | _ => 0 end
    <= now s + match audio_thread s with Some AtGet => seconds 1 | _ => 0 end.
Proof.
  induction n as [|n IH]; intros s Hstop; cbn [worker_steps]; [lia|].
  destruct (worker_step_stopping s Hstop) as (H1 & _).
  pose proof (worker_step_stopping_clock s Hstop).
  pose proof (IH (worker_step s) H1). lia.
Qed.

Lemma join_steps (fuel : nat) :
  forall s s' : manager,
    join fuel s = Some s' -> exists n : nat, s' = worker_steps n s.
Proof.
  induction fuel as [|fuel IH]; intros s s' Hjoin; cbn [join] in Hjoin;
    destruct (is_alive s); try discriminate.
  - exists 0%nat. injection Hjoin as <-. reflexivity.
  - destruct (IH _ _ Hjoin) as (n & ->). exists (S n). reflexivity.
  - exists 0%nat. injection Hjoin as <-. reflexivity.
Qed.

(** X8: [cleanup] returns (the join needs at most four steps of the
    worker), and on the clock of the model, where only sleeps and the
    timeout of [get] take time, it returns within the one second of that
    timeout.  It leaves the accumulator as it was: the bytes buffered by
    [add_chunk] and the time of the last chunk survive it. *)
Theorem cleanup_returns_within_get_timeout (s : manager) (k fuel : nat) :
  (4 <= fuel)%nat ->
  exists s' : manager,
    cleanup k fuel s = Some s' /\
    now s <= now s' <= now s + seconds 1 /\
    inner_chunk_buffer s' = inner_chunk_buffer s /\
    last_chunk_time s' = last_chunk_time s.
Proof.
  intros Hfuel. unfold cleanup.
  set (s1 := set_stop_audio_thread true s).
  destruct (worker_steps_stopping k s1 eq_refl) as (H1 & _).
  pose proof (worker_steps_stopping_clock k s1 eq_refl) as Hclock1.
  destruct (worker_touches_frame k s1) as (B1 & L1 & N1).
  set (s2 := worker_steps k s1) in *.
  destruct (join_stopping fuel (set_audio_queue [] s2))
    as (s3 & J1 & _);
    [exact H1 | reflexivity
     | pose proof (steps_to_exit_bound (set_audio_queue [] s2)); lia |].
  rewrite J1. eexists. split; [reflexivity|].
  destruct (join_steps _ _ _ J1) as (n & ->).
  pose proof (worker_steps_stopping_clock n (set_audio_queue [] s2) H1) as Hclock2.
  destruct (worker_touches_frame n (set_audio_queue [] s2)) as (B2 & L2 & N2).
  cbn [now inner_chunk_buffer last_chunk_time audio_thread
       set_pause_until_timestamp set_audio_queue] in *.
  change (now s1) with (now s) in *.
  change (audio_thread s1) with (audio_thread s) in *.
  assert (Hge : 0 <= match audio_thread
                        (worker_steps n (set_audio_queue [] s2)) with
                     | Some AtGet => seconds 1 | _ => 0 end)
    by (destruct (audio_thread (worker_steps n (set_audio_queue [] s2))) as [[]|];
        unfold seconds; lia).
  assert (Hge2 : 0 <= match audio_thread s2 with
                      | Some AtGet => seconds 1 | _ => 0 end)
    by (destruct (audio_thread s2) as [[]|]; unfold seconds; lia).
  split; [|split].
  - destruct (audio_thread s) as [[]|]; unfold seconds in *; lia.
  - rewrite B2. exact B1.
  - rewrite L2. exact L1.
Qed.

(** X9: the manager can be used again after [cleanup], and [cleanup] cancels
    a pending pause: a chunk enqueued afterwards starts a new thread with
    the stop flag down, and the worker hands it to the callback without
    waiting, whatever pause was requested before.  (The clock reads a
    time after the epoch, which is what the reset deadline 0 stands
    for.) *)
Theorem chunk_after_cleanup_played_at_once (s : manager) (k fuel : nat)
    (chunk : bytes) (rate : Z) (c : bytes) :
  (4 <= fuel)%nat ->
  0 <= now s ->
  playable s (chunk, rate) c ->
  exists s' : manager,
    cleanup k fuel s = Some s' /\
    audio_thread (add_chunk_inner chunk rate s') = Some AtLoopTest /\
    stop_audio_thread (add_chunk_inner chunk rate s') = false /\
    exists n : nat,
      played (worker_steps n (add_chunk_inner chunk rate s'))
      = played s' ++ [(c, output_sample_rate s)] /\
      now (worker_steps n (add_chunk_inner chunk rate s')) = now s' /\
      audio_queue (worker_steps n (add_chunk_inner chunk rate s')) = [].
Proof.
  intros Hfuel Hepoch [Hconv Hsink]. cbn [fst snd] in Hconv. unfold cleanup.
  set (s1 := set_stop_audio_thread true s).
  destruct (worker_steps_stopping k s1 eq_refl) as (H1 & _).
  pose proof (worker_steps_same_config k s1) as (C1 & _).
  destruct (worker_touches_frame k s1) as (_ & _ & N1).
  set (s2 := worker_steps k s1) in *.
  destruct (join_stopping fuel (set_audio_queue [] s2))
    as (s3 & J1 & J2 & _ & J4 & _);
    [exact H1 | reflexivity
     | pose proof (steps_to_exit_bound (set_audio_queue [] s2)); lia |].
  rewrite J1.
  destruct (join_steps _ _ _ J1) as (m & Hs3).
  pose proof (worker_steps_same_config m (set_audio_queue [] s2)) as (C2 & _).
  destruct (worker_touches_frame m (set_audio_queue [] s2)) as (_ & _ & N2).
  rewrite <- Hs3 in C2, N2.
  set (s' := set_pause_until_timestamp 0 s3).
  assert (Hout : output_sample_rate s' = output_sample_rate s).
  { change (output_sample_rate s') with (output_sample_rate s3).
    rewrite C2. exact C1. }
  assert (Hnow : 0 <= now s').
  { change (now s') with (now s3). change (now s1) with (now s) in N1.
    change (now (set_audio_queue [] s2)) with (now s2) in N2. lia. }
  assert (Hdead : is_alive s' = false) by exact J2.
  assert (Hq : audio_queue s' = []) by exact J4.
  exists s'. split; [reflexivity|].
  rewrite (add_chunk_inner_spawns chunk rate s' Hdead), Hq.
  set (s0 := _start_audio_thread _).
  split; [reflexivity|]. split; [reflexivity|].
  destruct (worker_plays_head_at_deadline s0 chunk rate [] c)
    as (n & Hp & Hn & Hrest);
    [reflexivity | reflexivity | reflexivity
     | change (output_sample_rate s0) with (output_sample_rate s');
       rewrite Hout; exact Hconv |].
  exists n. rewrite Hp, Hn, Hrest.
  change (played s0) with (played s').
  change (output_sample_rate s0) with (output_sample_rate s').
  change (now s0) with (now s').
  change (pause_until_timestamp s0) with 0.
  rewrite Hout. repeat split. lia.
Qed.

(** ** Conversions in a row *)

Lemma np_repeat_repeat (samples : list int16) (a b : Z) :
  0 <= a -> 0 <= b ->
  np_repeat (np_repeat samples a) b = np_repeat samples (a * b).
Proof.
  intros Ha Hb. unfold np_repeat.
  rewrite (Z2Nat.inj_mul a b Ha Hb).
  generalize (Z.to_nat a) (Z.to_nat b). intros na nb.
  induction samples as [|x samples IH]; [reflexivity|].
  cbn [flat_map]. rewrite flat_map_app, IH. f_equal.
  clear IH. induction na as [|na IH]; [reflexivity|].
  cbn [repeat flat_map Nat.mul]. rewrite IH. symmetry. apply repeat_app.
Qed.

(** X10: conversions by integer ratios compose: bringing a chunk from rate
    [r] to [r * a] and the result from there to [r * a * b] is the same,
    result or exception, as bringing it from [r] to [r * a * b] at once.
    The library routine plays no part. *)
Theorem upsample_integer_ratios_compose (r a b : Z) (chunk : bytes) :
  r <> 0 -> 1 < a -> 1 < b ->
  (c <- upsample_chunk_to_output_sample_rate (r * a) chunk r ;;
   upsample_chunk_to_output_sample_rate (r * a * b) c (r * a))
  = upsample_chunk_to_output_sample_rate (r * a * b) chunk r.
Proof.
  intros Hr Ha Hb.
  assert (Hra : r * a <> 0) by nia.
  assert (E1 : r <> r * a) by nia.
  assert (E2 : r * a <> r * a * b) by nia.
  assert (E3 : r <> r * a * b) by nia.
  assert (M1 : (r * a) mod r = 0) by (rewrite Z.mul_comm; apply Z_mod_mult).
  assert (M2 : (r * a * b) mod (r * a) = 0) by (rewrite Z.mul_comm; apply Z_mod_mult).
  assert (M3 : (r * a * b) mod r = 0).
  { replace (r * a * b) with (a * b * r) by ring. apply Z_mod_mult. }
  assert (D1 : r * a / r = a) by (rewrite Z.mul_comm; apply Z.div_mul; exact Hr).
  assert (D2 : r * a * b / (r * a) = b) by (rewrite Z.mul_comm; apply Z.div_mul; exact Hra).
  assert (D3 : r * a * b / r = a * b).
  { replace (r * a * b) with (a * b * r) by ring. apply Z.div_mul. exact Hr. }
  destruct (np_frombuffer_int16 chunk) as [samples|e] eqn:Hs.
  - rewrite (upsample_integer_ratio (r * a) chunk r samples E1 Hr M1) by (lia || exact Hs).
    rewrite (upsample_integer_ratio (r * a * b) chunk r samples E3 Hr M3)
      by (nia || exact Hs).
    cbn [bind].
    rewrite (upsample_integer_ratio (r * a * b) _ (r * a) (np_repeat samples (r * a / r))
               E2 Hra M2) by (lia || apply np_frombuffer_tobytes).
    rewrite D1, D2, D3, np_repeat_repeat by lia. reflexivity.
  - rewrite (upsample_integer_ratio_raise (r * a) chunk r e E1 Hr M1) by (lia || exact Hs).
    rewrite (upsample_integer_ratio_raise (r * a * b) chunk r e E3 Hr M3)
      by (nia || exact Hs).
    reflexivity.
Qed.

(** X11: when the conversion fails without the library routine being called:
    a source rate of zero that is not the output rate is a division by
    zero; and with the output rate an integer multiple (ratio > 1) of
    the source rate the conversion succeeds exactly on the chunks of
    even length, a chunk of odd length being refused by [np.frombuffer]. *)
Theorem upsample_chunk_failures (out : Z) (chunk : bytes) (rate : Z) :
  (rate = 0 -> out <> 0 ->
   upsample_chunk_to_output_sample_rate out chunk rate = Raise ZeroDivisionError) /\
  (rate <> 0 -> out mod rate = 0 -> 1 < out / rate ->
   ((exists c, upsample_chunk_to_output_sample_rate out chunk rate = Ok c)
    <-> Nat.Even (length chunk)) /\
   (Nat.Odd (length chunk) ->
    upsample_chunk_to_output_sample_rate out chunk rate = Raise ValueError)).
Proof.
  split.
  - intros -> Hout. unfold upsample_chunk_to_output_sample_rate, py_floordiv.
    destruct (Z.eqb_spec 0 out); [congruence | reflexivity].
  - intros H0 Hmod Hratio.
    assert (Hne : rate <> out).
    { intros ->. rewrite Z.div_same in Hratio by exact H0. lia. }
    assert (Hodd : Nat.Odd (length chunk) ->
                   upsample_chunk_to_output_sample_rate out chunk rate
                   = Raise ValueError).
    { intros Ho. apply upsample_integer_ratio_raise; try assumption.
      apply np_frombuffer_odd. exact Ho. }
    split; [split|exact Hodd].
    + intros [c Hc].
      destruct (Nat.Even_or_Odd (length chunk)) as [He|Ho]; [exact He|].
      rewrite (Hodd Ho) in Hc. discriminate.
    + intros He. destruct (np_frombuffer_even chunk He) as [samples Hs].
      eexists. apply upsample_integer_ratio; eassumption.
Qed.

(** ** The framing does not depend on how the caller cuts the stream *)

Lemma app_inj_length {A : Type} (x y a b : list A) :
  length x = length y -> x ++ a = y ++ b -> x = y /\ a = b.
Proof.
  revert y. induction x as [|h x IH]; intros [|h' y] Hlen Heq;
    try discriminate.
  - split; [reflexivity | exact Heq].
  - cbn in Hlen, Heq. injection Heq as -> Heq.
    destruct (IH y) as [-> ->]; [lia | exact Heq | split; reflexivity].
Qed.

Lemma framing_unique (size : Z) (f1 : list bytes) :
  0 < size ->
  forall (f2 : list bytes) (r1 r2 : bytes),
    Forall (fun f => len f = size) f1 ->
    Forall (fun f => len f = size) f2 ->
    len r1 < size -> len r2 < size ->
    concat f1 ++ r1 = concat f2 ++ r2 ->
    f1 = f2 /\ r1 = r2.
Proof.
  intros Hsize. unfold len.
  induction f1 as [|x f1 IH]; intros [|y f2] r1 r2 H1 H2 L1 L2 Heq.
  - split; [reflexivity | exact Heq].
  - exfalso. inversion H2 as [|? ? Hy _]; subst.
    cbn [concat app] in Heq. rewrite Heq, <- app_assoc, length_app in L1. lia.
  - exfalso. inversion H1 as [|? ? Hx _]; subst.
    cbn [concat app] in Heq. rewrite <- Heq, <- app_assoc, length_app in L2. lia.
  - inversion H1 as [|? ? Hx H1']; subst. inversion H2 as [|? ? Hy H2']; subst.
    cbn [concat] in Heq. rewrite <- !app_assoc in Heq.
    assert (Hxy : length x = length y) by lia.
    destruct (app_inj_length _ _ _ _ Hxy Heq) as [-> Heq'].
    destruct (IH f2 r1 r2 H1' H2' L1 L2 Heq') as [-> ->].
    split; reflexivity.
Qed.

(** X12: the frames depend on the bytes of the stream, not on the chunks it
    arrives in: handing over [c1] and then, at most 150 ms later, [c2]
    leaves the same queue and the same residue as handing over
    [c1 ++ c2] in one call (at a rate of positive frame size, with no
    step of the worker in between). *)
Theorem add_chunk_split_invariant (c1 c2 : bytes) (rate : Z) (s : manager)
    (e : Z) (fuel : nat) :
  0 < chunk_size_bytes rate ->
  0 <= e <= milliseconds 150 ->
  (length (inner_chunk_buffer s) + length c1 + length c2 <= fuel)%nat ->
  exists s1 s2 s12 : manager,
    add_chunk fuel c1 rate s = Returned s1 /\
    add_chunk fuel c2 rate (time_sleep e s1) = Returned s2 /\
    add_chunk fuel (c1 ++ c2) rate s = Returned s12 /\
    audio_queue s2 = audio_queue s12 /\
    inner_chunk_buffer s2 = inner_chunk_buffer s12.
Proof.
  intros Hsize He Hfuel.
  destruct (add_chunk_positive c1 rate s fuel Hsize)
    as (f1 & r1 & Hcut1 & Hall1 & Hr1 & Hrun1); [lia|].
  set (s1 := set_inner_chunk_buffer r1 _) in Hrun1.
  assert (Hlen1 : (length r1 <= length (inner_chunk_buffer s) + length c1)%nat).
  { apply (f_equal (@length byte)) in Hcut1. unfold add_chunk_data in Hcut1.
    rewrite !length_app in Hcut1. destruct (_ >? _); cbn [length] in Hcut1; lia. }
  destruct (add_chunk_positive c2 rate (time_sleep e s1) fuel Hsize)
    as (f2 & r2 & Hcut2 & Hall2 & Hr2 & Hrun2).
  { change (inner_chunk_buffer (time_sleep e s1)) with r1. lia. }
  destruct (add_chunk_positive (c1 ++ c2) rate s fuel Hsize)
    as (f & r & Hcut & Hall & Hr & Hrun); [rewrite length_app; lia|].
  exists s1. eexists. eexists.
  split; [exact Hrun1|]. split; [exact Hrun2|]. split; [exact Hrun|].
  assert (Hfresh : add_chunk_data c2 (time_sleep e s1) = r1 ++ c2).
  { unfold add_chunk_data, time_sleep.
    cbn [now last_chunk_time inner_chunk_buffer set_now].
    assert (Hlast : last_chunk_time s1 = now s1).
    { unfold s1. cbn [last_chunk_time now set_inner_chunk_buffer].
      rewrite enqueue_all_last_chunk_time, enqueue_all_now; reflexivity. }
    rewrite Hlast.
    destruct (Z.gtb_spec (now s1 + e - now s1) (milliseconds 150)); [lia|].
    reflexivity. }
  rewrite Hfresh in Hcut2.
  assert (Hsame : f = f1 ++ f2 /\ r = r2).
  { apply (framing_unique (chunk_size_bytes rate)); try assumption.
    - apply Forall_app. split; assumption.
    - rewrite <- Hcut. unfold add_chunk_data in *.
      rewrite app_assoc, Hcut1, concat_app, <- !app_assoc, Hcut2. reflexivity. }
  destruct Hsame as [-> ->].
  cbn [audio_queue inner_chunk_buffer set_inner_chunk_buffer].
  split; [|reflexivity].
  rewrite !enqueue_all_queue.
  cbn [audio_queue time_sleep set_now set_last_chunk_time]. unfold s1.
  cbn [audio_queue set_inner_chunk_buffer]. rewrite enqueue_all_queue.
  cbn [audio_queue set_last_chunk_time].
  rewrite map_app, app_assoc. reflexivity.
Qed.

(** ** How long playback takes *)

(** One round of the loop on a playable item, with no pause pending. *)
Lemma worker_round_exact (s : manager) (chunk : bytes) (rate : Z)
    (rest : list (bytes * Z)) (c : bytes) :
  audio_thread s = Some AtLoopTest ->
  stop_audio_thread s = false ->
  audio_queue s = (chunk, rate) :: rest ->
  upsample_chunk_to_output_sample_rate (output_sample_rate s) chunk rate = Ok c ->
  play_raw_audio_callback s c (output_sample_rate s) = Ok tt ->
  pause_until_timestamp s <= now s ->
  exists n : nat,
    worker_steps n s
    = goto AtLoopTest
        (set_now (now s + Z.max (Z.quot (sleep_time_between_chunks_seconds s) 10) 0)
           (set_played (played s ++ [(c, output_sample_rate s)])
              (set_audio_queue rest s))).
Proof.
  intros Hpc Hstop Hq Hconv Hsink Hquiet.
  set (s4 := goto (AtPlay c) (set_audio_queue rest s)).
  set (s2 := goto (AtWaitIfPaused c) (set_audio_queue rest s)).
  set (s3 := goto (AtStopTest c) (set_audio_queue rest s)).
  assert (H2 : worker_steps 2 s = s2).
  { cbn [worker_steps]. rewrite (worker_step_loop_test s Hpc), Hstop.
    rewrite (worker_step_get_item (goto AtGet s) chunk rate rest eq_refl Hq).
    cbn [output_sample_rate goto set_audio_thread]. rewrite Hconv.
    reflexivity. }
  assert (H3 : worker_step s2 = s3).
  { unfold worker_step, _remaining_pause_time, s2.
    cbn [audio_thread stop_audio_thread pause_until_timestamp now goto
         set_audio_thread set_audio_queue].
    rewrite Hstop.
    destruct (Z.leb_spec (Z.max (pause_until_timestamp s - now s) 0) 0); [|lia].
    reflexivity. }
  assert (H4 : worker_steps 4 s = s4).
  { change 4%nat with (2 + 2)%nat. rewrite worker_steps_add, H2.
    cbn [worker_steps]. rewrite H3.
    rewrite (worker_step_stop_test s3 c eq_refl).
    replace (stop_audio_thread s3) with false by (symmetry; exact Hstop).
    reflexivity. }
  destruct (play_then_sleep_exact s4 c Hstop eq_refl Hsink Hquiet) as (n & Hrun).
  exists (4 + n)%nat. rewrite worker_steps_add, H4, Hrun. reflexivity.
Qed.

(** X13: playback at the pace of the manager: a worker at its loop test, with
    the stop flag down, no pause pending and a queue of playable items,
    has emptied the queue, calling the callback once per item in order,
    after exactly one tenth of [sleep_time_between_chunks_seconds] per
    item (no time at all when that setting is not positive); nothing
    else of the manager has changed. *)
Theorem queue_played_at_the_pace (cs : list bytes) :
  forall s : manager,
    audio_thread s = Some AtLoopTest ->
    stop_audio_thread s = false ->
    pause_until_timestamp s <= now s ->
    Forall2 (playable s) (audio_queue s) cs ->
    exists n : nat,
      worker_steps n s
      = goto AtLoopTest
          (set_now (now s
                    + len cs * Z.max (Z.quot (sleep_time_between_chunks_seconds s) 10) 0)
             (set_played (played s ++ map (fun c => (c, output_sample_rate s)) cs)
                (set_audio_queue [] s))).
Proof.
  induction cs as [|c cs IH]; intros s Hpc Hstop Hquiet Hall.
  - inversion Hall as [Hq|]. exists 0%nat.
    cbn [worker_steps map]. rewrite app_nil_r.
    unfold len. cbn [length Z.of_nat]. rewrite Z.mul_0_l, Z.add_0_r.
    destruct s; cbn in *. subst. reflexivity.
  - inversion Hall as [|[chunk rate] c' rest cs' [Hconv Hsink] Hrest Hq Hcs];
      subst c' cs'.
    symmetry in Hq. cbn [fst snd] in Hconv.
    destruct (worker_round_exact s chunk rate rest c Hpc Hstop Hq Hconv Hsink Hquiet)
      as (n1 & Hrun1).
    match type of Hrun1 with _ = ?x => set (s1 := x) in * end.
    assert (Hpace : 0 <= Z.max (Z.quot (sleep_time_between_chunks_seconds s) 10) 0)
      by lia.
    destruct (IH s1) as (n2 & Hrun2);
      [reflexivity | exact Hstop
      | cbn [s1 now pause_until_timestamp goto set_audio_thread set_now set_played
             set_audio_queue]; lia
      | exact Hrest |].
    exists (n1 + n2)%nat.
    rewrite worker_steps_add, Hrun1, Hrun2. unfold s1.
    cbn [played output_sample_rate sleep_time_between_chunks_seconds now goto
         set_audio_thread set_now set_played set_audio_queue map].
    rewrite <- app_assoc.
    replace (len (c :: cs)) with (1 + len cs) by (unfold len; cbn [length]; lia).
    cbn [app].
    match goal with
    | |- goto _ (set_now ?a _) = goto _ (set_now ?b _) =>
        replace a with b by ring
    end.
    reflexivity.
Qed.

(** ** How long an idle worker lives *)

Lemma idle_wait_rounds (m : nat) :
  forall s : manager,
    audio_thread s = Some AtGet ->
    audio_queue s = [] ->
    stop_audio_thread s = false ->
    now s + seconds (Z.of_nat m) - last_chunk_time s <= seconds 10 ->
    worker_steps (2 * m) s = set_now (now s + seconds (Z.of_nat m)) s.
Proof.
  induction m as [|m IH]; intros s Hpc Hq Hstop Hidle.
  - cbn [Nat.mul worker_steps].
    replace (now s + seconds (Z.of_nat 0)) with (now s) by (unfold seconds; lia).
    destruct s; reflexivity.
  - replace (2 * S m)%nat with (2 + 2 * m)%nat by lia.
    rewrite worker_steps_add.
    assert (H2 : worker_steps 2 s = goto AtGet (time_sleep (seconds 1) s)).
    { cbn [worker_steps]. rewrite (worker_step_get_empty s Hpc Hq).
      destruct (Z.gtb_spec (now s + seconds 1 - last_chunk_time s) (seconds 10))
        as [Hgt|_]; [unfold seconds in *; lia|].
      rewrite andb_false_r.
      rewrite (worker_step_loop_test (goto AtLoopTest (time_sleep (seconds 1) s)) eq_refl).
      cbn [stop_audio_thread goto time_sleep set_audio_thread set_now].
      rewrite Hstop. reflexivity. }
    rewrite H2, IH;
      [| reflexivity | exact Hq | exact Hstop
       | cbn [now last_chunk_time goto time_sleep set_audio_thread set_now];
         unfold seconds in *; lia].
    unfold goto, time_sleep, set_now, set_audio_thread.
    cbn [play_raw_audio_callback sleep_time_between_chunks_seconds audio_queue
         audio_thread stop_audio_thread last_chunk_time output_sample_rate
         inner_chunk_buffer pause_until_timestamp now played].
    rewrite <- Hpc. f_equal. unfold seconds. lia.
Qed.

Lemma idle_worker_rounds (s : manager) (m : nat) :
  audio_thread s = Some AtGet ->
  audio_queue s = [] ->
  stop_audio_thread s = false ->
  last_chunk_time s <> 0 ->
  now s + seconds (Z.of_nat m) - last_chunk_time s <= seconds 10 ->
  seconds 10 < now s + seconds (Z.of_nat m + 1) - last_chunk_time s ->
  (forall n : nat, (n <= 2 * m + 1)%nat -> is_alive (worker_steps n s) = true) /\
  worker_steps (2 * m + 1) s
  = leave_loop None (set_now (now s + seconds (Z.of_nat m + 1)) s) /\
  worker_steps (2 * m + 2) s
  = exit_thread None (set_now (now s + seconds (Z.of_nat m + 1)) s).
Proof.
  intros Hpc Hq Hstop Hlast Hidle Hover.
  assert (Heven : forall k : nat, (k <= m)%nat ->
            worker_steps (2 * k) s = set_now (now s + seconds (Z.of_nat k)) s).
  { intros k Hk. apply idle_wait_rounds; try assumption.
    unfold seconds in *. lia. }
  assert (Hleave : worker_steps (2 * m + 1) s
                   = leave_loop None (set_now (now s + seconds (Z.of_nat m + 1)) s)).
  { rewrite worker_steps_add, Heven by lia. cbn [worker_steps].
    rewrite worker_step_get_empty by (cbn [audio_thread audio_queue set_now]; assumption).
    cbn [now last_chunk_time set_now].
    destruct (Z.eqb_spec (last_chunk_time s) 0) as [|_]; [contradiction|].
    destruct (Z.gtb_spec (now s + seconds (Z.of_nat m) + seconds 1 - last_chunk_time s)
                         (seconds 10)) as [_|Hle];
      [|unfold seconds in *; lia].
    cbn [negb andb].
    unfold leave_loop, goto, time_sleep, set_now, set_audio_thread.
    cbn [play_raw_audio_callback sleep_time_between_chunks_seconds audio_queue
         audio_thread stop_audio_thread last_chunk_time output_sample_rate
         inner_chunk_buffer pause_until_timestamp now played].
    f_equal. unfold seconds. lia. }
  split; [|split; [exact Hleave|]].
  - intros n Hn.
    destruct (Nat.Even_or_Odd n) as [[k ->]|[k ->]].
    + rewrite Heven by lia. unfold is_alive.
      cbn [audio_thread set_now]. rewrite Hpc. reflexivity.
    + destruct (Nat.eq_dec k m) as [->|Hk]; [rewrite Hleave; reflexivity|].
      rewrite worker_steps_add, Heven by lia. cbn [worker_steps].
      rewrite worker_step_get_empty by (cbn [audio_thread audio_queue set_now]; assumption).
      cbn [now last_chunk_time set_now].
      destruct (Z.gtb_spec (now s + seconds (Z.of_nat k) + seconds 1 - last_chunk_time s)
                           (seconds 10)) as [Hgt|_];
        [unfold seconds in *; lia|].
      rewrite andb_false_r. reflexivity.
  - replace (2 * m + 2)%nat with (2 * m + 1 + 1)%nat by lia.
    rewrite worker_steps_add, Hleave. reflexivity.
Qed.

(** X14: an idle worker is checked once per second of timeout, and the test
    is strict: a worker waiting on an empty queue, undisturbed, with at
    most ten seconds passed since the last activity, goes through a
    number of timeouts during which it stays in its loop, and leaves it
    at the first timeout at which more than ten seconds have passed;
    that is more than ten and at most eleven seconds after the last
    activity. The thread is still alive then, and has ended at the next
    step. *)
Theorem idle_worker_lifetime (s : manager) :
  audio_thread s = Some AtGet ->
  audio_queue s = [] ->
  stop_audio_thread s = false ->
  last_chunk_time s <> 0 ->
  now s - last_chunk_time s <= seconds 10 ->
  exists m : nat,
    (forall n : nat, (n <= 2 * m + 1)%nat -> is_alive (worker_steps n s) = true) /\
    worker_steps (2 * m + 1) s
    = leave_loop None (set_now (now s + seconds (Z.of_nat m + 1)) s) /\
    worker_steps (2 * m + 2) s
    = exit_thread None (set_now (now s + seconds (Z.of_nat m + 1)) s) /\
    seconds 10 < now s + seconds (Z.of_nat m + 1) - last_chunk_time s <= seconds 11.
Proof.
  intros Hpc Hq Hstop Hlast Hidle.
  remember (seconds 10 - (now s - last_chunk_time s)) as left_over eqn:Eleft.
  assert (Hleft : 0 <= left_over) by lia.
  pose proof (Z.div_pos left_over 1000000 Hleft ltac:(lia)) as Hq0.
  pose proof (Z_div_mod_eq_full left_over 1000000) as Hdiv.
  pose proof (Z.mod_pos_bound left_over 1000000 ltac:(lia)) as Hmod.
  remember (left_over / 1000000) as q eqn:Eq.
  remember (left_over mod 1000000) as r eqn:Er.
  exists (Z.to_nat q).
  assert (Hm : Z.of_nat (Z.to_nat q) = q) by (apply Z2Nat.id; exact Hq0).
  assert (Hin : now s + seconds (Z.of_nat (Z.to_nat q)) - last_chunk_time s
                <= seconds 10).
  { rewrite Hm. unfold seconds in *. lia. }
  assert (Hout : seconds 10
                 < now s + seconds (Z.of_nat (Z.to_nat q) + 1) - last_chunk_time s).
  { rewrite Hm. unfold seconds in *. lia. }
  destruct (idle_worker_rounds s _ Hpc Hq Hstop Hlast Hin Hout)
    as (Halive & Hleave & Hexit).
  split; [exact Halive|]. split; [exact Hleave|]. split; [exact Hexit|].
  split; [exact Hout|].
  rewrite Hm. unfold seconds in *. lia.
Qed.

(** ** The spawn protocol: one thread after the other *)

Lemma spawn_step_in_sequence (ev : spawn_event) (s : spawn_state) :
  spawn_inv s -> threads_in_sequence s -> threads_in_sequence (spawn_step s ev).
Proof.
  intros Hinv [K1 K2]. destruct ev as [i|w]; cbn [spawn_step].
  - unfold caller_step. destruct (callers s i) eqn:Hpc.
    + split; assumption.
    + destruct (current_alive s); split; assumption.
    + destruct (thread_lock s); split; assumption.
    + destruct (current_alive s) eqn:Halive; [split; assumption|].
      assert (Hmine : thread_lock s = Some i)
        by (apply (inv_lock s Hinv); rewrite Hpc; reflexivity).
      split; cbn [current created status].
      * intros w Hw. injection Hw as <-. reflexivity.
      * intros w Hw Hcur.
        assert (Hne : w <> created s) by congruence.
        rewrite upd_other by exact Hne.
        assert (Hcase : current s = Some w \/ current s <> Some w).
        { destruct (current s) as [w0|]; [|right; discriminate].
          destruct (Nat.eq_dec w0 w) as [->|Hd]; [left; reflexivity|].
          right. congruence. }
        destruct Hcase as [Hold|Hold]; [|apply K2; [lia | exact Hold]].
        destruct (status s w) eqn:Hst; [| |reflexivity].
        -- exfalso.
           destruct (inv_unstarted s Hinv w) as [_ [j Hj]]; [lia | exact Hst |].
           assert (Hj' : thread_lock s = Some j)
             by (apply (inv_lock s Hinv); rewrite Hj; reflexivity).
           assert (j = i) by congruence. subst j. congruence.
        -- exfalso. unfold current_alive in Halive.
           rewrite Hold, Hst in Halive. discriminate.
    + destruct (current s) as [w|] eqn:Hcur in |- *; [|split; assumption].
      destruct (status s w) eqn:Hw in |- *; try (split; assumption).
      split; cbn [current created status].
      * rewrite <- Hcur. exact K1.
      * intros w' Hw' Hne. rewrite <- Hcur in Hne.
        rewrite upd_other by congruence. apply K2; assumption.
    + split; assumption.
  - unfold thread_exit. destruct (status s w) eqn:Hw; try (split; assumption).
    split; cbn [current created status]; [exact K1|].
    intros w' Hw' Hne.
    destruct (upd_cases (status s) w w' Finished) as [[_ ->]|[_ ->]];
      [reflexivity | apply K2; assumption].
Qed.

Lemma spawn_run_in_sequence (evs : list spawn_event) :
  forall s, spawn_inv s -> threads_in_sequence s ->
            threads_in_sequence (fold_left spawn_step evs s).
Proof.
  induction evs as [|ev evs IH]; intros s Hinv Hseq; [exact Hseq|].
  cbn [fold_left]. apply IH.
  - destruct ev; [apply caller_step_inv | apply thread_exit_inv]; exact Hinv.
  - apply spawn_step_in_sequence; assumption.
Qed.

(** X15: whatever the interleaving of callers and thread ends: at most one
    caller is inside the locked section of [add_chunk_inner]; the thread
    [self.audio_thread] designates is the last one created; and every
    other thread ever created has finished, so that a new thread is
    created only when its predecessor has returned. *)
Theorem spawn_threads_one_after_the_other (evs : list spawn_event) :
  (forall i j : nat,
     in_critical (callers (spawn_run evs) i) = true ->
     in_critical (callers (spawn_run evs) j) = true -> i = j) /\
  (forall w : nat, current (spawn_run evs) = Some w -> S w = created (spawn_run evs)) /\
  (forall w : nat,
     (w < created (spawn_run evs))%nat -> current (spawn_run evs) <> Some w ->
     status (spawn_run evs) w = Finished).
Proof.
  pose proof (spawn_run_inv evs spawn_init spawn_inv_init) as Hinv.
  fold (spawn_run evs) in Hinv.
  assert (Hseq : threads_in_sequence (spawn_run evs)).
  { apply spawn_run_in_sequence; [exact spawn_inv_init|].
    split; cbn; intros; (discriminate || lia). }
  split; [|exact Hseq].
  intros i j Hi Hj.
  apply (inv_lock _ Hinv) in Hi. apply (inv_lock _ Hinv) in Hj. congruence.
Qed.

(** ** The spawn protocol: no caller leaves without a worker *)

Lemma caller_step_worker_kept (i : nat) (s : spawn_state) :
  spawn_inv s -> worker_kept s -> worker_kept (caller_step i s).
Proof.
  intros Hinv (L1 & L2 & L3).
  assert (Hmove : forall pc : caller_pc,
            pc <> AtRelease -> pc <> AtThreadStart -> worker_kept (move i pc s)).
  { intros pc H1 H2. split; [exact L1|]. split; cbn [callers move].
    - intros j. destruct (upd_cases (callers s) i j pc) as [[_ ->]|[_ ->]];
        [congruence | apply L2].
    - intros j. destruct (upd_cases (callers s) i j pc) as [[_ ->]|[_ ->]];
        [congruence | apply L3]. }
  unfold caller_step. destruct (callers s i) eqn:Hpc.
  - apply Hmove; discriminate.
  - destruct (current_alive s); apply Hmove; discriminate.
  - destruct (thread_lock s); [split; [|split]; assumption|].
    split; [exact L1|]. split; cbn [callers].
    + intros j. destruct (upd_cases (callers s) i j AtSecondCheck) as [[_ ->]|[_ ->]];
        [discriminate | apply L2].
    + intros j. destruct (upd_cases (callers s) i j AtSecondCheck) as [[_ ->]|[_ ->]];
        [discriminate | apply L3].
  - assert (Hmine : thread_lock s = Some i)
      by (apply (inv_lock s Hinv); rewrite Hpc; reflexivity).
    destruct (current_alive s) eqn:Halive.
    + split; [exact L1|]. split; cbn [callers move].
      * intros j _. exact Halive.
      * intros j. destruct (upd_cases (callers s) i j AtRelease) as [[_ ->]|[_ ->]];
          [discriminate | apply L3].
    + split; [|split]; cbn [callers status current].
      * intros w. destruct (upd_cases (status s) (created s) w Unstarted)
          as [[_ ->]|[_ ->]]; [discriminate | apply L1].
      * intros j. destruct (upd_cases (callers s) i j AtThreadStart)
          as [[_ ->]|[Hne ->]]; [discriminate|].
        intros Hj. exfalso.
        assert (Hj' : thread_lock s = Some j)
          by (apply (inv_lock s Hinv); rewrite Hj; reflexivity).
        congruence.
      * intros j _. eexists. reflexivity.
  - destruct (L3 i Hpc) as [w Hcur]. rewrite Hcur.
    destruct (status s w) eqn:Hw.
    + split; [|split]; cbn [callers status current].
      * intros w'. destruct (upd_cases (status s) w w' Running)
          as [[_ ->]|[_ ->]]; [discriminate | apply L1].
      * intros j _. unfold current_alive. cbn [current status].
        rewrite ?Hcur, upd_same. reflexivity.
      * intros j. destruct (upd_cases (callers s) i j AtRelease) as [[_ ->]|[_ ->]];
          [discriminate|].
        intros Hj. exists w. reflexivity.
    + split; [exact L1|]. split; cbn [callers move].
      * intros j _. unfold current_alive. cbn [current status move].
        rewrite Hcur, Hw. reflexivity.
      * intros j. destruct (upd_cases (callers s) i j AtRelease) as [[_ ->]|[_ ->]];
          [discriminate | apply L3].
    + exfalso. exact (L1 w Hw).
  - split; [exact L1|]. split; cbn [callers].
    + intros j. destruct (upd_cases (callers s) i j Outside) as [[_ ->]|[_ ->]];
        [discriminate | apply L2].
    + intros j. destruct (upd_cases (callers s) i j Outside) as [[_ ->]|[_ ->]];
        [discriminate | apply L3].
Qed.

Lemma callers_run_worker_kept (order : list nat) :
  forall s, spawn_inv s -> threads_in_sequence s -> worker_kept s ->
    spawn_inv (fold_left spawn_step (map CallerStep order) s) /\
    threads_in_sequence (fold_left spawn_step (map CallerStep order) s) /\
    worker_kept (fold_left spawn_step (map CallerStep order) s).
Proof.
  induction order as [|i order IH]; intros s Hinv Hseq Hkept;
    [split; [|split]; assumption|].
  cbn [map fold_left spawn_step]. apply IH.
  - apply caller_step_inv. exact Hinv.
  - apply (spawn_step_in_sequence (CallerStep i)); assumption.
  - apply caller_step_worker_kept; assumption.
Qed.

(** X16: as long as no playback thread ends, callers racing through
    [add_chunk_inner] in any order create one thread at most, and none
    of them gets to the end of the locked section without a running
    thread being there: the one it started or the one it found.  The
    release of the lock keeps it so. *)
Theorem spawn_leaves_a_worker_running (order : list nat) :
  (created (spawn_run (map CallerStep order)) <= 1)%nat /\
  (forall i : nat,
     callers (spawn_run (map CallerStep order)) i = AtRelease ->
     current_alive (spawn_run (map CallerStep order)) = true /\
     current_alive (caller_step i (spawn_run (map CallerStep order))) = true /\
     live_threads (spawn_run (map CallerStep order)) = 1%nat).
Proof.
  destruct (callers_run_worker_kept order spawn_init) as (Hinv & [K1 K2] & L1 & L2 & L3).
  { exact spawn_inv_init. }
  { split; cbn; intros; (discriminate || lia). }
  { split; [|split]; cbn; intros; discriminate. }
  fold (spawn_run (map CallerStep order)) in *.
  set (s := spawn_run (map CallerStep order)) in *.
  assert (Hone : (created s <= 1)%nat).
  { destruct (created s) as [|[|n]] eqn:Hc; [lia | lia | exfalso].
    apply (L1 0%nat). apply K2; [lia|].
    intros Hcur. apply K1 in Hcur. lia. }
  split; [exact Hone|].
  intros i Hi. pose proof (L2 i Hi) as Halive.
  split; [exact Halive|]. split.
  - unfold caller_step. rewrite Hi. exact Halive.
  - unfold current_alive in Halive.
    destruct (current s) as [w|] eqn:Hcur; [|discriminate].
    pose proof (K1 w eq_refl) as Hw.
    assert (w = 0%nat) by lia. subst w.
    unfold live_threads. rewrite <- Hw. cbn [seq filter].
    destruct (status s 0); (reflexivity || discriminate).
Qed.

(** ** The constant chunks of the tests *)

Lemma np_repeat_constant (sample : int16) (n : nat) (k : Z) :
  np_repeat (repeat sample n) k = repeat sample (Z.to_nat k * n).
Proof.
  unfold np_repeat. induction n as [|n IH].
  - rewrite Nat.mul_0_r. reflexivity.
  - cbn [repeat flat_map]. rewrite IH, <- repeat_app. f_equal. lia.
Qed.

(** X17: [make_pcm_chunk] builds a chunk of [repeat] copies of one 16-bit
    sample: twice as many bytes, read back by [np.frombuffer] as that
    many equal samples; it is empty when [repeat <= 0], whatever the
    value, and otherwise fails for a value outside the 16-bit range.
    Converting such a chunk to a rate that is an integer multiple
    (ratio > 1) of its own gives the constant chunk of the same value
    with [ratio] times as many samples. *)
Theorem make_pcm_chunk_constant (v n : Z) :
  (n <= 0 -> make_pcm_chunk v n = Some []) /\
  (0 < n -> (v < -32768 \/ 32767 < v) -> make_pcm_chunk v n = None) /\
  (0 <= n -> -32768 <= v <= 32767 ->
   exists (c : bytes) (sample : int16),
     make_pcm_chunk v n = Some c /\
     len c = 2 * n /\
     np_frombuffer_int16 c = Ok (repeat sample (Z.to_nat n)) /\
     forall out rate : Z,
       rate <> 0 -> out mod rate = 0 -> 1 < out / rate ->
       exists c' : bytes,
         make_pcm_chunk v (out / rate * n) = Some c' /\
         upsample_chunk_to_output_sample_rate out c rate = Ok c').
Proof.
  split; [|split].
  - intros Hn. unfold make_pcm_chunk.
    replace (Z.to_nat n) with 0%nat by lia. reflexivity.
  - intros Hn Hv. unfold make_pcm_chunk, struct_pack_h.
    destruct (Z.to_nat n) eqn:E; [lia|].
    destruct (Z.leb_spec (-32768) v); destruct (Z.leb_spec v 32767);
      cbn [andb]; (reflexivity || lia).
  - intros Hn Hv.
    assert (Hpack : exists sample, struct_pack_h v = Some sample).
    { unfold struct_pack_h.
      destruct (Z.leb_spec (-32768) v); [|lia].
      destruct (Z.leb_spec v 32767); [|lia].
      eexists. reflexivity. }
    destruct Hpack as [sample Hpack].
    assert (Hmake : forall m : Z, 0 <= m ->
              make_pcm_chunk v m = Some (np_tobytes (repeat sample (Z.to_nat m)))).
    { intros m Hm. unfold make_pcm_chunk. rewrite Hpack.
      destruct (Z.to_nat m); reflexivity. }
    exists (np_tobytes (repeat sample (Z.to_nat n))), sample.
    split; [apply Hmake; exact Hn|]. split; [|split].
    + unfold len. rewrite np_tobytes_length, repeat_length. lia.
    + apply np_frombuffer_tobytes.
    + intros out rate H0 Hmod Hratio.
      assert (Hne : rate <> out).
      { intros ->. rewrite Z.div_same in Hratio by exact H0. lia. }
      exists (np_tobytes (repeat sample (Z.to_nat (out / rate * n)))).
      split; [apply Hmake; nia|].
      rewrite (upsample_integer_ratio out _ rate (repeat sample (Z.to_nat n))
                 Hne H0 Hmod Hratio (np_frombuffer_tobytes _)).
      rewrite np_repeat_constant, Z2Nat.inj_mul by lia. reflexivity.
Qed.

End Manager.

(** * Concrete runs

    The model run on small inputs, with [ratecv_example] standing for the
    library routine. *)

Definition sink_ok : bytes -> Z -> result unit := fun _ _ => Ok tt.

(** A new manager with output rate 16000, created at clock 100 s. *)
Definition fresh_manager : manager := init sink_ok 0 16000 (seconds 100).

(** ** Conversion *)

(** C2, as stated, fails at source rate 0: the conversion raises a
    division error where the fallback would have raised the library's
    error; and in the integer-multiple case a frame of odd length raises
    instead of being duplicated. *)
Lemma upsample_chunk_zero_rate_not_delegated :
  upsample_chunk_to_output_sample_rate ratecv_example 16000 [x01; x02] 0
  <> _upsample ratecv_example [x01; x02] 0 16000 /\
  upsample_chunk_to_output_sample_rate ratecv_example 16000 [x01; x02] 0
  = Raise ZeroDivisionError /\
  upsample_chunk_to_output_sample_rate ratecv_example 16000 [x01; x02; x03] 8000
  = Raise ValueError.
Proof. split; [vm_compute; discriminate | split; vm_compute; reflexivity]. Qed.

Lemma upsample_chunk_cases_witness :
  exists samples upsampled_samples,
    np_frombuffer_int16 [x01; x02; x03; x04] = Ok samples /\
    upsample_chunk_to_output_sample_rate ratecv_example 16000
      [x01; x02; x03; x04] 8000
    = Ok (np_tobytes upsampled_samples) /\
    length upsampled_samples = (Z.to_nat (16000 / 8000) * length samples)%nat /\
    forall i : nat,
      nth_error upsampled_samples i
      = nth_error samples (i / Z.to_nat (16000 / 8000)).
Proof.
  apply (upsample_chunk_cases ratecv_example 16000 [x01; x02; x03; x04] 8000).
  - lia.
  - lia.
  - reflexivity.
  - vm_compute. reflexivity.
  - exists 2%nat. reflexivity.
Defined.

Example upsample_8000_to_16000 :
  upsample_chunk_to_output_sample_rate ratecv_example 16000
    [x01; x02; x03; x04] 8000
  = Ok [x01; x02; x01; x02; x03; x04; x03; x04].
Proof. vm_compute. reflexivity. Qed.

(** ** Pause gate *)

(** C1, as stated, fails when time passes between the two calls: a pause
    of 10 s followed 5 s later by a pause of 7 s ends 12 s after the
    first call and 7 s after the second, not 10 s. *)
Lemma pause_for_pair_not_max :
  pause_until_timestamp
    (pause_for (seconds 7)
       (time_sleep (seconds 5) (pause_for (seconds 10) fresh_manager)))
  - now fresh_manager
  <> Z.max (seconds 10) (seconds 7) /\
  pause_until_timestamp
    (pause_for (seconds 7)
       (time_sleep (seconds 5) (pause_for (seconds 10) fresh_manager)))
  - now (time_sleep (seconds 5) (pause_for (seconds 10) fresh_manager))
  <> Z.max (seconds 10) (seconds 7).
Proof. split; vm_compute; discriminate. Qed.

Lemma pause_for_combines_by_max_witness :
  pause_until_timestamp
    (pause_for (seconds 7)
       (time_sleep (seconds 5) (pause_for (seconds 10) fresh_manager)))
  - now fresh_manager
  = Z.max (seconds 10) (seconds 5 + seconds 7).
Proof.
  destruct (pause_for_combines_by_max fresh_manager (seconds 10) (seconds 7) (seconds 5))
    as (_ & _ & _ & H).
  apply H; vm_compute; (reflexivity || discriminate).
Defined.

(** ** Accumulator *)

(** At rate 10 a frame is 2 bytes, at rate 20 it is 4 bytes. *)
Example chunk_size_bytes_16000 : chunk_size_bytes 16000 = 3200.
Proof. reflexivity. Qed.

(** The integer frame size is the one binary64 arithmetic gives, on every
    rate from -2000 to 3999 and on the usual audio rates. *)
Example chunk_size_bytes_agrees_with_float :
  forallb (fun r => chunk_size_bytes_float r =? chunk_size_bytes r)
          (map (fun n => Z.of_nat n - 2000) (seq 0 (Z.to_nat 6000))
           ++ [8000; 11025; 16000; 22050; 24000; 32000; 44100; 48000;
               88200; 96000; 192000])
  = true.
Proof. vm_compute. reflexivity. Qed.

Lemma add_chunk_cuts_frames_witness :
  exists (frames : list bytes) (s' : manager),
    add_chunk 5 [x01; x02; x03; x04; x05] 10 fresh_manager = Returned s' /\
    (if now fresh_manager - last_chunk_time fresh_manager >? milliseconds 150
     then [] else inner_chunk_buffer fresh_manager) ++ [x01; x02; x03; x04; x05]
    = concat frames ++ inner_chunk_buffer s' /\
    Forall (fun f => len f = chunk_size_bytes 10) frames /\
    len (inner_chunk_buffer s') < chunk_size_bytes 10 /\
    audio_queue s' = audio_queue fresh_manager ++ map (fun f => (f, 10)) frames /\
    last_chunk_time s' = now fresh_manager /\
    chunk_size_bytes 10 = Z.quot (2 * 10) 10 /\
    10 * chunk_size_bytes 10 <= 2 * 10 < 10 * chunk_size_bytes 10 + 10 /\
    5 <= 10.
Proof.
  apply add_chunk_cuts_frames.
  - vm_compute. reflexivity.
  - vm_compute. apply le_n.
Defined.

Example add_chunk_five_bytes :
  exists s',
    add_chunk 5 [x01; x02; x03; x04; x05] 10 fresh_manager = Returned s' /\
    audio_queue s' = [([x01; x02], 10); ([x03; x04], 10)] /\
    inner_chunk_buffer s' = [x05].
Proof.
  eexists. split; [vm_compute; reflexivity|].
  split; vm_compute; reflexivity.
Qed.

(** C4 at sample rate 4, whose frame size is 0. *)
Lemma add_chunk_degenerate_rate_never_returns_witness :
  exists s' : manager,
    add_chunk 1000 [x01; x02] 4 fresh_manager = StillRunning s' /\
    length (audio_queue s') = (length (audio_queue fresh_manager) + 1000)%nat.
Proof.
  apply add_chunk_degenerate_rate_never_returns.
  vm_compute. discriminate.
Defined.

(** A residue cut at rate 10 ends up in a frame of rate 20. *)
Definition after_first_call : manager :=
  state_of (add_chunk 3 [x01; x02; x03] 10 fresh_manager).

Lemma add_chunk_residue_crosses_rates_witness :
  exists (frames : list bytes) (s2 : manager),
    add_chunk 4 [x04; x05; x06] 20 (time_sleep (milliseconds 100) after_first_call)
    = Returned s2 /\
    inner_chunk_buffer after_first_call ++ [x04; x05; x06]
    = concat frames ++ inner_chunk_buffer s2 /\
    Forall (fun f => len f = chunk_size_bytes 20) frames /\
    len (inner_chunk_buffer s2) < chunk_size_bytes 20 /\
    audio_queue s2 = audio_queue after_first_call ++ map (fun f => (f, 20)) frames.
Proof.
  apply (add_chunk_residue_crosses_rates [x01; x02; x03] [x04; x05; x06] 10 20
           fresh_manager after_first_call (milliseconds 100) 3 4).
  - vm_compute. reflexivity.
  - split; vm_compute; discriminate.
  - vm_compute. reflexivity.
  - vm_compute. apply le_n.
Defined.

Example residue_crosses_rates_run :
  audio_queue
    (state_of (add_chunk 4 [x04; x05; x06] 20
                 (time_sleep (milliseconds 100) after_first_call)))
  = [([x01; x02], 10); ([x03; x04; x05; x06], 20)].
Proof. vm_compute. reflexivity. Qed.

(** ** Worker *)




(** A frame cut at rate 13 for an output rate of 26. *)
Definition odd_rate_manager : manager :=
  state_of (run ratecv_example [Call [x01; x02] 13] (init sink_ok 0 26 (seconds 100))).

(** Two frames cut at rate 5, of one byte each, for an output rate of 10. *)
Definition one_byte_frames : manager :=
  state_of (run ratecv_example [Call [x01; x02] 5] (init sink_ok 0 10 (seconds 100))).

(** C6, as stated, fails: the frame cut at rate 13 has 2 bytes, its
    conversion to rate 26 has 4, and a frame at rate 26 has 5. And a
    completed frame need not reach the callback at all: frames cut at
    rate 5 have one byte, the conversion to rate 10 raises on the first,
    and the worker is gone with the second still queued. *)
Lemma converted_frame_of_other_size :
  (played (worker_steps ratecv_example 5 odd_rate_manager)
   = [([x01; x02; x01; x02], 26)] /\
   len [x01; x02; x01; x02] <> chunk_size_bytes 26) /\
  (audio_queue one_byte_frames = [([x01], 5); ([x02], 5)] /\
   played (worker_steps ratecv_example 1000 one_byte_frames) = [] /\
   audio_queue (worker_steps ratecv_example 1000 one_byte_frames) = [([x02], 5)] /\
   audio_thread (worker_steps ratecv_example 1000 one_byte_frames)
   = Some (Exited (Some ValueError))).
Proof.
  split; [split; [vm_compute; reflexivity | vm_compute; discriminate]|].
  repeat split; vm_compute; reflexivity.
Qed.

(** Three calls at rate 10 for an output rate of 20, 7 bytes in all,
    while the worker runs and a pause is requested. *)
Definition busy_schedule : list action :=
  [Call [x01; x02; x03] 10; Work; Work; Wait (milliseconds 20);
   Call [x04] 10; Pause (milliseconds 30); Work; Work; Work;
   Call [x05; x06; x07] 10].

Definition after_busy_schedule : manager :=
  state_of (run ratecv_example busy_schedule (init sink_ok 0 20 (seconds 100))).

Example busy_schedule_forwarded :
  forwarded ratecv_example busy_schedule (init sink_ok 0 20 (seconds 100))
  = [([x01; x02], 10); ([x03; x04], 10); ([x05; x06], 10)] /\
  played after_busy_schedule = [] /\
  audio_thread after_busy_schedule = Some (AtPlay [x01; x02; x01; x02]).
Proof. repeat split; vm_compute; reflexivity. Qed.

Lemma frames_reach_sink_in_order_witness :
  (forall (pre : list action) (chunk : bytes) (rate : Z) (post : list action),
     busy_schedule = pre ++ Call chunk rate :: post ->
     exists (s s' : manager) (frames : list bytes),
       run ratecv_example pre (init sink_ok 0 20 (seconds 100)) = Returned s /\
       act ratecv_example (Call chunk rate) s = Returned s' /\
       add_chunk_data chunk s = concat frames ++ inner_chunk_buffer s' /\
       Forall (fun f => len f = chunk_size_bytes rate) frames /\
       len (inner_chunk_buffer s') < chunk_size_bytes rate /\
       forwarded ratecv_example (pre ++ [Call chunk rate])
         (init sink_ok 0 20 (seconds 100))
       = forwarded ratecv_example pre (init sink_ok 0 20 (seconds 100))
         ++ map (fun f => (f, rate)) frames) /\
  whole_frames
    (forwarded ratecv_example busy_schedule (init sink_ok 0 20 (seconds 100))) /\
  played after_busy_schedule ++ in_flight after_busy_schedule
  ++ map (converted ratecv_example (init sink_ok 0 20 (seconds 100)))
       (audio_queue after_busy_schedule)
  = map (converted ratecv_example (init sink_ok 0 20 (seconds 100)))
        (forwarded ratecv_example busy_schedule
           (init sink_ok 0 20 (seconds 100))) /\
  (in_loop after_busy_schedule \/ audio_queue after_busy_schedule = [] ->
   exists n : nat,
     played (worker_steps ratecv_example n after_busy_schedule)
     = map (converted ratecv_example (init sink_ok 0 20 (seconds 100)))
           (forwarded ratecv_example busy_schedule
              (init sink_ok 0 20 (seconds 100))) /\
     audio_queue (worker_steps ratecv_example n after_busy_schedule) = []) /\
  (~ in_loop after_busy_schedule ->
   (forall n : nat,
      played (worker_steps ratecv_example n after_busy_schedule)
      = played after_busy_schedule /\
      audio_queue (worker_steps ratecv_example n after_busy_schedule)
      = audio_queue after_busy_schedule) /\
   (forall (chunk : bytes) (rate : Z),
      playable_item ratecv_example (init sink_ok 0 20 (seconds 100)) (chunk, rate) ->
      exists n : nat,
        played (worker_steps ratecv_example n
                  (add_chunk_inner chunk rate
                     (worker_step ratecv_example after_busy_schedule)))
        = map (converted ratecv_example (init sink_ok 0 20 (seconds 100)))
              (forwarded ratecv_example busy_schedule
                 (init sink_ok 0 20 (seconds 100)) ++ [(chunk, rate)]) /\
        audio_queue (worker_steps ratecv_example n
                       (add_chunk_inner chunk rate
                          (worker_step ratecv_example after_busy_schedule)))
        = [])) /\
  Forall (fun item =>
            snd (converted ratecv_example (init sink_ok 0 20 (seconds 100)) item)
            = 20 /\
            (snd item = 20 \/
             (snd item mod 5 = 0 /\ snd item <> 0 /\
              20 mod snd item = 0 /\ 1 < 20 / snd item) ->
             len (fst (converted ratecv_example
                         (init sink_ok 0 20 (seconds 100)) item))
             = chunk_size_bytes 20))
         (forwarded ratecv_example busy_schedule
            (init sink_ok 0 20 (seconds 100))).
Proof.
  apply (frames_reach_sink_in_order ratecv_example busy_schedule sink_ok 0 20
           (seconds 100) after_busy_schedule).
  - vm_compute. reflexivity.
  - assert (Hf : forwarded ratecv_example busy_schedule
                   (init sink_ok 0 20 (seconds 100))
                 = [([x01; x02], 10); ([x03; x04], 10); ([x05; x06], 10)])
      by (vm_compute; reflexivity).
    rewrite Hf.
    repeat (constructor; [split; vm_compute; reflexivity|]). constructor.
Defined.

(** The worker of the busy schedule is in its loop, and left to run it
    plays the three frames. *)
Example busy_schedule_played :
  in_loop after_busy_schedule /\
  played (worker_steps ratecv_example 20 after_busy_schedule)
  = [([x01; x02; x01; x02], 20); ([x03; x04; x03; x04], 20);
     ([x05; x06; x05; x06], 20)] /\
  audio_queue (worker_steps ratecv_example 20 after_busy_schedule) = [].
Proof. split; [vm_compute; exact I | split; vm_compute; reflexivity]. Qed.

(** A frame enqueued while the idle thread is ending: a frame is played,
    the worker waits through eleven timeouts and leaves its loop, and a
    second call comes before the thread has ended. *)
Definition late_call_schedule : list action :=
  Call [x01; x02] 10 :: repeat Work 27 ++ [Call [x03; x04] 10].

Definition after_late_call : manager :=
  state_of (run ratecv_example late_call_schedule (init sink_ok 0 10 (seconds 100))).

(** The second frame is stranded: the thread that was alive at the call
    ends, and the frame stays in the queue with no worker, however long
    one waits; the next enqueue starts a thread, which plays it first. *)
Example frame_stranded_by_ending_thread :
  run ratecv_example late_call_schedule (init sink_ok 0 10 (seconds 100))
  = Returned after_late_call /\
  forwarded ratecv_example late_call_schedule (init sink_ok 0 10 (seconds 100))
  = [([x01; x02], 10); ([x03; x04], 10)] /\
  audio_thread after_late_call = Some (AtReturn None) /\
  now after_late_call = seconds 111 /\
  is_alive (worker_steps ratecv_example 1000 after_late_call) = false /\
  played (worker_steps ratecv_example 1000 after_late_call) = [([x01; x02], 10)] /\
  audio_queue (worker_steps ratecv_example 1000 after_late_call) = [([x03; x04], 10)] /\
  played (worker_steps ratecv_example 10
            (add_chunk_inner [x05; x06] 10
               (worker_steps ratecv_example 1000 after_late_call)))
  = [([x01; x02], 10); ([x03; x04], 10); ([x05; x06], 10)].
Proof.
  repeat (refine (conj _ _); [vm_compute; reflexivity|]).
  vm_compute. reflexivity.
Qed.

(** ** Cleanup *)

(** A manager whose worker holds a frame past the stop test, about to
    call the callback. *)
Definition about_to_play : manager :=
  worker_steps ratecv_example 4 (add_chunk_inner [x01; x02] 16000 fresh_manager).

(** C7, as stated, fails: the frame was enqueued and has not been played
    when [cleanup] begins, and the callback receives it before [cleanup]
    returns. *)
Lemma cleanup_plays_dequeued_frame :
  audio_thread about_to_play = Some (AtPlay [x01; x02]) /\
  played about_to_play = [] /\
  option_map played (cleanup ratecv_example 0 4 about_to_play)
  = Some [([x01; x02], 16000)].
Proof. repeat split; vm_compute; reflexivity. Qed.

(** A manager with two frames queued and the worker not yet past the
    loop test. *)
Definition two_queued : manager :=
  add_chunk_inner [x03; x04] 16000 (add_chunk_inner [x01; x02] 16000 fresh_manager).

Lemma cleanup_stops_playback_witness :
  exists s' : manager,
    cleanup ratecv_example 2 4 two_queued = Some s' /\
    stop_audio_thread s' = true /\
    audio_queue s' = [] /\
    is_alive s' = false /\
    pause_until_timestamp s' = 0 /\
    played s'
    = played two_queued ++
      match audio_thread two_queued with
      | Some (AtPlay c) => [(c, output_sample_rate two_queued)]
      | _ => []
      end /\
    (forall n : nat, worker_steps ratecv_example n s' = s') /\
    (forall k' fuel' : nat, cleanup ratecv_example k' fuel' s' = Some s').
Proof.
  apply cleanup_stops_playback. apply le_n.
Defined.

Example cleanup_drops_queued_frames :
  option_map played (cleanup ratecv_example 2 4 two_queued) = Some [].
Proof. vm_compute. reflexivity. Qed.

(** ** Idle exit and respawn *)

(** A worker waiting on an empty queue, ten seconds after the last
    activity; output rate 10. *)
Definition idle_manager : manager :=
  set_audio_thread (Some AtGet)
    (time_sleep (seconds 10) (init sink_ok 0 10 (seconds 100))).

(** The idle thread has ended; three seconds later a chunk of one frame
    arrives. *)
Definition respawned : manager :=
  state_of (add_chunk 2 [x01; x02] 10
              (time_sleep (seconds 3)
                 (worker_step ratecv_example
                    (worker_step ratecv_example idle_manager)))).

(** A manager in which the only frame was enqueued at 100 s, and a call
    of [add_chunk] with a single byte, which completes no frame, is made
    at 105 s, while the worker waits. *)
Definition refreshed_without_enqueue : manager :=
  state_of (add_chunk 1 [x09] 10
              (worker_steps ratecv_example 15
                 (add_chunk_inner [x01; x02] 10 (init sink_ok 0 10 (seconds 100))))).

(** The idle thread is ending when a chunk of one frame arrives. *)
Definition called_while_ending : manager :=
  state_of (add_chunk 2 [x01; x02] 10 (worker_step ratecv_example idle_manager)).

(** C8, as stated, fails. The idle time is not counted from the last
    enqueued chunk: the call at 105 s enqueues nothing, and the timeouts
    at 111 s and 112 s, more than ten seconds after the only enqueue,
    leave the worker in its loop; it leaves at 116 s. And an [add_chunk]
    that comes when the worker has decided to exit, before the thread
    has ended, respawns nothing: its frame is never played. *)
Lemma worker_outlives_last_enqueue :
  (now (add_chunk_inner [x01; x02] 10 (init sink_ok 0 10 (seconds 100))) = seconds 100 /\
   audio_queue refreshed_without_enqueue = [] /\
   now refreshed_without_enqueue = seconds 105 /\
   now (worker_steps ratecv_example 12 refreshed_without_enqueue) = seconds 111 /\
   audio_thread (worker_steps ratecv_example 12 refreshed_without_enqueue)
   = Some AtLoopTest /\
   now (worker_steps ratecv_example 14 refreshed_without_enqueue) = seconds 112 /\
   audio_thread (worker_steps ratecv_example 14 refreshed_without_enqueue)
   = Some AtLoopTest /\
   now (worker_steps ratecv_example 22 refreshed_without_enqueue) = seconds 116 /\
   audio_thread (worker_steps ratecv_example 22 refreshed_without_enqueue)
   = Some (AtReturn None)) /\
  (audio_thread (worker_step ratecv_example idle_manager) = Some (AtReturn None) /\
   audio_queue called_while_ending = [([x01; x02], 10)] /\
   audio_thread called_while_ending = Some (AtReturn None) /\
   is_alive (worker_steps ratecv_example 1000 called_while_ending) = false /\
   played (worker_steps ratecv_example 1000 called_while_ending) = [] /\
   audio_queue (worker_steps ratecv_example 1000 called_while_ending)
   = [([x01; x02], 10)]).
Proof.
  split;
    (repeat (refine (conj _ _); [vm_compute; reflexivity|]);
     vm_compute; reflexivity).
Qed.

Lemma worker_idle_exit_and_respawn_witness :
  now (worker_step ratecv_example idle_manager) = now idle_manager + seconds 1 /\
  audio_thread (worker_step ratecv_example idle_manager) = Some (AtReturn None) /\
  is_alive (worker_step ratecv_example idle_manager) = true /\
  is_alive (worker_step ratecv_example (worker_step ratecv_example idle_manager))
  = false /\
  (exists frames : list bytes,
     [x01; x02] = concat frames ++ inner_chunk_buffer respawned /\
     audio_queue respawned = map (fun f => (f, 10)) frames /\
     audio_thread respawned = Some AtLoopTest /\
     exists n : nat,
       played (worker_steps ratecv_example n respawned)
       = played idle_manager ++ map (fun c => (c, output_sample_rate idle_manager))
                                  [[x01; x02]] /\
       audio_queue (worker_steps ratecv_example n respawned) = []) /\
  (forall n : nat,
     played (worker_steps ratecv_example n
               (add_chunk_inner [x01; x02] 10 (worker_step ratecv_example idle_manager)))
     = played idle_manager /\
     audio_queue (worker_steps ratecv_example n
                    (add_chunk_inner [x01; x02] 10
                       (worker_step ratecv_example idle_manager)))
     = [([x01; x02], 10)]).
Proof.
  destruct (worker_idle_exit_and_respawn ratecv_example idle_manager)
    as (Hnow & Hexit & _ & _ & _ & Hidle).
  - vm_compute. reflexivity.
  - vm_compute. reflexivity.
  - assert (Hset : last_chunk_time idle_manager <> 0)
      by (vm_compute; discriminate).
    assert (Hlong : seconds 10
                    < now (worker_step ratecv_example idle_manager)
                      - last_chunk_time idle_manager)
      by (vm_compute; reflexivity).
    destruct (Hidle Hset Hlong) as (Halive & Hdead & Hspawn & Hstranded).
    split; [exact Hnow|]. split; [apply Hexit; split; [exact Hset | exact Hlong]|].
    split; [exact Halive|]. split; [exact Hdead|]. split.
    + destruct (Hspawn (seconds 3) 2%nat [x01; x02] 10)
        as (frames & s2 & Hrun & Hcut & _ & _ & Hq & Hthread & Hplay).
      * vm_compute. discriminate.
      * vm_compute. reflexivity.
      * vm_compute. apply le_n.
      * assert (Hs2 : s2 = respawned).
        { assert (Hr : add_chunk 2 [x01; x02] 10
                         (time_sleep (seconds 3)
                            (worker_step ratecv_example
                               (worker_step ratecv_example idle_manager)))
                       = Returned respawned) by (vm_compute; reflexivity).
          rewrite Hr in Hrun. injection Hrun as <-. reflexivity. }
        subst s2.
        assert (Hq' : audio_queue respawned = [([x01; x02], 10)])
          by (vm_compute; reflexivity).
        exists frames. split; [exact Hcut|]. split; [exact Hq|]. split.
        -- apply Hthread. intros ->. rewrite Hq' in Hq. discriminate.
        -- apply Hplay. rewrite Hq'.
           constructor; [split; vm_compute; reflexivity | constructor].
    + intros n. destruct (Hstranded [x01; x02] 10 n) as (_ & _ & Hp & Hq).
      split; assumption.
Defined.

(** ** Spawn protocol *)

(** Two callers race for the first spawn: both pass the first check, one
    gets the lock and starts the thread, the other finds it alive under
    the lock; after the thread has ended a third call starts a second
    thread. *)
Example spawn_race :
  live_threads
    (spawn_run [CallerStep 0; CallerStep 1; CallerStep 0; CallerStep 1;
                CallerStep 0; CallerStep 1; CallerStep 0; CallerStep 0;
                CallerStep 0; CallerStep 1; CallerStep 1; CallerStep 1])
  = 1%nat /\
  created
    (spawn_run [CallerStep 0; CallerStep 1; CallerStep 0; CallerStep 1;
                CallerStep 0; CallerStep 1; CallerStep 0; CallerStep 0;
                CallerStep 0; CallerStep 1; CallerStep 1; CallerStep 1])
  = 1%nat /\
  created
    (spawn_run [CallerStep 0; CallerStep 0; CallerStep 0; CallerStep 0;
                CallerStep 0; CallerStep 0; ThreadExit 0;
                CallerStep 2; CallerStep 2; CallerStep 2; CallerStep 2;
                CallerStep 2; CallerStep 2])
  = 2%nat.
Proof. repeat split; vm_compute; reflexivity. Qed.

(** ** Further properties *)

(** The chunk of the pause test: 160 samples of value 2000. *)
Definition test_chunk : bytes :=
  match make_pcm_chunk 2000 160 with
  | Some c => c
  | None => []
  end.

(** The pause test: [pause_for(0.2)] on a new manager, then
    [add_chunk_inner(chunk, 16000)]. *)
Definition paused_with_chunk : manager :=
  add_chunk_inner test_chunk 16000 (pause_for (milliseconds 200) fresh_manager).

(** The worker of the pause test, waiting at the gate. *)
Definition paused_at_gate : manager := worker_steps ratecv_example 2 paused_with_chunk.

(** A manager that waits a tenth of a second between frames. *)
Definition paced_manager : manager := init sink_ok (seconds 1) 16000 (seconds 100).

Definition paced_two_queued : manager :=
  add_chunk_inner [x03; x04] 16000 (add_chunk_inner [x01; x02] 16000 paced_manager).

Definition paced_about_to_play : manager :=
  worker_steps ratecv_example 4 (add_chunk_inner [x01; x02] 16000 paced_manager).

(** A worker that has played the only chunk and waits for the next. *)
Definition waiting_worker : manager :=
  worker_steps ratecv_example 6 (add_chunk_inner [x01; x02] 16000 fresh_manager).

Lemma remaining_pause_time_algebra_witness :
  0 <= _remaining_pause_time (pause_for (seconds 2) fresh_manager) /\
  _remaining_pause_time (pause_for (seconds 1) (pause_for (seconds 2) fresh_manager))
  = Z.max (_remaining_pause_time (pause_for (seconds 2) fresh_manager)) (seconds 1) /\
  _remaining_pause_time (time_sleep (seconds 3) (pause_for (seconds 2) fresh_manager))
  = Z.max (_remaining_pause_time (pause_for (seconds 2) fresh_manager) - seconds 3) 0 /\
  (pause_until_timestamp (pause_for (seconds 2) fresh_manager)
   <= now (pause_for (seconds 2) fresh_manager) + seconds 3 ->
   _remaining_pause_time (time_sleep (seconds 3) (pause_for (seconds 2) fresh_manager))
   = 0).
Proof.
  apply (remaining_pause_time_algebra (pause_for (seconds 2) fresh_manager)
           (seconds 1) (seconds 3)).
  vm_compute. discriminate.
Defined.

Example test_chunk_bytes :
  len test_chunk = 320 /\ firstn 4 test_chunk = [xd0; x07; xd0; x07].
Proof. split; vm_compute; reflexivity. Qed.

Lemma wait_if_paused_resumes_at_deadline_witness :
  exists n : nat,
    worker_steps ratecv_example n paused_at_gate
    = goto (AtStopTest test_chunk)
        (set_now (Z.max (now paused_at_gate) (pause_until_timestamp paused_at_gate))
           paused_at_gate) /\
    Z.of_nat n
    = (_remaining_pause_time paused_at_gate + milliseconds 50 - 1) / milliseconds 50 + 1.
Proof.
  apply (wait_if_paused_resumes_at_deadline ratecv_example paused_at_gate test_chunk).
  - vm_compute. reflexivity.
  - vm_compute. reflexivity.
Defined.

(** The wait of the pause test: four sleeps of 50 ms and the test that
    ends it. *)
Example pause_test_wait :
  worker_steps ratecv_example 5 paused_at_gate
  = goto (AtStopTest test_chunk)
      (set_now (seconds 100 + milliseconds 200) paused_at_gate).
Proof. vm_compute. reflexivity. Qed.

Lemma pacing_sleep_between_frames_witness :
  (exists n : nat,
     worker_steps ratecv_example n paced_about_to_play
     = goto AtLoopTest
         (set_now (now paced_about_to_play
                   + Z.max (Z.quot (sleep_time_between_chunks_seconds paced_about_to_play)
                                   10) 0)
            (set_played (played paced_about_to_play
                         ++ [([x01; x02], output_sample_rate paced_about_to_play)])
               paced_about_to_play))) /\
  worker_step ratecv_example
    (pause_for (seconds 1) (worker_step ratecv_example paced_about_to_play))
  = goto AtLoopTest
      (pause_for (seconds 1) (worker_step ratecv_example paced_about_to_play)).
Proof.
  split.
  - apply (pacing_sleep_between_frames ratecv_example paced_about_to_play
             [x01; x02] 0 0).
    + vm_compute. reflexivity.
    + vm_compute. reflexivity.
    + vm_compute. reflexivity.
    + vm_compute. discriminate.
  - apply (pacing_sleep_between_frames ratecv_example
             (worker_step ratecv_example paced_about_to_play) [x01; x02]
             (seconds 100 + milliseconds 100) (seconds 1)).
    + vm_compute. reflexivity.
    + vm_compute. reflexivity.
    + vm_compute. reflexivity.
Defined.

Lemma pause_gate_holds_playback_witness :
  played (worker_steps ratecv_example 5 paused_with_chunk) = played paused_with_chunk.
Proof.
  apply (pause_gate_holds_playback ratecv_example paused_with_chunk 5).
  - vm_compute. exact I.
  - vm_compute. reflexivity.
Defined.

Lemma paused_chunk_played_once_at_deadline_witness :
  (0 < milliseconds 200 ->
   now fresh_manager + milliseconds 200
   <= pause_until_timestamp (pause_for (milliseconds 200) fresh_manager)) /\
  (forall n,
     now (worker_steps ratecv_example n paused_with_chunk)
     < pause_until_timestamp (pause_for (milliseconds 200) fresh_manager) ->
     played (worker_steps ratecv_example n paused_with_chunk) = played fresh_manager) /\
  (forall n,
     played (worker_steps ratecv_example n paused_with_chunk) = played fresh_manager \/
     played (worker_steps ratecv_example n paused_with_chunk)
     = played fresh_manager ++ [(test_chunk, output_sample_rate fresh_manager)]) /\
  (exists n,
     played (worker_steps ratecv_example n paused_with_chunk)
     = played fresh_manager ++ [(test_chunk, output_sample_rate fresh_manager)] /\
     now (worker_steps ratecv_example n paused_with_chunk)
     = Z.max (now fresh_manager)
             (pause_until_timestamp (pause_for (milliseconds 200) fresh_manager))).
Proof.
  apply (paused_chunk_played_once_at_deadline ratecv_example fresh_manager
           (milliseconds 200) test_chunk 16000 test_chunk).
  - vm_compute. reflexivity.
  - vm_compute. reflexivity.
  - split; vm_compute; reflexivity.
Defined.

(** The two assertions of the pause test: nothing has been played when
    the clock shows 50 ms after the calls, one chunk has been when it
    shows 250 ms (the worker's next timeout brings it past that). *)
Example pause_test_run :
  now (worker_steps ratecv_example 3 paused_with_chunk)
  = seconds 100 + milliseconds 50 /\
  played (worker_steps ratecv_example 3 paused_with_chunk) = [] /\
  now (worker_steps ratecv_example 9 paused_with_chunk)
  = seconds 100 + milliseconds 200 /\
  played (worker_steps ratecv_example 9 paused_with_chunk) = [(test_chunk, 16000)] /\
  played (worker_steps ratecv_example 11 paused_with_chunk) = [(test_chunk, 16000)] /\
  now (worker_steps ratecv_example 11 paused_with_chunk)
  = seconds 101 + milliseconds 200.
Proof. repeat split; vm_compute; reflexivity. Qed.

Lemma cleanup_returns_within_get_timeout_witness :
  exists s' : manager,
    cleanup ratecv_example 0 4 waiting_worker = Some s' /\
    now waiting_worker <= now s' <= now waiting_worker + seconds 1 /\
    inner_chunk_buffer s' = inner_chunk_buffer waiting_worker /\
    last_chunk_time s' = last_chunk_time waiting_worker.
Proof.
  apply (cleanup_returns_within_get_timeout ratecv_example waiting_worker 0 4).
  apply le_n.
Defined.

(** A worker waiting in [get] keeps [cleanup] for the second of the
    timeout. *)
Example cleanup_waits_for_the_timeout :
  audio_thread waiting_worker = Some AtGet /\
  option_map now (cleanup ratecv_example 0 4 waiting_worker)
  = Some (now waiting_worker + seconds 1).
Proof. split; vm_compute; reflexivity. Qed.

Lemma chunk_after_cleanup_played_at_once_witness :
  exists s' : manager,
    cleanup ratecv_example 2 4 (pause_for (seconds 5) two_queued) = Some s' /\
    audio_thread (add_chunk_inner [x05; x06] 16000 s') = Some AtLoopTest /\
    stop_audio_thread (add_chunk_inner [x05; x06] 16000 s') = false /\
    exists n : nat,
      played (worker_steps ratecv_example n (add_chunk_inner [x05; x06] 16000 s'))
      = played s' ++ [([x05; x06], output_sample_rate (pause_for (seconds 5) two_queued))] /\
      now (worker_steps ratecv_example n (add_chunk_inner [x05; x06] 16000 s')) = now s' /\
      audio_queue (worker_steps ratecv_example n (add_chunk_inner [x05; x06] 16000 s'))
      = [].
Proof.
  apply (chunk_after_cleanup_played_at_once ratecv_example
           (pause_for (seconds 5) two_queued) 2 4 [x05; x06] 16000 [x05; x06]).
  - apply le_n.
  - vm_compute. discriminate.
  - split; vm_compute; reflexivity.
Defined.

Lemma upsample_integer_ratios_compose_witness :
  (c <- upsample_chunk_to_output_sample_rate ratecv_example (8000 * 2)
          [x01; x02; x03; x04] 8000 ;;
   upsample_chunk_to_output_sample_rate ratecv_example (8000 * 2 * 3) c (8000 * 2))
  = upsample_chunk_to_output_sample_rate ratecv_example (8000 * 2 * 3)
      [x01; x02; x03; x04] 8000.
Proof.
  apply (upsample_integer_ratios_compose ratecv_example 8000 2 3 [x01; x02; x03; x04]).
  - discriminate.
  - reflexivity.
  - reflexivity.
Defined.

Example upsample_8000_to_48000 :
  upsample_chunk_to_output_sample_rate ratecv_example 48000 [x01; x02] 8000
  = Ok [x01; x02; x01; x02; x01; x02; x01; x02; x01; x02; x01; x02].
Proof. vm_compute. reflexivity. Qed.

Lemma add_chunk_split_invariant_witness :
  exists s1 s2 s12 : manager,
    add_chunk 6 [x01; x02; x03] 10 fresh_manager = Returned s1 /\
    add_chunk 6 [x04; x05; x06] 10 (time_sleep (milliseconds 100) s1) = Returned s2 /\
    add_chunk 6 ([x01; x02; x03] ++ [x04; x05; x06]) 10 fresh_manager = Returned s12 /\
    audio_queue s2 = audio_queue s12 /\
    inner_chunk_buffer s2 = inner_chunk_buffer s12.
Proof.
  apply (add_chunk_split_invariant [x01; x02; x03] [x04; x05; x06] 10 fresh_manager
           (milliseconds 100) 6).
  - vm_compute. reflexivity.
  - split; vm_compute; discriminate.
  - vm_compute. apply le_n.
Defined.

Lemma queue_played_at_the_pace_witness :
  exists n : nat,
    worker_steps ratecv_example n paced_two_queued
    = goto AtLoopTest
        (set_now (now paced_two_queued
                  + len [[x01; x02]; [x03; x04]]
                    * Z.max (Z.quot (sleep_time_between_chunks_seconds paced_two_queued)
                                    10) 0)
           (set_played (played paced_two_queued
                        ++ map (fun c => (c, output_sample_rate paced_two_queued))
                               [[x01; x02]; [x03; x04]])
              (set_audio_queue [] paced_two_queued))).
Proof.
  apply (queue_played_at_the_pace ratecv_example [[x01; x02]; [x03; x04]]
           paced_two_queued).
  - vm_compute. reflexivity.
  - vm_compute. reflexivity.
  - vm_compute. discriminate.
  - assert (Hq : audio_queue paced_two_queued = [([x01; x02], 16000); ([x03; x04], 16000)])
      by (vm_compute; reflexivity).
    rewrite Hq.
    constructor; [split; vm_compute; reflexivity|].
    constructor; [split; vm_compute; reflexivity|].
    constructor.
Defined.

(** Two frames at a tenth of a second each: the queue is empty 200 ms
    after the worker started. *)
Example two_frames_take_200_ms :
  exists n : nat,
    now (worker_steps ratecv_example n paced_two_queued)
    = seconds 100 + milliseconds 200 /\
    played (worker_steps ratecv_example n paced_two_queued)
    = [([x01; x02], 16000); ([x03; x04], 16000)] /\
    audio_thread (worker_steps ratecv_example n paced_two_queued) = Some AtLoopTest.
Proof. exists 16%nat. repeat split; vm_compute; reflexivity. Qed.

Lemma idle_worker_lifetime_witness :
  exists m : nat,
    (forall n : nat,
       (n <= 2 * m + 1)%nat ->
       is_alive (worker_steps ratecv_example n waiting_worker) = true) /\
    worker_steps ratecv_example (2 * m + 1) waiting_worker
    = leave_loop None
        (set_now (now waiting_worker + seconds (Z.of_nat m + 1)) waiting_worker) /\
    worker_steps ratecv_example (2 * m + 2) waiting_worker
    = exit_thread None
        (set_now (now waiting_worker + seconds (Z.of_nat m + 1)) waiting_worker) /\
    seconds 10
    < now waiting_worker + seconds (Z.of_nat m + 1) - last_chunk_time waiting_worker
    <= seconds 11.
Proof.
  apply (idle_worker_lifetime ratecv_example waiting_worker).
  - vm_compute. reflexivity.
  - vm_compute. reflexivity.
  - vm_compute. reflexivity.
  - vm_compute. discriminate.
  - vm_compute. discriminate.
Defined.

(** On the clock of the model, where the calls take no time, the tenth
    timeout comes exactly ten seconds after the chunk, the worker leaves
    its loop at the eleventh, and the thread has ended at the next step. *)
Example idle_worker_gone_after_eleven_seconds :
  last_chunk_time waiting_worker = now waiting_worker /\
  audio_thread (worker_steps ratecv_example 20 waiting_worker) = Some AtGet /\
  now (worker_steps ratecv_example 20 waiting_worker) = now waiting_worker + seconds 10 /\
  audio_thread (worker_steps ratecv_example 21 waiting_worker) = Some (AtReturn None) /\
  is_alive (worker_steps ratecv_example 22 waiting_worker) = false /\
  now (worker_steps ratecv_example 22 waiting_worker) = now waiting_worker + seconds 11.
Proof. repeat split; vm_compute; reflexivity. Qed.

(** Three callers race through [add_chunk_inner] and no thread ends: one
    thread is created, and it runs. *)
Example spawn_three_callers :
  created (spawn_run (map CallerStep [0; 1; 2; 0; 1; 2; 1; 1; 1; 1; 0; 2; 0; 2]%nat))
  = 1%nat /\
  live_threads (spawn_run (map CallerStep [0; 1; 2; 0; 1; 2; 1; 1; 1; 1; 0; 2; 0; 2]%nat))
  = 1%nat.
Proof. split; vm_compute; reflexivity. Qed.

(** The constant chunk of the test, brought from 8000 to 16000. *)
Example make_pcm_chunk_upsampled :
  make_pcm_chunk 2000 2 = Some [xd0; x07; xd0; x07] /\
  Some (upsample_chunk_to_output_sample_rate ratecv_example 16000
          [xd0; x07; xd0; x07] 8000)
  = option_map Ok (make_pcm_chunk 2000 4) /\
  make_pcm_chunk 40000 1 = None /\
  make_pcm_chunk 40000 0 = Some [] /\
  make_pcm_chunk (-2) 1 = Some [xfe; xff].
Proof. repeat split; vm_compute; reflexivity. Qed.
